(** * BSV-Go SDK: UTXO management and transaction building

    A shallow embedding of [pkg/bsv/utxo/manager.go], of the transaction
    builder ([package transaction], sending included), of the
    configuration manager ([package config]), of [pkg/sharding] and of the
    parts of [package types] they use, followed by the properties of coin
    selection, change computation, parameter validation, the
    address-indexed cache, configuration updates, sharding and the
    reported transaction result.

    Conventions of the embedding:
    - Go's [int64] (and [int], taken to be 64 bits wide) is a [Z] on which
      every arithmetic operation wraps around ([add64], [sub64], [mul64]);
    - a Go slice is a [list]; [append(s, x)] is [s ++ [x]];
    - [map[string]*CacheEntry] is a [gmap string CacheEntry]; an update
      through the pointer stored in the map is an update of the map at the
      key the pointer was read from;
    - functions that read the clock, talk to the network or touch the cache
      live in a state monad over [World]; the clock and the remote service
      are oracles indexed by the number of interactions so far. *)

From Stdlib Require Import ZArith Lia Sorting.Sorted Sorting.Permutation.
From stdpp Require Import base gmap strings list fin_maps.

Local Open Scope Z_scope.

(** ** 64-bit integers *)

Definition wrap64 (z : Z) : Z := (z + 2 ^ 63) mod 2 ^ 64 - 2 ^ 63.

Definition fits64 (z : Z) : Prop := - 2 ^ 63 <= z < 2 ^ 63.

Definition add64 (a b : Z) : Z := wrap64 (a + b).
Definition sub64 (a b : Z) : Z := wrap64 (a - b).
Definition mul64 (a b : Z) : Z := wrap64 (a * b).

Definition max_int64 : Z := 2 ^ 63 - 1.

(** [len(s)] as a Go [int]. *)
Definition len {A : Type} (s : list A) : Z := Z.of_nat (length s).

(** ** package config *)

Module config.

Record NetworkConfig := {
  Name : string;
  RPCURL : string;
  ExplorerURL : string;
  IsTestnet : bool;
  ChainID : string;
  CoinType : Z
}.

Record UTXOConfig := {
  IncludeNative : bool;
  IncludeNonNative : bool;
  MinConfirmations : Z;
  MaxUTXOsPerQuery : Z;
  EnableCaching : bool;
  CacheExpiry : Z
}.

Record TransactionConfig := {
  DefaultFeeRate : Z;
  MinFeeRate : Z;
  MaxFeeRate : Z;
  DustLimit : Z;
  MaxTransactionSize : Z;
  EnableRBF : bool;
  IncludeNativeUTXOs : bool;
  IncludeNonNativeUTXOs : bool
}.

Record Config := {
  Network : NetworkConfig;
  UTXO : UTXOConfig;
  Transaction : TransactionConfig
}.

Inductive ConfigError :=
| ErrDefaultFeeRateNotPositive
| ErrMinFeeRateNotPositive
| ErrMaxFeeRateNotPositive
| ErrMinFeeRateAboveMax
| ErrDustLimitNegative
| ErrMaxTransactionSizeNotPositive
| ErrMinConfirmationsNegative
| ErrMaxUTXOsPerQueryNotPositive
| ErrCacheExpiryNegative.

(** [validateUTXOConfig]; [None] is Go's [nil] error. *)
Definition validateUTXOConfig (utxo : UTXOConfig) : option ConfigError :=
  if MinConfirmations utxo <? 0 then Some ErrMinConfirmationsNegative
  else if MaxUTXOsPerQuery utxo <=? 0 then Some ErrMaxUTXOsPerQueryNotPositive
  else if CacheExpiry utxo <? 0 then Some ErrCacheExpiryNegative
  else None.

(** [validateTransactionConfig]. *)
Definition validateTransactionConfig (tx : TransactionConfig) : option ConfigError :=
  if DefaultFeeRate tx <=? 0 then Some ErrDefaultFeeRateNotPositive
  else if MinFeeRate tx <=? 0 then Some ErrMinFeeRateNotPositive
  else if MaxFeeRate tx <=? 0 then Some ErrMaxFeeRateNotPositive
  else if MaxFeeRate tx <? MinFeeRate tx then Some ErrMinFeeRateAboveMax
  else if DustLimit tx <? 0 then Some ErrDustLimitNegative
  else if MaxTransactionSize tx <=? 0 then Some ErrMaxTransactionSizeNotPositive
  else None.

Definition getTestnetConfig : NetworkConfig := {|
  Name := "BSV Testnet";
  RPCURL := "https://api.whatsonchain.com/v1/bsv/test";
  ExplorerURL := "https://test.whatsonchain.com";
  IsTestnet := true;
  ChainID := "testnet";
  CoinType := 1
|}.

Definition getDefaultUTXOConfig : UTXOConfig := {|
  IncludeNative := true;
  IncludeNonNative := true;
  MinConfirmations := 1;
  MaxUTXOsPerQuery := 100;
  EnableCaching := true;
  CacheExpiry := 300
|}.

Definition getDefaultTransactionConfig : TransactionConfig := {|
  DefaultFeeRate := 5;
  MinFeeRate := 1;
  MaxFeeRate := 1000;
  DustLimit := 546;
  MaxTransactionSize := 100000;
  EnableRBF := false;
  IncludeNativeUTXOs := true;
  IncludeNonNativeUTXOs := false
|}.

Definition getDefaultConfig : Config := {|
  Network := getTestnetConfig;
  UTXO := getDefaultUTXOConfig;
  Transaction := getDefaultTransactionConfig
|}.

End config.

(** ** package types *)

Module types.

Record UTXO := {
  TxID : string;
  Vout : Z;
  Value : Z;
  ScriptPubKey : string;
  Address : string;
  Confirmations : Z;
  Height : Z;
  IsNative : bool;
  TokenID : string;
  TokenAmount : Z
}.

Record TokenTransfer := {
  tt_TokenID : string;
  tt_To : string;
  tt_Amount : Z
}.

Record DataOutput := { Data : string }.

Record TransactionParams := {
  From : string;
  To : string;
  Amount : Z;
  FeeRate : Z;
  PrivateKey : string;
  IncludeNativeUTXOs : bool;
  IncludeNonNativeUTXOs : bool;
  TokenTransfers : list TokenTransfer;
  DataOutputs : list DataOutput
}.

Record NativeBalanceInfo := {
  nb_Confirmed : Z;
  nb_Unconfirmed : Z;
  nb_Total : Z;
  nb_UTXOCount : Z
}.

Record TokenBalance := {
  tb_TokenID : string;
  tb_Confirmed : Z;
  tb_Unconfirmed : Z;
  tb_Total : Z;
  tb_UTXOCount : Z
}.

Record NonNativeBalanceInfo := {
  Tokens : gmap string TokenBalance;
  nn_UTXOCount : Z
}.

Record EnhancedBalanceInfo := {
  Native : NativeBalanceInfo;
  NonNative : NonNativeBalanceInfo;
  Total : Z
}.

End types.

(** ** package utxo: data *)

Module utxo.

Import types.

(** [CacheEntry]; [Balance] is a pointer that may be [nil]. *)
Record CacheEntry := {
  UTXOs : list UTXO;
  Balance : option EnhancedBalanceInfo;
  Timestamp : Z
}.

(** One element of the answer of [GET {base}/address/{address}/unspent]. *)
Record EnhancedUTXOResponse := {
  r_TxID : string;
  r_Vout : Z;
  r_Value : Z;
  r_ScriptPubKey : string;
  r_Address : string;
  r_Confirmations : Z;
  r_Height : Z
}.

Record EnhancedBalanceResponse := {
  r_Confirmed : Z;
  r_Unconfirmed : Z
}.

(** The errors the manager builds with [fmt.Errorf], with the values they
    are formatted from. *)
Inductive Error :=
| ErrGetUTXOs
| ErrGetBalance
| ErrUTXOsForBalance (cause : Error)
| ErrNoUTXOs (address : string)
| ErrNoSuitableUTXOs
| ErrFeeRateExceedsMax (feeRate maxFeeRate : Z)
| ErrInsufficientFunds (need have : Z)
| ErrInsufficientTokenBalance (need have : Z)
| ErrInsufficientNativeForFees (need have : Z).

Inductive result (A : Type) :=
| Ok (a : A)
| Err (e : Error).
Arguments Ok {A} a.
Arguments Err {A} e.

(** Calls and requests, in the order they are made (a ghost trace: the
    code keeps no such log). *)
Inductive Event :=
| EvRequest (url : string)
| EvSelectUTXOs (address : string) (amount feeRate : Z)
| EvSelectUTXOsForTokenTransfer (address tokenID : string) (amount feeRate : Z).

(** The manager's mutable state together with the configuration it reads
    and the count of interactions with the outside world. *)
Record World := {
  cfg : config.Config;
  cache : gmap string CacheEntry;
  steps : nat;
  trace : list Event
}.

(** The outside world: the clock (nanoseconds) and the outcome of
    [makeRequest] (retries included; [None] is its [lastErr]) at each
    interaction. *)
Record Env := {
  clock : nat -> Z;
  unspent_api : nat -> string -> option (list EnhancedUTXOResponse);
  balance_api : nat -> string -> option EnhancedBalanceResponse
}.

Definition M (A : Type) : Type := World -> A * World.

Definition ret {A} (a : A) : M A := fun w => (a, w).

Definition bind {A B} (m : M A) (k : A -> M B) : M B :=
  fun w => let (a, w') := m w in k a w'.

Definition NewManager (c : config.Config) : World :=
  {| cfg := c; cache := ∅; steps := 0; trace := [] |}.

End utxo.

Notation "x <- m ;; k" := (utxo.bind m (fun x => k))
  (at level 100, m at next level, right associativity).
Notation "m ;;; k" := (utxo.bind m (fun _ => k))
  (at level 100, right associativity).

Module manager.

Import types utxo.

Definition second : Z := 1000000000.

(** [time.Time.Sub] saturates at the bounds of [Duration]. *)
Definition saturate64 (z : Z) : Z := Z.max (- 2 ^ 63) (Z.min max_int64 z).

Definition sumValues (l : list UTXO) : Z := foldr (fun u acc => Value u + acc) 0 l.
Definition sumTokenAmounts (l : list UTXO) : Z := foldr (fun u acc => TokenAmount u + acc) 0 l.

(** The size estimate [10 + n*148 + 34 + 34] on Go [int]s and the fee
    [int64(size) * feeRate]. *)
Definition estimatedSize (n : Z) : Z := add64 (add64 (add64 10 (mul64 n 148)) 34) 34.
Definition feeFor (n feeRate : Z) : Z := mul64 (estimatedSize n) feeRate.

(** *** Sorting: the two bubble sorts *)

(** The inner loop [for j := 0; j < n; j++]: [n] compare-and-swap steps
    on adjacent elements, starting at index 0. *)
Fixpoint bubble (key : UTXO -> Z) (n : nat) (l : list UTXO) : list UTXO :=
  match n, l with
  | S n', x :: y :: t =>
      if key x <? key y then y :: bubble key n' (x :: t)
      else x :: bubble key n' (y :: t)
  | _, _ => l
  end.

(** The outer loop: passes of [len-1], [len-2], ..., [1] steps. *)
Fixpoint passes (key : UTXO -> Z) (k : nat) (l : list UTXO) : list UTXO :=
  match k with
  | O => l
  | S k' => passes key k' (bubble key k l)
  end.

Definition sortUTXOsByValue (utxos : list UTXO) : list UTXO :=
  passes Value (length utxos - 1) utxos.

Definition sortUTXOsByTokenAmount (utxos : list UTXO) : list UTXO :=
  passes TokenAmount (length utxos - 1) utxos.

(** *** CalculateChange *)

Fixpoint totalInputLoop (selectedUTXOs : list UTXO) (totalInput : Z) : Z :=
  match selectedUTXOs with
  | [] => totalInput
  | utxo :: rest => totalInputLoop rest (add64 totalInput (Value utxo))
  end.

Definition CalculateChange (txConfig : config.TransactionConfig)
    (selectedUTXOs : list UTXO) (amount fee : Z) : Z * bool :=
  let totalInput := totalInputLoop selectedUTXOs 0 in
  let change := sub64 (sub64 totalInput amount) fee in
  if config.DustLimit txConfig <? change then (change, true) else (0, false).

(** *** SelectUTXOs, after the fetch *)

(** The inclusion filter. *)
Fixpoint filterAvailable (txConfig : config.TransactionConfig)
    (allUTXOs availableUTXOs : list UTXO) : list UTXO :=
  match allUTXOs with
  | [] => availableUTXOs
  | utxo :: rest =>
      let availableUTXOs :=
        if IsNative utxo && config.IncludeNativeUTXOs txConfig
        then availableUTXOs ++ [utxo] else availableUTXOs in
      let availableUTXOs :=
        if negb (IsNative utxo) && config.IncludeNonNativeUTXOs txConfig
        then availableUTXOs ++ [utxo] else availableUTXOs in
      filterAvailable txConfig rest availableUTXOs
  end.

(** The accumulation loop; [inr totalValue] when the loop runs to its
    end. *)
Fixpoint selectLoop (amount feeRate : Z) (sortedUTXOs selectedUTXOs : list UTXO)
    (totalValue : Z) : (list UTXO * Z) + Z :=
  match sortedUTXOs with
  | [] => inr totalValue
  | utxo :: rest =>
      let selectedUTXOs := selectedUTXOs ++ [utxo] in
      let totalValue := add64 totalValue (Value utxo) in
      let currentSize := estimatedSize (len selectedUTXOs) in
      let currentFee := mul64 currentSize feeRate in
      if add64 amount currentFee <=? totalValue
      then inl (selectedUTXOs, currentFee)
      else selectLoop amount feeRate rest selectedUTXOs totalValue
  end.

(** The body of [SelectUTXOs] from [len(allUTXOs) == 0] on. *)
Definition selectFrom (txConfig : config.TransactionConfig) (address : string)
    (allUTXOs : list UTXO) (amount feeRate : Z) : result (list UTXO * Z) :=
  if len allUTXOs =? 0 then Err (ErrNoUTXOs address) else
  let availableUTXOs := filterAvailable txConfig allUTXOs [] in
  if len availableUTXOs =? 0 then Err ErrNoSuitableUTXOs else
  let sortedUTXOs := sortUTXOsByValue availableUTXOs in
  let estimatedSize := estimatedSize (len sortedUTXOs) in
  let estimatedFee := mul64 estimatedSize feeRate in
  let feeRate := if feeRate <? config.MinFeeRate txConfig
                 then config.DefaultFeeRate txConfig else feeRate in
  if config.MaxFeeRate txConfig <? feeRate
  then Err (ErrFeeRateExceedsMax feeRate (config.MaxFeeRate txConfig)) else
  match selectLoop amount feeRate sortedUTXOs [] 0 with
  | inl (selectedUTXOs, currentFee) => Ok (selectedUTXOs, currentFee)
  | inr totalValue => Err (ErrInsufficientFunds (add64 amount estimatedFee) totalValue)
  end.

(** *** SelectUTXOsForTokenTransfer, after the fetch *)

Fixpoint splitByToken (tokenID : string) (allUTXOs tokenUTXOs nativeUTXOs : list UTXO)
    : list UTXO * list UTXO :=
  match allUTXOs with
  | [] => (tokenUTXOs, nativeUTXOs)
  | utxo :: rest =>
      if IsNative utxo then splitByToken tokenID rest tokenUTXOs (nativeUTXOs ++ [utxo])
      else if String.eqb (TokenID utxo) tokenID
           then splitByToken tokenID rest (tokenUTXOs ++ [utxo]) nativeUTXOs
           else splitByToken tokenID rest tokenUTXOs nativeUTXOs
  end.

Fixpoint totalTokenLoop (tokenUTXOs : list UTXO) (totalTokenAmount : Z) : Z :=
  match tokenUTXOs with
  | [] => totalTokenAmount
  | utxo :: rest => totalTokenLoop rest (add64 totalTokenAmount (TokenAmount utxo))
  end.

(** The two loops that stop with [break] as soon as [target] is covered. *)
Fixpoint takeUntil (key : UTXO -> Z) (target : Z) (sorted selected : list UTXO)
    (total : Z) : list UTXO * Z :=
  match sorted with
  | [] => (selected, total)
  | utxo :: rest =>
      let selected := selected ++ [utxo] in
      let total := add64 total (key utxo) in
      if target <=? total then (selected, total)
      else takeUntil key target rest selected total
  end.

Definition selectForTokenFrom (allUTXOs : list UTXO) (tokenID : string)
    (amount feeRate : Z) : result (list UTXO * Z) :=
  let '(tokenUTXOs, nativeUTXOs) := splitByToken tokenID allUTXOs [] [] in
  let totalTokenAmount := totalTokenLoop tokenUTXOs 0 in
  if totalTokenAmount <? amount
  then Err (ErrInsufficientTokenBalance amount totalTokenAmount) else
  let sortedTokenUTXOs := sortUTXOsByTokenAmount tokenUTXOs in
  let '(selectedTokenUTXOs, selectedTokenAmount) :=
    takeUntil TokenAmount amount sortedTokenUTXOs [] 0 in
  let estimatedSize := estimatedSize (len selectedTokenUTXOs) in
  let estimatedFee := mul64 estimatedSize feeRate in
  let sortedNativeUTXOs := sortUTXOsByValue nativeUTXOs in
  let '(selectedNativeUTXOs, totalNativeValue) :=
    takeUntil Value estimatedFee sortedNativeUTXOs [] 0 in
  if totalNativeValue <? estimatedFee
  then Err (ErrInsufficientNativeForFees estimatedFee totalNativeValue) else
  let allSelectedUTXOs := [] ++ selectedTokenUTXOs in
  let allSelectedUTXOs := allSelectedUTXOs ++ selectedNativeUTXOs in
  Ok (allSelectedUTXOs, estimatedFee).

(** *** The stateful operations *)

Section Stateful.

Variable E : Env.

Definition GetNetworkConfig : M config.NetworkConfig :=
  fun w => (config.Network (cfg w), w).
Definition GetUTXOConfig : M config.UTXOConfig :=
  fun w => (config.UTXO (cfg w), w).
Definition GetTransactionConfig : M config.TransactionConfig :=
  fun w => (config.Transaction (cfg w), w).

Definition getCache : M (gmap string CacheEntry) := fun w => (cache w, w).

Definition putCache (c : gmap string CacheEntry) : M unit :=
  fun w => (tt, {| cfg := cfg w; cache := c; steps := steps w; trace := trace w |}).

Definition logEvent (e : Event) : M unit :=
  fun w => (tt, {| cfg := cfg w; cache := cache w; steps := steps w;
                   trace := trace w ++ [e] |}).

Definition tick (w : World) : World :=
  {| cfg := cfg w; cache := cache w; steps := S (steps w); trace := trace w |}.

(** [time.Now()]. *)
Definition time_Now : M Z := fun w => (clock E (steps w), tick w).

(** [time.Since(t)]. *)
Definition time_Since (t : Z) : M Z :=
  now <- time_Now ;; ret (saturate64 (now - t)).

(** [makeRequest(url, &utxoResponses)] and [makeRequest(url, &balanceResp)]. *)
Definition makeRequestUnspent (url : string) : M (option (list EnhancedUTXOResponse)) :=
  logEvent (EvRequest url) ;;;
  fun w => (unspent_api E (steps w) url, tick w).

Definition makeRequestBalance (url : string) : M (option EnhancedBalanceResponse) :=
  logEvent (EvRequest url) ;;;
  fun w => (balance_api E (steps w) url, tick w).

Definition ClearCache : M unit := putCache ∅.

Definition ClearCacheForAddress (address : string) : M unit :=
  c <- getCache ;; putCache (delete address c).

Definition getFromCache (address : string) : M (option CacheEntry) :=
  utxoConfig <- GetUTXOConfig ;;
  if negb (config.EnableCaching utxoConfig) then ret None else
  c <- getCache ;;
  match c !! address with
  | None => ret None
  | Some entry =>
      since <- time_Since (Timestamp entry) ;;
      if mul64 (config.CacheExpiry utxoConfig) second <? since
      then ret None
      else ret (Some entry)
  end.

Definition setCache (address : string) (entry : CacheEntry) : M unit :=
  utxoConfig <- GetUTXOConfig ;;
  if negb (config.EnableCaching utxoConfig) then ret tt else
  c <- getCache ;; putCache (<[address := entry]> c).

Definition toUTXO (resp : EnhancedUTXOResponse) : UTXO := {|
  TxID := r_TxID resp;
  Vout := r_Vout resp;
  Value := r_Value resp;
  ScriptPubKey := r_ScriptPubKey resp;
  Address := r_Address resp;
  Confirmations := r_Confirmations resp;
  Height := r_Height resp;
  IsNative := true;
  TokenID := "";
  TokenAmount := 0
|}.

(** The conversion loop of [GetUTXOs], with its [continue] and [break]. *)
Fixpoint convertResponses (utxoConfig : config.UTXOConfig)
    (utxoResponses : list EnhancedUTXOResponse) (utxos : list UTXO) : list UTXO :=
  match utxoResponses with
  | [] => utxos
  | resp :: rest =>
      if r_Confirmations resp <? config.MinConfirmations utxoConfig
      then convertResponses utxoConfig rest utxos
      else if config.MaxUTXOsPerQuery utxoConfig <=? len utxos
      then utxos
      else convertResponses utxoConfig rest (utxos ++ [toUTXO resp])
  end.

Definition GetUTXOs (address : string) : M (result (list UTXO)) :=
  cached <- getFromCache address ;;
  match cached with
  | Some cached => ret (Ok (UTXOs cached))
  | None =>
      networkConfig <- GetNetworkConfig ;;
      utxoConfig <- GetUTXOConfig ;;
      let url := config.RPCURL networkConfig +:+ "/address/" +:+ address +:+ "/unspent" in
      resp <- makeRequestUnspent url ;;
      match resp with
      | None => ret (Err ErrGetUTXOs)
      | Some utxoResponses =>
          let utxos := convertResponses utxoConfig utxoResponses [] in
          (if config.EnableCaching utxoConfig
           then now <- time_Now ;;
                setCache address {| UTXOs := utxos; Balance := None; Timestamp := now |}
           else ret tt) ;;;
          ret (Ok utxos)
      end
  end.

(** The grouping loop of [GetEnhancedBalance] over the non-native
    outputs. *)
Definition addTokenUTXO (utxoConfig : config.UTXOConfig)
    (tokens : gmap string TokenBalance) (utxo : UTXO) : gmap string TokenBalance :=
  if String.eqb (TokenID utxo) "" then tokens else
  let tokenBalance :=
    match tokens !! TokenID utxo with
    | Some tb => tb
    | None => {| tb_TokenID := TokenID utxo; tb_Confirmed := 0; tb_Unconfirmed := 0;
                 tb_Total := 0; tb_UTXOCount := 0 |}
    end in
  let confirmed := config.MinConfirmations utxoConfig <=? Confirmations utxo in
  <[TokenID utxo := {|
      tb_TokenID := tb_TokenID tokenBalance;
      tb_Confirmed := if confirmed
                      then add64 (tb_Confirmed tokenBalance) (TokenAmount utxo)
                      else tb_Confirmed tokenBalance;
      tb_Unconfirmed := if confirmed
                        then tb_Unconfirmed tokenBalance
                        else add64 (tb_Unconfirmed tokenBalance) (TokenAmount utxo);
      tb_Total := add64 (tb_Total tokenBalance) (TokenAmount utxo);
      tb_UTXOCount := add64 (tb_UTXOCount tokenBalance) 1
    |}]> tokens.

Definition computeBalance (utxoConfig : config.UTXOConfig)
    (balanceResp : EnhancedBalanceResponse) (utxos : list UTXO) : EnhancedBalanceInfo :=
  let nativeUTXOs := List.filter IsNative utxos in
  let nonNativeUTXOs := List.filter (fun u => negb (IsNative u)) utxos in
  let nativeBalance := {|
    nb_Confirmed := r_Confirmed balanceResp;
    nb_Unconfirmed := r_Unconfirmed balanceResp;
    nb_Total := add64 (r_Confirmed balanceResp) (r_Unconfirmed balanceResp);
    nb_UTXOCount := len nativeUTXOs
  |} in
  let nonNativeBalance := {|
    Tokens := fold_left (addTokenUTXO utxoConfig) nonNativeUTXOs ∅;
    nn_UTXOCount := len nonNativeUTXOs
  |} in
  {| Native := nativeBalance; NonNative := nonNativeBalance;
     Total := nb_Total nativeBalance |}.

Definition withBalance (entry : CacheEntry) (b : EnhancedBalanceInfo) : CacheEntry :=
  {| UTXOs := UTXOs entry; Balance := Some b; Timestamp := Timestamp entry |}.

Definition GetEnhancedBalance (address : string) : M (result EnhancedBalanceInfo) :=
  cached <- getFromCache address ;;
  match cached with
  | Some {| Balance := Some b |} => ret (Ok b)
  | _ =>
      networkConfig <- GetNetworkConfig ;;
      utxoConfig <- GetUTXOConfig ;;
      let balanceURL :=
        config.RPCURL networkConfig +:+ "/address/" +:+ address +:+ "/balance" in
      resp <- makeRequestBalance balanceURL ;;
      match resp with
      | None => ret (Err ErrGetBalance)
      | Some balanceResp =>
          r <- GetUTXOs address ;;
          match r with
          | Err e => ret (Err (ErrUTXOsForBalance e))
          | Ok utxos =>
              let enhancedBalance := computeBalance utxoConfig balanceResp utxos in
              (if config.EnableCaching utxoConfig
               then cached <- getFromCache address ;;
                    match cached with
                    | Some cached =>
                        (* cached.Balance = enhancedBalance, through the
                           pointer held by the map *)
                        c <- getCache ;;
                        putCache (<[address := withBalance cached enhancedBalance]> c)
                    | None =>
                        now <- time_Now ;;
                        setCache address {| UTXOs := []; Balance := Some enhancedBalance;
                                            Timestamp := now |}
                    end
               else ret tt) ;;;
              ret (Ok enhancedBalance)
          end
      end
  end.

Definition GetNativeBalance (address : string) : M (result NativeBalanceInfo) :=
  r <- GetEnhancedBalance address ;;
  match r with
  | Err e => ret (Err e)
  | Ok enhancedBalance => ret (Ok (Native enhancedBalance))
  end.

Definition GetNonNativeBalance (address : string) : M (result NonNativeBalanceInfo) :=
  r <- GetEnhancedBalance address ;;
  match r with
  | Err e => ret (Err e)
  | Ok enhancedBalance => ret (Ok (NonNative enhancedBalance))
  end.

Definition GetConfirmedBalance (address : string) : M (result Z) :=
  r <- GetNativeBalance address ;;
  match r with
  | Err e => ret (Err e)
  | Ok nativeBalance => ret (Ok (nb_Confirmed nativeBalance))
  end.

Definition SelectUTXOs (address : string) (amount feeRate : Z)
    : M (result (list UTXO * Z)) :=
  logEvent (EvSelectUTXOs address amount feeRate) ;;;
  txConfig <- GetTransactionConfig ;;
  r <- GetUTXOs address ;;
  match r with
  | Err e => ret (Err e)
  | Ok allUTXOs => ret (selectFrom txConfig address allUTXOs amount feeRate)
  end.

Definition SelectUTXOsForTokenTransfer (address tokenID : string) (amount feeRate : Z)
    : M (result (list UTXO * Z)) :=
  logEvent (EvSelectUTXOsForTokenTransfer address tokenID amount feeRate) ;;;
  r <- GetUTXOs address ;;
  match r with
  | Err e => ret (Err e)
  | Ok allUTXOs => ret (selectForTokenFrom allUTXOs tokenID amount feeRate)
  end.

End Stateful.

End manager.

(** ** package transaction *)

Module transaction.

Import types utxo manager.

Definition Bytes := list Byte.byte.

(** [wire.TxOut], [wire.TxIn] and [wire.MsgTx]. *)
Record TxOut := { out_Value : Z; PkScript : Bytes }.

Record TxIn := {
  PreviousOutPoint : string * Z;
  SignatureScript : Bytes
}.

Record MsgTx := {
  Version : Z;
  msg_TxIn : list TxIn;
  msg_TxOut : list TxOut;
  LockTime : Z
}.

Definition NewMsgTx (version : Z) : MsgTx :=
  {| Version := version; msg_TxIn := []; msg_TxOut := []; LockTime := 0 |}.

Definition AddTxIn (tx : MsgTx) (ti : TxIn) : MsgTx :=
  {| Version := Version tx; msg_TxIn := msg_TxIn tx ++ [ti];
     msg_TxOut := msg_TxOut tx; LockTime := LockTime tx |}.

Definition AddTxOut (tx : MsgTx) (to : TxOut) : MsgTx :=
  {| Version := Version tx; msg_TxIn := msg_TxIn tx;
     msg_TxOut := msg_TxOut tx ++ [to]; LockTime := LockTime tx |}.

Definition NewTxOut (value : Z) (pkScript : Bytes) : TxOut :=
  {| out_Value := value; PkScript := pkScript |}.

Definition NewTxIn (prevOut : string * Z) : TxIn :=
  {| PreviousOutPoint := prevOut; SignatureScript := [] |}.

(** What the builder uses of btcd and of the wallet package; [None] is a
    returned error. *)
Record Lib := {
  (** [chainhash.NewHashFromStr] *)
  NewHashFromStr : string -> option string;
  (** [btcutil.DecodeAddress(addr, network)], the network given by
      [IsTestnet] *)
  DecodeAddress : string -> bool -> option string;
  (** [txscript.PayToAddrScript] *)
  PayToAddrScript : string -> option Bytes;
  (** [NewScriptBuilder().AddOp(OP_RETURN).AddData(data).Script()] *)
  opReturnScript : Bytes -> option Bytes;
  (** [hex.DecodeString] *)
  hex_DecodeString : string -> option Bytes;
  (** the bytes of the hex encoding of
      [Sprintf("TOKEN_TRANSFER:%s:%s:%d", id, to, amount)] *)
  tokenDataHex : TokenTransfer -> Bytes;
  (** [txscript.SignatureScript(tx, i, script, SigHashAll, key, true)] *)
  signatureScript : MsgTx -> nat -> Bytes -> string -> option Bytes;
  (** [getSenderInfo]: the address and the key pair of a credential *)
  getSenderInfo : config.NetworkConfig -> string -> option (string * string)
}.

Inductive Error :=
| ErrSenderRequired
| ErrRecipientRequired
| ErrAmountNotPositive
| ErrPrivateKeyRequired
| ErrFeeRateBelowMin (feeRate minFeeRate : Z)
| ErrFeeRateExceedsMax (feeRate maxFeeRate : Z)
| ErrTokenIDRequired (i : nat)
| ErrTokenRecipientRequired (i : nat)
| ErrTokenAmountNotPositive (i : nat)
| ErrSenderInfo
| ErrSenderMismatch (expected got : string)
| ErrNoTokenTransfers
| ErrSelectToken (cause : ErrorOfSelection)
| ErrSelect (cause : ErrorOfSelection)
| ErrInvalidUTXOHash
| ErrAddOutputs (cause : Error)
| ErrSign (cause : Error)
| ErrInvalidRecipient
| ErrRecipientScript
| ErrTokenScript
| ErrDataHex
| ErrDataScript
| ErrInvalidSender
| ErrChangeScript
| ErrDecodeAddress
| ErrCreateScript
| ErrSignatureScript
| PanicIndexOutOfRange
with ErrorOfSelection :=
| FromManager (e : utxo.Error)
| FromBuilder (e : Error).

Inductive result (A : Type) :=
| Ok (a : A)
| Err (e : Error).
Arguments Ok {A} a.
Arguments Err {A} e.

Definition withFeeRate (params : TransactionParams) (feeRate : Z) : TransactionParams :=
  {| From := From params; To := To params; Amount := Amount params;
     FeeRate := feeRate; PrivateKey := PrivateKey params;
     IncludeNativeUTXOs := IncludeNativeUTXOs params;
     IncludeNonNativeUTXOs := IncludeNonNativeUTXOs params;
     TokenTransfers := TokenTransfers params;
     DataOutputs := DataOutputs params |}.

(** The loop of [validateParams] over the token transfers. *)
Fixpoint validateTransfers (i : nat) (transfers : list TokenTransfer) : option Error :=
  match transfers with
  | [] => None
  | transfer :: rest =>
      if String.eqb (tt_TokenID transfer) "" then Some (ErrTokenIDRequired i)
      else if String.eqb (tt_To transfer) "" then Some (ErrTokenRecipientRequired i)
      else if tt_Amount transfer <=? 0 then Some (ErrTokenAmountNotPositive i)
      else validateTransfers (S i) rest
  end.

(** [validateParams]: the error ([None] for [nil]) and the parameters as
    the call leaves them (it assigns [params.FeeRate]). *)
Definition validateParams (txConfig : config.TransactionConfig)
    (params : TransactionParams) : option Error * TransactionParams :=
  if String.eqb (From params) "" then (Some ErrSenderRequired, params)
  else if String.eqb (To params) "" then (Some ErrRecipientRequired, params)
  else if Amount params <=? 0 then (Some ErrAmountNotPositive, params)
  else if String.eqb (PrivateKey params) "" then (Some ErrPrivateKeyRequired, params)
  else
    let checked :=
      if FeeRate params <=? 0
      then (None, withFeeRate params (config.DefaultFeeRate txConfig))
      else if FeeRate params <? config.MinFeeRate txConfig
      then (Some (ErrFeeRateBelowMin (FeeRate params) (config.MinFeeRate txConfig)), params)
      else if config.MaxFeeRate txConfig <? FeeRate params
      then (Some (ErrFeeRateExceedsMax (FeeRate params) (config.MaxFeeRate txConfig)), params)
      else (None, params) in
    match checked with
    | (Some e, params) => (Some e, params)
    | (None, params) => (validateTransfers 0 (TokenTransfers params), params)
    end.

Section Builder.

Variable L : Lib.
Variable E : Env.

Fixpoint addTokenOutputs (tx : MsgTx) (transfers : list TokenTransfer) : result MsgTx :=
  match transfers with
  | [] => Ok tx
  | transfer :: rest =>
      match opReturnScript L (tokenDataHex L transfer) with
      | None => Err ErrTokenScript
      | Some script => addTokenOutputs (AddTxOut tx (NewTxOut 0 script)) rest
      end
  end.

Fixpoint addDataOutputs (tx : MsgTx) (dataOutputs : list DataOutput) : result MsgTx :=
  match dataOutputs with
  | [] => Ok tx
  | dataOutput :: rest =>
      match hex_DecodeString L (Data dataOutput) with
      | None => Err ErrDataHex
      | Some data =>
          match opReturnScript L data with
          | None => Err ErrDataScript
          | Some script => addDataOutputs (AddTxOut tx (NewTxOut 0 script)) rest
          end
      end
  end.

(** [addOutputs]; on an error the caller drops the transaction. *)
Definition addOutputs (c : config.Config) (tx : MsgTx) (params : TransactionParams)
    (selectedUTXOs : list UTXO) (fee : Z) : result MsgTx :=
  let testnet := config.IsTestnet (config.Network c) in
  match DecodeAddress L (To params) testnet with
  | None => Err ErrInvalidRecipient
  | Some recipientAddr =>
  match PayToAddrScript L recipientAddr with
  | None => Err ErrRecipientScript
  | Some recipientScript =>
  let tx := AddTxOut tx (NewTxOut (Amount params) recipientScript) in
  match addTokenOutputs tx (TokenTransfers params) with
  | Err e => Err e
  | Ok tx =>
  match addDataOutputs tx (DataOutputs params) with
  | Err e => Err e
  | Ok tx =>
  let '(change, hasChange) :=
    CalculateChange (config.Transaction c) selectedUTXOs (Amount params) fee in
  if hasChange then
    match DecodeAddress L (From params) testnet with
    | None => Err ErrInvalidSender
    | Some senderAddr =>
    match PayToAddrScript L senderAddr with
    | None => Err ErrChangeScript
    | Some changeScript => Ok (AddTxOut tx (NewTxOut change changeScript))
    end end
  else Ok tx
  end end end end.

Definition setSignatureScript (tx : MsgTx) (i : nat) (sigScript : Bytes) : MsgTx :=
  {| Version := Version tx;
     msg_TxIn := alter (fun ti => {| PreviousOutPoint := PreviousOutPoint ti;
                                     SignatureScript := sigScript |}) i (msg_TxIn tx);
     msg_TxOut := msg_TxOut tx; LockTime := LockTime tx |}.

Fixpoint signLoop (c : config.Config) (tx : MsgTx) (i : nat) (utxos : list UTXO)
    (keyPair : string) : result MsgTx :=
  match utxos with
  | [] => Ok tx
  | utxo :: rest =>
      match DecodeAddress L (Address utxo) (config.IsTestnet (config.Network c)) with
      | None => Err ErrDecodeAddress
      | Some senderAddr =>
      match PayToAddrScript L senderAddr with
      | None => Err ErrCreateScript
      | Some script =>
      match signatureScript L tx i script keyPair with
      | None => Err ErrSignatureScript
      | Some sigScript =>
          if decide (i < length (msg_TxIn tx))%nat
          then signLoop c (setSignatureScript tx i sigScript) (S i) rest keyPair
          else Err PanicIndexOutOfRange
      end end end
  end.

Definition signTransaction (c : config.Config) (tx : MsgTx) (utxos : list UTXO)
    (keyPair : string) : result MsgTx :=
  signLoop c tx 0 utxos keyPair.

Fixpoint addInputs (tx : MsgTx) (selectedUTXOs : list UTXO) : result MsgTx :=
  match selectedUTXOs with
  | [] => Ok tx
  | utxo :: rest =>
      match NewHashFromStr L (TxID utxo) with
      | None => Err ErrInvalidUTXOHash
      | Some txHash => addInputs (AddTxIn tx (NewTxIn (txHash, Vout utxo))) rest
      end
  end.

Definition getConfig : M config.Config := fun w => (cfg w, w).

Definition selectUTXOsForTokenTransfer (params : TransactionParams)
    : M (utxo.result (list UTXO * Z) + Error) :=
  match TokenTransfers params with
  | [] => ret (inr ErrNoTokenTransfers)
  | firstTransfer :: _ =>
      r <- SelectUTXOsForTokenTransfer E (From params) (tt_TokenID firstTransfer)
             (tt_Amount firstTransfer) (FeeRate params) ;;
      ret (inl r)
  end.

(** The part of [BuildTransaction] that follows the selection. *)
Definition assemble (c : config.Config) (params : TransactionParams)
    (selectedUTXOs : list UTXO) (fee : Z) (keyPair : string) : result MsgTx :=
  let tx := NewMsgTx 1 in
  match addInputs tx selectedUTXOs with
  | Err e => Err e
  | Ok tx =>
  match addOutputs c tx params selectedUTXOs fee with
  | Err e => Err (ErrAddOutputs e)
  | Ok tx =>
  match signTransaction c tx selectedUTXOs keyPair with
  | Err e => Err (ErrSign e)
  | Ok tx => Ok tx
  end end end.

(** [BuildTransaction]; the second component is [*params] as the call
    leaves it. *)
Definition BuildTransaction (params : TransactionParams)
    : M (result MsgTx * TransactionParams) :=
  c <- getConfig ;;
  match validateParams (config.Transaction c) params with
  | (Some err, params) => ret (Err err, params)
  | (None, params) =>
  match getSenderInfo L (config.Network c) (PrivateKey params) with
  | None => ret (Err ErrSenderInfo, params)
  | Some (senderAddress, keyPair) =>
  if negb (String.eqb senderAddress (From params))
  then ret (Err (ErrSenderMismatch (From params) senderAddress), params)
  else
    let txConfig := config.Transaction c in
    if 0 <? len (TokenTransfers params) then
      r <- selectUTXOsForTokenTransfer params ;;
      match r with
      | inr e => ret (Err (ErrSelectToken (FromBuilder e)), params)
      | inl (utxo.Err e) => ret (Err (ErrSelectToken (FromManager e)), params)
      | inl (utxo.Ok (selectedUTXOs, fee)) =>
          ret (assemble c params selectedUTXOs fee keyPair, params)
      end
    else
      let params := if FeeRate params <=? 0
                    then withFeeRate params (config.DefaultFeeRate txConfig)
                    else params in
      r <- SelectUTXOs E (From params) (Amount params) (FeeRate params) ;;
      match r with
      | utxo.Err e => ret (Err (ErrSelect (FromManager e)), params)
      | utxo.Ok (selectedUTXOs, fee) =>
          ret (assemble c params selectedUTXOs fee keyPair, params)
      end
  end end.

End Builder.

End transaction.

(** ** package config: the manager

    [Manager] holds a [*Config] whose three parts are pointers; [None] is
    [nil].  The deep copies the manager makes on every read and write are
    the identity on values.  A manager given a [nil] [*Config] by
    [NewManagerWithConfig] panics on first use and is not modelled. *)

Module configmgr.

Import config.

Record Config := {
  Network : option NetworkConfig;
  UTXO : option UTXOConfig;
  Transaction : option TransactionConfig
}.

Inductive Error :=
| ErrConfigNil
| ErrNetworkNil
| ErrNetworkNameRequired
| ErrRPCURLRequired
| ErrExplorerURLRequired
| ErrChainIDRequired
| ErrUTXONil
| ErrTransactionNil
| ErrValue (e : ConfigError)
| ErrInvalidConfiguration (cause : Error)
| ErrInvalidNetworkConfiguration (cause : Error)
| ErrInvalidUTXOConfiguration (cause : Error)
| ErrInvalidTransactionConfiguration (cause : Error)
| ErrUnsupportedNetworkType (networkType : string).

Definition Mainnet : string := "mainnet".
Definition Testnet : string := "testnet".
Definition Custom : string := "custom".

Definition getMainnetConfig : NetworkConfig := {|
  Name := "BSV Mainnet";
  RPCURL := "https://api.whatsonchain.com/v1/bsv/main";
  ExplorerURL := "https://whatsonchain.com";
  IsTestnet := false;
  ChainID := "mainnet";
  CoinType := 236
|}.

Definition validateNetworkConfig (network : option NetworkConfig) : option Error :=
  match network with
  | None => Some ErrNetworkNil
  | Some network =>
      if String.eqb (Name network) "" then Some ErrNetworkNameRequired
      else if String.eqb (RPCURL network) "" then Some ErrRPCURLRequired
      else if String.eqb (ExplorerURL network) "" then Some ErrExplorerURLRequired
      else if String.eqb (ChainID network) "" then Some ErrChainIDRequired
      else None
  end.

Definition validateUTXOConfig (utxo : option UTXOConfig) : option Error :=
  match utxo with
  | None => Some ErrUTXONil
  | Some utxo => ErrValue <$> config.validateUTXOConfig utxo
  end.

Definition validateTransactionConfig (tx : option TransactionConfig) : option Error :=
  match tx with
  | None => Some ErrTransactionNil
  | Some tx => ErrValue <$> config.validateTransactionConfig tx
  end.

Definition validateConfig (c : option Config) : option Error :=
  match c with
  | None => Some ErrConfigNil
  | Some c =>
      match validateNetworkConfig (Network c) with
      | Some err => Some err
      | None =>
      match validateUTXOConfig (UTXO c) with
      | Some err => Some err
      | None =>
      match validateTransactionConfig (Transaction c) with
      | Some err => Some err
      | None => None
      end end end
  end.

Definition getDefaultConfig : Config := {|
  Network := Some getTestnetConfig;
  UTXO := Some getDefaultUTXOConfig;
  Transaction := Some getDefaultTransactionConfig
|}.

(** [NewManager()] and [NewManagerWithConfig(config)], as the [*Config] the
    manager holds. *)
Definition NewManager : Config := getDefaultConfig.
Definition NewManagerWithConfig (c : Config) : Config := c.

(** The updates: the error ([None] for [nil]) and the configuration held
    afterwards. *)
Definition UpdateConfig (m : Config) (c : option Config) : option Error * Config :=
  match validateConfig c with
  | Some err => (Some (ErrInvalidConfiguration err), m)
  | None => (None, match c with Some c => c | None => m end)
  end.

Definition UpdateNetworkConfig (m : Config) (network : option NetworkConfig)
    : option Error * Config :=
  match validateNetworkConfig network with
  | Some err => (Some (ErrInvalidNetworkConfiguration err), m)
  | None => (None, {| Network := network; UTXO := UTXO m; Transaction := Transaction m |})
  end.

Definition UpdateUTXOConfig (m : Config) (utxo : option UTXOConfig) : option Error * Config :=
  match validateUTXOConfig utxo with
  | Some err => (Some (ErrInvalidUTXOConfiguration err), m)
  | None => (None, {| Network := Network m; UTXO := utxo; Transaction := Transaction m |})
  end.

Definition UpdateTransactionConfig (m : Config) (tx : option TransactionConfig)
    : option Error * Config :=
  match validateTransactionConfig tx with
  | Some err => (Some (ErrInvalidTransactionConfiguration err), m)
  | None => (None, {| Network := Network m; UTXO := UTXO m; Transaction := tx |})
  end.

Definition SetNetworkType (m : Config) (networkType : string) : option Error * Config :=
  if String.eqb networkType Mainnet
  then (None, {| Network := Some getMainnetConfig; UTXO := UTXO m;
                 Transaction := Transaction m |})
  else if String.eqb networkType Testnet
  then (None, {| Network := Some getTestnetConfig; UTXO := UTXO m;
                 Transaction := Transaction m |})
  else (Some (ErrUnsupportedNetworkType networkType), m).

Definition GetNetworkConfig (m : Config) : option NetworkConfig := Network m.
Definition GetUTXOConfig (m : Config) : option UTXOConfig := UTXO m.
Definition GetTransactionConfig (m : Config) : option TransactionConfig := Transaction m.

End configmgr.

(** ** package sharding

    Go strings and byte slices are both [string] here (a sequence of
    bytes); [[]byte(s)] and [string(b)] are the identity. *)

Module sharding.

(** [types.ShardingResult] *)
Record ShardingResult := {
  Shards : list string;
  Threshold : Z;
  TotalShares : Z
}.

Inductive Error :=
| ErrInvalidMnemonicPhrase
| ErrThresholdTooSmall
| ErrSharesBelowThreshold
| ErrSharesExceed255
| ErrTooFewShards
| ErrInvalidShardFormat (shard : string)
| ErrDecodeShard
| ErrNoValidShards
| ErrShardLength (i : nat) (expected got : Z)
| ErrReconstructedInvalid.

Inductive result (A : Type) :=
| Ok (a : A)
| Err (e : Error).
Arguments Ok {A} a.
Arguments Err {A} e.

Definition strlen (s : string) : Z := Z.of_nat (String.length s).

(** *** encoding/hex *)

Definition hextable : string := "0123456789abcdef".

(** [hextable[n]]; the index is a nibble, so always below 16. *)
Definition hexDigit (n : N) : Ascii.ascii :=
  match String.get (N.to_nat n) hextable with
  | Some c => c
  | None => Ascii.zero
  end.

(** [hex.EncodeToString]: [hextable[v>>4]] then [hextable[v&0x0f]]. *)
Fixpoint hex_EncodeToString (src : string) : string :=
  match src with
  | EmptyString => EmptyString
  | String v rest =>
      String (hexDigit (N.shiftr (Ascii.N_of_ascii v) 4))
        (String (hexDigit (N.land (Ascii.N_of_ascii v) 15)) (hex_EncodeToString rest))
  end.

(** The reverse table of [encoding/hex]: both cases of the letters. *)
Definition fromHexChar (c : Ascii.ascii) : option N :=
  let n := Ascii.N_of_ascii c in
  if (48 <=? n)%N && (n <=? 57)%N then Some (n - 48)%N
  else if (97 <=? n)%N && (n <=? 102)%N then Some (n - 97 + 10)%N
  else if (65 <=? n)%N && (n <=? 70)%N then Some (n - 65 + 10)%N
  else None.

(** [hex.DecodeString]; [None] is a returned error (an invalid byte, or an
    odd length). *)
Fixpoint hex_DecodeString (s : string) : option string :=
  match s with
  | EmptyString => Some EmptyString
  | String p EmptyString => None
  | String p (String q rest) =>
      match fromHexChar p, fromHexChar q with
      | Some a, Some b =>
          match hex_DecodeString rest with
          | Some dst => Some (String (Ascii.ascii_of_N (N.lor (N.shiftl a 4) b)) dst)
          | None => None
          end
      | _, _ => None
      end
  end.

(** *** The manager *)

Definition validateShard (shard : string) : bool :=
  if negb (strlen shard mod 2 =? 0) then false
  else match hex_DecodeString shard with
       | Some _ => true
       | None => false
       end.

Definition ValidateShard (shard : string) : bool := validateShard shard.

Section Manager.

(** [bip39.IsMnemonicValid] *)
Variable IsMnemonicValid : string -> bool.

(** [mnemonic.Validate]; [true] for a [nil] error. *)
Definition Validate (mnemonic : string) : bool := IsMnemonicValid mnemonic.

Definition SplitMnemonic (mnemonicPhrase : string) (threshold shares : Z)
    : result ShardingResult :=
  if negb (Validate mnemonicPhrase) then Err ErrInvalidMnemonicPhrase else
  let threshold := if threshold =? 0 then 2 else threshold in
  let shares := if shares =? 0 then 3 else shares in
  if threshold <? 2 then Err ErrThresholdTooSmall else
  if shares <? threshold then Err ErrSharesBelowThreshold else
  if 255 <? shares then Err ErrSharesExceed255 else
  let mnemonicBytes := mnemonicPhrase in
  let shardStrings := replicate (Z.to_nat shares) (hex_EncodeToString mnemonicBytes) in
  Ok {| Shards := shardStrings; Threshold := threshold; TotalShares := shares |}.

(** The decoding loop of [CombineShards]. *)
Fixpoint decodeShards (shards : list string) : result (list string) :=
  match shards with
  | [] => Ok []
  | shard :: rest =>
      if negb (validateShard shard) then Err (ErrInvalidShardFormat shard) else
      match hex_DecodeString shard with
      | None => Err ErrDecodeShard
      | Some data =>
          match decodeShards rest with
          | Err e => Err e
          | Ok shareData => Ok (data :: shareData)
          end
      end
  end.

(** The length check of [CombineShards], from index [i] on. *)
Fixpoint checkLengths (i : nat) (expectedLength : Z) (shareData : list string)
    : option Error :=
  match shareData with
  | [] => None
  | data :: rest =>
      if negb (strlen data =? expectedLength)
      then Some (ErrShardLength i expectedLength (strlen data))
      else checkLengths (S i) expectedLength rest
  end.

Definition CombineShards (shards : list string) : result string :=
  if len shards <? 2 then Err ErrTooFewShards else
  match decodeShards shards with
  | Err e => Err e
  | Ok shareData =>
      match shareData with
      | [] => Err ErrNoValidShards
      | first :: _ =>
          let expectedLength := strlen first in
          match checkLengths 0 expectedLength shareData with
          | Some e => Err e
          | None =>
              let mnemonicPhrase := first in
              if negb (Validate mnemonicPhrase) then Err ErrReconstructedInvalid
              else Ok mnemonicPhrase
          end
      end
  end.

End Manager.

End sharding.

(** ** package transaction: sending

    [SignAndSendTransaction] and what it calls after [BuildTransaction]. *)

Module sending.

Import types utxo manager transaction.

(** [types.TransactionOutput] *)
Record TransactionOutput := {
  to_Address : string;
  to_Amount : Z;
  to_ScriptPubKey : string;
  to_IsData : bool;
  to_Data : string
}.

(** [types.TransactionResult] *)
Record TransactionResult := {
  SignedTx : string;
  res_TxID : string;
  Fee : Z;
  Change : Z;
  res_ExplorerURL : string;
  InputsUsed : list UTXO;
  OutputsCreated : list TransactionOutput;
  res_TokenTransfers : list TokenTransfer;
  res_DataOutputs : list DataOutput
}.

(** What sending uses of btcd and of the network, and the language
    version the module is built with. *)
Record Wire := {
  (** [tx.Serialize(&buf)]; [None] is a returned error *)
  Serialize : MsgTx -> option Bytes;
  (** [tx.TxHash().String()] *)
  TxHashString : MsgTx -> string;
  (** the POST of [broadcastTransaction] at each interaction: [true] when
      the request is made, answered, and answered with status 200 *)
  broadcast_api : nat -> string -> Bytes -> bool;
  (** [true] from Go 1.22 on, where each iteration of a [for range] loop
      has its own variable; [false] before, where [&utxo] is the same
      pointer in every iteration *)
  loopVarPerIteration : bool
}.

Inductive Error :=
| ErrBuild (cause : transaction.Error)
| ErrSerialize
| ErrBroadcast.

Inductive result (A : Type) :=
| Ok (a : A)
| Err (e : Error).
Arguments Ok {A} a.
Arguments Err {A} e.

(** [hex.EncodeToString] of a byte slice. *)
Definition hexOfBytes (b : Bytes) : string :=
  sharding.hex_EncodeToString (String.string_of_list_byte b).

Section Sender.

Variable L : Lib.
Variable E : Env.
Variable W : Wire.

Definition broadcastTransaction (txBytes : Bytes) : M bool :=
  networkConfig <- GetNetworkConfig ;;
  let url := config.RPCURL networkConfig +:+ "/tx/raw" in
  logEvent (EvRequest url) ;;;
  fun w => (broadcast_api W (steps w) url txBytes, tick w).

(** The pointers [&utxo] collected by the loop over the selection. *)
Definition pointersTo (selectedUTXOs : list UTXO) : list UTXO :=
  if loopVarPerIteration W then selectedUTXOs
  else match last selectedUTXOs with
       | Some utxo => replicate (length selectedUTXOs) utxo
       | None => []
       end.

Definition calculateTransactionResult (tx : MsgTx) (params : TransactionParams)
    (txID : string) (txBytes : Bytes) : M TransactionResult :=
  networkConfig <- GetNetworkConfig ;;
  r <- SelectUTXOs E (From params) (Amount params) (FeeRate params) ;;
  let selectedUTXOs := match r with
                       | utxo.Ok (selectedUTXOs, _) => selectedUTXOs
                       | utxo.Err _ => []
                       end in
  let inputsUsed := match r with
                    | utxo.Ok _ => pointersTo selectedUTXOs
                    | utxo.Err _ => []
                    end in
  let outputsCreated :=
    map (fun txOut => {| to_Address := ""; to_Amount := out_Value txOut;
                         to_ScriptPubKey := hexOfBytes (PkScript txOut);
                         to_IsData := false; to_Data := "" |}) (msg_TxOut tx) in
  let totalInput := totalInputLoop selectedUTXOs 0 in
  let fee := sub64 totalInput (Amount params) in
  let '(fee, change) :=
    match msg_TxOut tx with
    | _ :: second :: _ =>
        (sub64 (sub64 totalInput (Amount params)) (out_Value second), out_Value second)
    | _ => (fee, 0)
    end in
  let explorerURL := config.ExplorerURL networkConfig +:+ "/tx/" +:+ txID in
  ret {| SignedTx := hexOfBytes txBytes; res_TxID := txID; Fee := fee; Change := change;
         res_ExplorerURL := explorerURL; InputsUsed := inputsUsed;
         OutputsCreated := outputsCreated;
         res_TokenTransfers := TokenTransfers params;
         res_DataOutputs := DataOutputs params |}.

(** [SignAndSendTransaction]; [params] is a pointer, so what follows the
    build sees the parameters as [BuildTransaction] left them. *)
Definition SignAndSendTransaction (params : TransactionParams)
    : M (result TransactionResult) :=
  built <- BuildTransaction L E params ;;
  match built with
  | (transaction.Err err, _) => ret (Err (ErrBuild err))
  | (transaction.Ok tx, params) =>
      match Serialize W tx with
      | None => ret (Err ErrSerialize)
      | Some txBytes =>
          let txID := TxHashString W tx in
          sent <- broadcastTransaction txBytes ;;
          if negb sent then ret (Err ErrBroadcast) else
          r <- calculateTransactionResult tx params txID txBytes ;;
          ret (Ok r)
      end
  end.

End Sender.

End sending.

(** ** Scenarios

    Concrete outputs, remote answers and states on which the operations are
    evaluated below. *)

Module scenarios.

Import types utxo manager.

Definition addr : string := "mqVKYrNJSmJNQNnQpqNk5XnxSc4iXTJmkt".

(** An answer of the remote service for one output of [addr]. *)
Definition response (txid : string) (value confirmations : Z) : EnhancedUTXOResponse :=
  {| r_TxID := txid; r_Vout := 0; r_Value := value; r_ScriptPubKey := "76a914";
     r_Address := addr; r_Confirmations := confirmations; r_Height := 800000 |}.

(** A remote service that always answers [unspent] with the same list and
    a clock that advances by [dt] nanoseconds per reading from [t0]. *)
Definition env (unspent : list EnhancedUTXOResponse) (t0 dt : Z) : Env :=
  {| clock := fun n => t0 + Z.of_nat n * dt;
     unspent_api := fun _ _ => Some unspent;
     balance_api := fun _ _ => Some {| r_Confirmed := 0; r_Unconfirmed := 0 |} |}.

Definition fresh : World := NewManager config.getDefaultConfig.

(** The three outputs of the selection scenario, as the service lists
    them. *)
Definition threeOutputs : list EnhancedUTXOResponse :=
  [response "a1" 30000 6; response "b2" 50000 6; response "c3" 5000 6].

End scenarios.

(** * Properties *)

(** ** Wrap-around arithmetic *)

Lemma wrap64_fits z : fits64 z -> wrap64 z = z.
Proof.
  unfold fits64, wrap64. intros Hz.
  rewrite Z.mod_small by lia. lia.
Qed.

Lemma wrap64_range z : fits64 (wrap64 z).
Proof.
  unfold fits64, wrap64.
  pose proof (Z.mod_pos_bound (z + 2 ^ 63) (2 ^ 64) ltac:(lia)). lia.
Qed.

Lemma wrap64_mod z : wrap64 z mod 2 ^ 64 = z mod 2 ^ 64.
Proof.
  unfold wrap64.
  rewrite <- Zminus_mod_idemp_l, Z.mod_mod by lia.
  rewrite Zminus_mod_idemp_l. f_equal. lia.
Qed.

Lemma wrap64_cong x y : x mod 2 ^ 64 = y mod 2 ^ 64 -> wrap64 x = wrap64 y.
Proof.
  unfold wrap64. intros H.
  rewrite <- (Zplus_mod_idemp_l x), <- (Zplus_mod_idemp_l y), H. reflexivity.
Qed.

Lemma wrap64_idem z : wrap64 (wrap64 z) = wrap64 z.
Proof. apply wrap64_cong, wrap64_mod. Qed.

Lemma wrap64_add_l a b : wrap64 (wrap64 a + b) = wrap64 (a + b).
Proof.
  apply wrap64_cong.
  rewrite <- Zplus_mod_idemp_l, wrap64_mod, Zplus_mod_idemp_l. reflexivity.
Qed.

Lemma wrap64_add_r a b : wrap64 (a + wrap64 b) = wrap64 (a + b).
Proof. rewrite Z.add_comm, wrap64_add_l. f_equal. lia. Qed.

Lemma wrap64_sub_l a b : wrap64 (wrap64 a - b) = wrap64 (a - b).
Proof. apply (wrap64_add_l a (- b)). Qed.

Lemma wrap64_mul_l a b : wrap64 (wrap64 a * b) = wrap64 (a * b).
Proof.
  apply wrap64_cong.
  rewrite <- Zmult_mod_idemp_l, wrap64_mod, Zmult_mod_idemp_l. reflexivity.
Qed.

(** From here on [wrap64] is only used through the lemmas above. *)
#[global] Opaque wrap64.

Lemma len_app {A} (l1 l2 : list A) : len (l1 ++ l2) = len l1 + len l2.
Proof. unfold len. rewrite length_app. lia. Qed.

Lemma len_nonneg {A} (l : list A) : 0 <= len l.
Proof. unfold len. lia. Qed.

Module ManagerProofs.

Import types utxo manager.

(** *** Sums and the size estimate *)

Lemma sumValues_app l1 l2 : sumValues (l1 ++ l2) = sumValues l1 + sumValues l2.
Proof. induction l1 as [|u l1 IH]; simpl; lia. Qed.

Lemma sumValues_nonneg l : Forall (fun u => 0 <= Value u) l -> 0 <= sumValues l.
Proof. induction 1; simpl; lia. Qed.

Lemma sumValues_take_le l k :
  Forall (fun u => 0 <= Value u) l -> sumValues (take k l) <= sumValues l.
Proof.
  intros H. rewrite <- (take_drop k l) at 2. rewrite sumValues_app.
  assert (0 <= sumValues (drop k l)); [|lia].
  apply sumValues_nonneg, Forall_drop, H.
Qed.

Lemma sumValues_perm l1 l2 : Permutation l1 l2 -> sumValues l1 = sumValues l2.
Proof. induction 1; simpl; lia. Qed.

(** The size estimate, without wrap-around, is [78 + 148 n]. *)
Lemma estimatedSize_wrap n : estimatedSize n = wrap64 (10 + n * 148 + 34 + 34).
Proof.
  unfold estimatedSize, add64, mul64.
  rewrite !wrap64_add_l, <- !Z.add_assoc, wrap64_add_r, wrap64_add_l.
  f_equal. lia.
Qed.

Lemma feeFor_wrap n r : feeFor n r = wrap64 ((10 + n * 148 + 34 + 34) * r).
Proof. unfold feeFor, mul64. rewrite estimatedSize_wrap, wrap64_mul_l. reflexivity. Qed.

Lemma totalInputLoop_wrap l t :
  wrap64 (totalInputLoop l t) = wrap64 (t + sumValues l).
Proof.
  revert t. induction l as [|u l IH]; intros t; simpl.
  - f_equal. lia.
  - rewrite IH. unfold add64. rewrite wrap64_add_l. f_equal. lia.
Qed.

Lemma CalculateChange_wrap txConfig sel amount fee :
  CalculateChange txConfig sel amount fee =
    let change := wrap64 (sumValues sel - amount - fee) in
    if config.DustLimit txConfig <? change then (change, true) else (0, false).
Proof.
  unfold CalculateChange, sub64. cbv zeta.
  assert (wrap64 (wrap64 (totalInputLoop sel 0 - amount) - fee)
          = wrap64 (sumValues sel - amount - fee)) as ->; [|reflexivity].
  rewrite wrap64_sub_l.
  replace (totalInputLoop sel 0 - amount - fee)
    with (totalInputLoop sel 0 + (- amount - fee)) by lia.
  rewrite <- wrap64_add_l, totalInputLoop_wrap, wrap64_add_l. f_equal. lia.
Qed.

(** C10. [CalculateChange] returns [(V - A - F, true)] when [V - A - F] is
    strictly above the dust limit and [(0, false)] otherwise, [V] being
    the sum of the values of the selected outputs; it has no error result,
    and with a dust limit that is not negative an underfunded input set
    ([V < A + F]) yields [(0, false)].  [V - A - F] is assumed to be
    representable as an [int64]; intermediate sums may wrap. *)
Theorem CalculateChange_above_dust_or_none txConfig sel amount fee :
  fits64 (sumValues sel - amount - fee) ->
  CalculateChange txConfig sel amount fee =
    (if decide (config.DustLimit txConfig < sumValues sel - amount - fee)
     then (sumValues sel - amount - fee, true) else (0, false))
  /\ (0 <= config.DustLimit txConfig -> sumValues sel < amount + fee ->
      CalculateChange txConfig sel amount fee = (0, false)).
Proof.
  intros Hfit. rewrite CalculateChange_wrap. cbv zeta.
  rewrite (wrap64_fits _ Hfit).
  split.
  - destruct (Z.ltb_spec (config.DustLimit txConfig) (sumValues sel - amount - fee));
      case_decide; try reflexivity; lia.
  - intros Hdust Hunder.
    destruct (Z.ltb_spec (config.DustLimit txConfig) (sumValues sel - amount - fee));
      [lia | reflexivity].
Qed.

(** *** The bubble sorts sort *)

Definition Descending (key : UTXO -> Z) : list UTXO -> Prop :=
  StronglySorted (fun a b => key b <= key a).

Section Bubble.

Variable key : UTXO -> Z.

Lemma bubble_perm n l : Permutation (bubble key n l) l.
Proof.
  revert l. induction n as [|n IH]; intros l; [destruct l; reflexivity|].
  destruct l as [|x [|y t]]; simpl; try reflexivity.
  destruct (key x <? key y).
  - rewrite IH. apply perm_swap.
  - rewrite IH. reflexivity.
Qed.

(** A pass of [n] steps leaves everything after index [n] alone. *)
Lemma bubble_app n a b :
  length a = S n -> bubble key n (a ++ b) = bubble key n a ++ b.
Proof.
  revert a. induction n as [|n IH]; intros a Hlen.
  - destruct a as [|x [|y t]]; simpl in *; try discriminate. destruct b; reflexivity.
  - destruct a as [|x [|y t]]; simpl in *; try discriminate.
    destruct (key x <? key y); simpl; f_equal; apply (IH (_ :: t)); simpl; lia.
Qed.

(** A pass over the whole of [a] moves a least element to its end. *)
Lemma bubble_last n a :
  length a = S n ->
  exists a' m, bubble key n a = a' ++ [m] /\ length a' = n /\
               Forall (fun x => key m <= key x) a.
Proof.
  revert a. induction n as [|n IH]; intros a Hlen.
  - destruct a as [|x [|y t]]; simpl in *; try discriminate.
    exists [], x. repeat split. constructor; [lia | constructor].
  - destruct a as [|x [|y t]]; simpl in *; try discriminate.
    destruct (Z.ltb_spec (key x) (key y)) as [Hlt|Hge].
    + destruct (IH (x :: t)) as (a' & m & Heq & Hl & Hall); [simpl; lia|].
      exists (y :: a'), m. rewrite Heq. repeat split; [simpl; lia|].
      inversion Hall; subst. repeat constructor; try assumption; lia.
    + destruct (IH (y :: t)) as (a' & m & Heq & Hl & Hall); [simpl; lia|].
      exists (x :: a'), m. rewrite Heq. repeat split; [simpl; lia|].
      inversion Hall; subst. repeat constructor; try assumption; lia.
Qed.

Lemma passes_perm k l : Permutation (passes key k l) l.
Proof.
  revert l. induction k as [|k IH]; intros l; cbn [passes]; [reflexivity|].
  rewrite IH. apply bubble_perm.
Qed.

(** The loop invariant: the tail [b] is sorted and below the head [a],
    which the remaining passes still have to sort. *)
Lemma passes_sorted k a b :
  length a = S k ->
  Descending key b ->
  Forall (fun x => Forall (fun y => key y <= key x) b) a ->
  Descending key (passes key k (a ++ b)).
Proof.
  revert a b. induction k as [|k IH]; intros a b Hlen Hb Hab.
  - destruct a as [|x [|y t]]; simpl in *; try discriminate.
    inversion Hab; subst. constructor; assumption.
  - cbn [passes]. rewrite bubble_app by assumption.
    destruct (bubble_last (S k) a Hlen) as (a' & m & Heq & Hl & Hmin).
    rewrite Heq, <- app_assoc. simpl.
    assert (Hperm : Permutation (a' ++ [m]) a)
      by (rewrite <- Heq; apply bubble_perm).
    assert (Hab' : Forall (fun x => Forall (fun y => key y <= key x) b) (a' ++ [m]))
      by (rewrite Hperm; assumption).
    assert (Hmin' : Forall (fun x => key m <= key x) (a' ++ [m]))
      by (rewrite Hperm; assumption).
    apply Forall_app in Hab' as [Ha'b Hmb].
    apply Forall_app in Hmin' as [Hma' _].
    apply IH; [assumption| |].
    + constructor; [assumption|]. inversion Hmb; subst; assumption.
    + rewrite Forall_forall in Ha'b, Hma'. apply Forall_forall. intros x Hx.
      constructor; [apply Hma', Hx | apply Ha'b, Hx].
Qed.

Lemma bubbleSort_sorted l : Descending key (passes key (length l - 1) l).
Proof.
  destruct l as [|x t]; [constructor|].
  rewrite <- (app_nil_r (x :: t)) at 2.
  apply passes_sorted; [simpl; lia | constructor |].
  apply Forall_forall. intros; constructor.
Qed.

End Bubble.

Lemma sortUTXOsByValue_sorted l : Descending Value (sortUTXOsByValue l).
Proof. apply bubbleSort_sorted. Qed.

Lemma sortUTXOsByValue_perm l : Permutation (sortUTXOsByValue l) l.
Proof. apply passes_perm. Qed.

Lemma sortUTXOsByTokenAmount_perm l : Permutation (sortUTXOsByTokenAmount l) l.
Proof. apply passes_perm. Qed.

(** *** The accumulation loop of [SelectUTXOs] *)

Lemma filterAvailable_filter txConfig all acc :
  filterAvailable txConfig all acc =
    acc ++ List.filter (fun u => if IsNative u then config.IncludeNativeUTXOs txConfig
                                 else config.IncludeNonNativeUTXOs txConfig) all.
Proof.
  revert acc. induction all as [|u all IH]; intros acc; simpl.
  - symmetry; apply app_nil_r.
  - rewrite IH. destruct (IsNative u); simpl;
      [destruct (config.IncludeNativeUTXOs txConfig)
      |destruct (config.IncludeNonNativeUTXOs txConfig)];
      rewrite <- ?app_assoc; reflexivity.
Qed.

Lemma selectLoop_inl amount r rest : forall sel tot sel' fee,
  selectLoop amount r rest sel tot = inl (sel', fee) ->
  exists k : nat,
    (1 <= k <= length rest)%nat /\
    sel' = sel ++ take k rest /\
    fee = feeFor (len sel + Z.of_nat k) r /\
    add64 amount fee <= wrap64 (tot + sumValues (take k rest)) /\
    forall j : nat, (1 <= j < k)%nat ->
      wrap64 (tot + sumValues (take j rest))
        < add64 amount (feeFor (len sel + Z.of_nat j) r).
Proof.
  induction rest as [|u rest IH]; intros sel tot sel' fee H; simpl in H; [discriminate|].
  assert (Hone : wrap64 (tot + sumValues (take 1 (u :: rest))) = add64 tot (Value u)).
  { simpl. rewrite Z.add_0_r. reflexivity. }
  destruct (Z.leb_spec (add64 amount (mul64 (estimatedSize (len (sel ++ [u]))) r))
              (add64 tot (Value u))) as [Hok|Hfail];
    rewrite len_app in *; change (len [u]) with 1 in *.
  - inversion H; subst; clear H. exists 1%nat.
    split; [simpl; lia|]. split; [reflexivity|].
    split; [unfold feeFor; do 2 f_equal; lia|].
    split; [rewrite Hone; exact Hok | intros j Hj; lia].
  - apply IH in H as (k & Hk & Hsel & Hfee & Hcheck & Hmin).
    rewrite len_app in *. change (len [u]) with 1 in *.
    assert (Hidx : forall i : nat, len sel + 1 + Z.of_nat i = len sel + Z.of_nat (S i))
      by (intros; lia).
    assert (Hsum : forall i : nat,
              wrap64 (add64 tot (Value u) + sumValues (take i rest))
              = wrap64 (tot + sumValues (take (S i) (u :: rest)))).
    { intros i. unfold add64. rewrite wrap64_add_l. simpl. f_equal. lia. }
    rewrite Hidx in Hfee. rewrite Hsum in Hcheck.
    exists (S k).
    split; [simpl; lia|].
    split; [rewrite Hsel, <- app_assoc; reflexivity|].
    split; [exact Hfee|]. split; [exact Hcheck|].
    intros [|[|j]] Hj; [lia| |].
    + rewrite Hone. exact Hfail.
    + rewrite <- Hsum, <- Hidx. apply Hmin. lia.
Qed.

Lemma selectLoop_inr amount r rest : forall sel tot total,
  wrap64 tot = tot ->
  selectLoop amount r rest sel tot = inr total ->
  total = wrap64 (tot + sumValues rest) /\
  forall j : nat, (1 <= j <= length rest)%nat ->
    wrap64 (tot + sumValues (take j rest))
      < add64 amount (feeFor (len sel + Z.of_nat j) r).
Proof.
  induction rest as [|u rest IH]; intros sel tot total Htot H; simpl in H.
  - inversion H; subst. simpl. rewrite Z.add_0_r.
    split; [congruence | intros; lia].
  - assert (Hone : wrap64 (tot + sumValues (take 1 (u :: rest))) = add64 tot (Value u)).
    { simpl. rewrite Z.add_0_r. reflexivity. }
    destruct (Z.leb_spec (add64 amount (mul64 (estimatedSize (len (sel ++ [u]))) r))
                (add64 tot (Value u))) as [Hok|Hfail]; [discriminate|].
    apply IH in H as (Htotal & Hfailing); [|apply wrap64_idem].
    rewrite len_app in *. change (len [u]) with 1 in *.
    assert (Hsum : forall l, wrap64 (add64 tot (Value u) + sumValues l)
                             = wrap64 (tot + (Value u + sumValues l))).
    { intros l. unfold add64. rewrite wrap64_add_l. f_equal. lia. }
    rewrite Hsum in Htotal. split; [exact Htotal|].
    intros [|[|j]] Hj; [lia| |].
    + rewrite Hone. exact Hfail.
    + change (sumValues (take (S (S j)) (u :: rest)))
        with (Value u + sumValues (take (S j) rest)).
      rewrite <- Hsum.
      replace (len sel + Z.of_nat (S (S j))) with (len sel + 1 + Z.of_nat (S j)) by lia.
      apply Hfailing. simpl in Hj. lia.
Qed.

(** *** [SelectUTXOs] *)

(** The fee rate the accumulation loop works with. *)
Definition effectiveFeeRate (txConfig : config.TransactionConfig) (feeRate : Z) : Z :=
  if feeRate <? config.MinFeeRate txConfig then config.DefaultFeeRate txConfig else feeRate.

(** The state in which [SelectUTXOs] fetches the outputs. *)
Definition atFetch (address : string) (amount feeRate : Z) (w : World) : World :=
  snd (logEvent (EvSelectUTXOs address amount feeRate) w).

Lemma SelectUTXOs_unfold E address amount feeRate w :
  SelectUTXOs E address amount feeRate w =
    match GetUTXOs E address (atFetch address amount feeRate w) with
    | (Err e, w1) => (Err e, w1)
    | (Ok allUTXOs, w1) =>
        (selectFrom (config.Transaction (cfg w)) address allUTXOs amount feeRate, w1)
    end.
Proof.
  unfold SelectUTXOs, atFetch, bind, GetTransactionConfig, logEvent, ret. simpl.
  destruct (GetUTXOs E address _) as [[all|e] w1]; reflexivity.
Qed.

Lemma selectFrom_Ok txConfig address all amount feeRate sel fee :
  selectFrom txConfig address all amount feeRate = Ok (sel, fee) ->
  selectLoop amount (effectiveFeeRate txConfig feeRate)
    (sortUTXOsByValue (filterAvailable txConfig all [])) [] 0 = inl (sel, fee).
Proof.
  unfold selectFrom, effectiveFeeRate.
  repeat case_match; intros; simplify_eq; reflexivity.
Qed.

Lemma len_eqb_0 {A} (l : list A) : (len l =? 0) = match l with [] => true | _ => false end.
Proof. destruct l; [reflexivity|]. unfold len. simpl length. apply Z.eqb_neq. lia. Qed.

Lemma filterAvailable_nil txConfig : filterAvailable txConfig [] [] = [].
Proof. reflexivity. Qed.

(** Past the two emptiness checks, [SelectUTXOs] is the fee-rate check
    followed by the accumulation loop. *)
Lemma selectFrom_candidates txConfig address all amount feeRate :
  filterAvailable txConfig all [] <> [] ->
  selectFrom txConfig address all amount feeRate =
    let sorted := sortUTXOsByValue (filterAvailable txConfig all []) in
    let rate := effectiveFeeRate txConfig feeRate in
    if config.MaxFeeRate txConfig <? rate
    then Err (ErrFeeRateExceedsMax rate (config.MaxFeeRate txConfig))
    else match selectLoop amount rate sorted [] 0 with
         | inl (sel, fee) => Ok (sel, fee)
         | inr total =>
             Err (ErrInsufficientFunds (add64 amount (feeFor (len sorted) feeRate)) total)
         end.
Proof.
  intros Hne. unfold selectFrom, effectiveFeeRate.
  rewrite !len_eqb_0.
  destruct all as [|u all]; [contradiction|].
  destruct (filterAvailable txConfig (u :: all) []) eqn:Hf; [contradiction|].
  reflexivity.
Qed.

Lemma sortUTXOsByValue_len l : len (sortUTXOsByValue l) = len l.
Proof. unfold len. rewrite (Permutation_length (sortUTXOsByValue_perm l)). reflexivity. Qed.

(** Past the emptiness checks and the fee-rate check, [SelectUTXOs] is
    the accumulation loop at the effective rate. *)
Lemma SelectUTXOs_loop E address amount feeRate w allUTXOs w1 :
  let txConfig := config.Transaction (cfg w) in
  let rate := effectiveFeeRate txConfig feeRate in
  let sorted := sortUTXOsByValue (filterAvailable txConfig allUTXOs []) in
  GetUTXOs E address (atFetch address amount feeRate w) = (Ok allUTXOs, w1) ->
  filterAvailable txConfig allUTXOs [] <> [] ->
  rate <= config.MaxFeeRate txConfig ->
  SelectUTXOs E address amount feeRate w =
    (match selectLoop amount rate sorted [] 0 with
     | inl (sel, fee) => Ok (sel, fee)
     | inr total =>
         Err (ErrInsufficientFunds (add64 amount (feeFor (len sorted) feeRate)) total)
     end, w1).
Proof.
  intros txConfig rate sorted Hfetch Hne Hmax.
  rewrite SelectUTXOs_unfold, Hfetch, selectFrom_candidates by exact Hne.
  cbv zeta. fold txConfig rate sorted.
  destruct (Z.ltb_spec (config.MaxFeeRate txConfig) rate); [lia | reflexivity].
Qed.

(** C1. [SelectUTXOs] returns the first funded prefix of the candidates
    sorted by descending value, a prefix of [k] outputs being funded when
    its total covers the amount plus the fee [(10 + 148 k + 34 + 34) *
    rate] of its own length.  Once the call is past its checks (some
    output passes the inclusion filter, the rate is not above the
    maximum): whenever some prefix is funded the call succeeds, and it
    returns exactly the shortest funded prefix together with the fee of
    that length; when no prefix is funded it fails with the
    insufficient-funds error.  Whatever the call returns is such a prefix:
    the returned total is at least amount + fee, no shorter prefix is
    funded, and in particular dropping the last-added input (fee
    recomputed for [k - 1] inputs) breaks the inequality.  The rate is the
    supplied one, or the default when the supplied one is below the
    minimum.  Amounts are those of the data model (positive amount, values
    and rate not negative) and small enough for 64-bit arithmetic not to
    overflow. *)
Theorem SelectUTXOs_greedy_prefix E address amount feeRate w allUTXOs w1 :
  let txConfig := config.Transaction (cfg w) in
  let rate := effectiveFeeRate txConfig feeRate in
  let candidates := filterAvailable txConfig allUTXOs [] in
  let sorted := sortUTXOsByValue candidates in
  let fee (k : nat) := (10 + 148 * Z.of_nat k + 34 + 34) * rate in
  let funded (k : nat) := amount + fee k <= sumValues (take k sorted) in
  GetUTXOs E address (atFetch address amount feeRate w) = (Ok allUTXOs, w1) ->
  0 < amount ->
  0 <= rate ->
  Forall (fun u => 0 <= Value u) candidates ->
  sumValues candidates <= max_int64 ->
  amount + (10 + 148 * len candidates + 34 + 34) * rate <= max_int64 ->
  Descending Value sorted /\ Permutation sorted candidates
  /\ (candidates <> [] -> rate <= config.MaxFeeRate txConfig ->
      forall k : nat, (1 <= k <= length sorted)%nat -> funded k ->
        (forall j : nat, (1 <= j < k)%nat -> ~ funded j) ->
        SelectUTXOs E address amount feeRate w = (Ok (take k sorted, fee k), w1))
  /\ (candidates <> [] -> rate <= config.MaxFeeRate txConfig ->
      (exists k : nat, (1 <= k <= length sorted)%nat /\ funded k) ->
      exists sel fee', fst (SelectUTXOs E address amount feeRate w) = Ok (sel, fee'))
  /\ (candidates <> [] -> rate <= config.MaxFeeRate txConfig ->
      (forall k : nat, (1 <= k <= length sorted)%nat -> ~ funded k) ->
      exists need,
        fst (SelectUTXOs E address amount feeRate w)
        = Err (ErrInsufficientFunds need (sumValues candidates)))
  /\ (forall sel fee',
        fst (SelectUTXOs E address amount feeRate w) = Ok (sel, fee') ->
        exists k : nat,
          (1 <= k <= length sorted)%nat /\
          sel = take k sorted /\
          fee' = fee k /\
          amount + fee' <= sumValues sel /\
          (forall j : nat, (j < k)%nat ->
             sumValues (take j sorted) < amount + fee j) /\
          sumValues (take (k - 1) sorted) < amount + fee (k - 1)%nat).
Proof.
  intros txConfig rate candidates sorted fee funded Hfetch Hamt Hrate Hvals Htot Hneed.
  assert (Hperm : Permutation sorted candidates) by apply sortUTXOsByValue_perm.
  assert (Hlen : length sorted = length candidates) by (rewrite Hperm; reflexivity).
  assert (Hvals' : Forall (fun u => 0 <= Value u) sorted) by (rewrite Hperm; exact Hvals).
  (* nothing wraps on prefixes of the sorted candidates *)
  assert (Hsum : forall j, wrap64 (0 + sumValues (take j sorted)) = sumValues (take j sorted)).
  { intros j. apply wrap64_fits.
    pose proof (sumValues_take_le sorted j Hvals').
    pose proof (sumValues_nonneg (take j sorted) (Forall_take _ j _ Hvals')).
    rewrite (sumValues_perm _ _ Hperm) in H. unfold fits64, max_int64 in *. lia. }
  assert (Hfees : forall j : nat, (j <= length sorted)%nat ->
            feeFor (len (@nil UTXO) + Z.of_nat j) rate = fee j
            /\ add64 amount (feeFor (len (@nil UTXO) + Z.of_nat j) rate) = amount + fee j).
  { intros j Hj. unfold fee. change (len (@nil UTXO)) with 0. rewrite feeFor_wrap.
    unfold add64.
    assert (0 <= (10 + 148 * Z.of_nat j + 34 + 34) * rate
            <= (10 + 148 * len candidates + 34 + 34) * rate) as Hb.
    { unfold len. rewrite <- Hlen. nia. }
    replace (10 + (0 + Z.of_nat j) * 148 + 34 + 34)
      with (10 + 148 * Z.of_nat j + 34 + 34) by lia.
    rewrite (wrap64_fits ((10 + 148 * Z.of_nat j + 34 + 34) * rate))
      by (unfold fits64, max_int64 in *; lia).
    split; [reflexivity|]. apply wrap64_fits. unfold fits64, max_int64 in *. lia. }
  (* the check of the loop at a prefix is the funding condition *)
  assert (Hcheck : forall j : nat, (j <= length sorted)%nat ->
            (add64 amount (feeFor (len (@nil UTXO) + Z.of_nat j) rate)
               <= wrap64 (0 + sumValues (take j sorted)) <-> funded j)
            /\ (wrap64 (0 + sumValues (take j sorted))
                  < add64 amount (feeFor (len (@nil UTXO) + Z.of_nat j) rate) <-> ~ funded j)).
  { intros j Hj. destruct (Hfees j Hj) as [_ ->]. rewrite Hsum. unfold funded. lia. }
  (* what a successful loop returns *)
  assert (Hinl : forall sel fee',
            selectLoop amount rate sorted [] 0 = inl (sel, fee') ->
            exists k : nat,
              (1 <= k <= length sorted)%nat /\ sel = take k sorted /\ fee' = fee k
              /\ funded k /\ forall j : nat, (1 <= j < k)%nat -> ~ funded j).
  { intros sel fee' Hloop.
    apply selectLoop_inl in Hloop as (k & Hk & Hs & Hfee & Hok & Hmin).
    exists k. split; [exact Hk|]. split; [exact Hs|].
    split; [rewrite Hfee; apply Hfees; lia|].
    split; [apply (Hcheck k); [lia | rewrite <- Hfee; exact Hok]|].
    intros j Hj. apply (Hcheck j); [lia | apply Hmin, Hj]. }
  (* what a loop that runs to its end has seen *)
  assert (Hinr : forall total,
            selectLoop amount rate sorted [] 0 = inr total ->
            total = sumValues candidates
            /\ forall j : nat, (1 <= j <= length sorted)%nat -> ~ funded j).
  { intros total Hloop.
    apply selectLoop_inr in Hloop as [Htotal Hfail]; [|reflexivity].
    split.
    - rewrite Htotal, <- (firstn_all sorted), Hsum, firstn_all.
      apply sumValues_perm, Hperm.
    - intros j Hj. apply (Hcheck j); [lia | apply Hfail, Hj]. }
  split; [apply sortUTXOsByValue_sorted|]. split; [exact Hperm|].
  split; [|split; [|split]].
  - intros Hne Hmax k Hk Hfunded Hfirst.
    rewrite (SelectUTXOs_loop E address amount feeRate w allUTXOs w1 Hfetch Hne Hmax).
    fold txConfig rate candidates sorted.
    destruct (selectLoop amount rate sorted [] 0) as [[sel fee']|total] eqn:Hloop.
    + destruct (Hinl sel fee' eq_refl) as (k' & Hk' & -> & -> & Hfunded' & Hfirst').
      assert (k' = k) as ->; [|reflexivity].
      destruct (Nat.lt_trichotomy k' k) as [Hlt|[Heq|Hgt]]; [|exact Heq|].
      * exfalso. apply (Hfirst k'); [lia | exact Hfunded'].
      * exfalso. apply (Hfirst' k); [lia | exact Hfunded].
    + exfalso. destruct (Hinr total eq_refl) as [_ Hnone]. apply (Hnone k Hk Hfunded).
  - intros Hne Hmax (k & Hk & Hfunded).
    rewrite (SelectUTXOs_loop E address amount feeRate w allUTXOs w1 Hfetch Hne Hmax).
    fold txConfig rate candidates sorted.
    destruct (selectLoop amount rate sorted [] 0) as [[sel fee']|total] eqn:Hloop;
      [simpl; eauto|].
    exfalso. destruct (Hinr total eq_refl) as [_ Hnone]. apply (Hnone k Hk Hfunded).
  - intros Hne Hmax Hnone.
    rewrite (SelectUTXOs_loop E address amount feeRate w allUTXOs w1 Hfetch Hne Hmax).
    fold txConfig rate candidates sorted.
    destruct (selectLoop amount rate sorted [] 0) as [[sel fee']|total] eqn:Hloop.
    + exfalso. destruct (Hinl sel fee' eq_refl) as (k' & Hk' & _ & _ & Hfunded' & _).
      apply (Hnone k' Hk' Hfunded').
    + destruct (Hinr total eq_refl) as [-> _]. simpl. eauto.
  - intros sel fee' Hsel.
    rewrite SelectUTXOs_unfold, Hfetch in Hsel. simpl in Hsel.
    apply selectFrom_Ok in Hsel. fold txConfig rate candidates sorted in Hsel.
    destruct (Hinl sel fee' Hsel) as (k & Hk & Hs & Hfee & Hfunded & Hfirst).
    assert (Hshort : forall j : nat, (j < k)%nat ->
              sumValues (take j sorted) < amount + fee j).
    { intros [|j] Hj.
      - unfold fee. simpl. nia.
      - specialize (Hfirst (S j) ltac:(lia)). unfold funded in Hfirst. lia. }
    exists k. split; [exact Hk|]. split; [exact Hs|]. split; [exact Hfee|].
    split; [rewrite Hs, Hfee; exact Hfunded|].
    split; [exact Hshort | apply Hshort; lia].
Qed.

(** The scenario of three outputs of 30,000, 50,000 and 5,000 and a
    request of 49,000 at rate 5: one input does not cover
    49,000 + 226 * 5, two inputs cover 49,000 + 374 * 5, so the call
    returns the outputs of 50,000 and 30,000 at fee 1,870. *)
Lemma SelectUTXOs_greedy_prefix_witness :
  let E := scenarios.env scenarios.threeOutputs 0 1 in
  fst (SelectUTXOs E scenarios.addr 49000 5 scenarios.fresh)
    = Ok (map toUTXO [scenarios.response "b2" 50000 6; scenarios.response "a1" 30000 6], 1870).
Proof.
  intros E.
  destruct (SelectUTXOs_greedy_prefix E scenarios.addr 49000 5 scenarios.fresh
              (map toUTXO scenarios.threeOutputs)
              (snd (GetUTXOs E scenarios.addr (atFetch scenarios.addr 49000 5 scenarios.fresh)))
              ltac:(vm_compute; reflexivity) ltac:(lia) ltac:(vm_compute; discriminate)
              ltac:(repeat constructor; vm_compute; discriminate)
              ltac:(vm_compute; discriminate) ltac:(vm_compute; discriminate))
    as (_ & _ & Hreturned & _).
  rewrite (Hreturned ltac:(vm_compute; discriminate) ltac:(vm_compute; discriminate) 2%nat).
  - vm_compute. reflexivity.
  - simpl. lia.
  - vm_compute. discriminate.
  - intros j Hj. assert (j = 1%nat) as -> by lia. vm_compute. intros H. apply H. reflexivity.
Defined.

(** One input of 2,000 for 1,000 at fee 226 leaves 774, above the dust
    limit of 546; one input of 100 is underfunded. *)
Lemma CalculateChange_above_dust_or_none_witness :
  let txConfig := config.getDefaultTransactionConfig in
  let utxo value := toUTXO (scenarios.response "a1" value 6) in
  CalculateChange txConfig [utxo 2000] 1000 226 = (774, true)
  /\ CalculateChange txConfig [utxo 100] 1000 226 = (0, false).
Proof.
  intros txConfig utxo. split.
  - destruct (CalculateChange_above_dust_or_none txConfig [utxo 2000] 1000 226) as [H _].
    + split; vm_compute; [discriminate | reflexivity].
    + rewrite H. reflexivity.
  - destruct (CalculateChange_above_dust_or_none txConfig [utxo 100] 1000 226) as [_ H].
    + split; vm_compute; [discriminate | reflexivity].
    + apply H; vm_compute; [discriminate | reflexivity].
Defined.

(** *** Fee-rate bounds and the insufficient-funds report *)

(** What the insufficient-funds error of [SelectUTXOs] reports, for any
    supplied rate: the total of all candidates, and the amount plus the
    fee of all candidates as inputs at the rate as supplied, while the
    funding checks that failed were made at the effective rate. *)
Lemma SelectUTXOs_insufficient_report E address amount feeRate w allUTXOs w1 need have :
  let txConfig := config.Transaction (cfg w) in
  let candidates := filterAvailable txConfig allUTXOs [] in
  let sorted := sortUTXOsByValue candidates in
  GetUTXOs E address (atFetch address amount feeRate w) = (Ok allUTXOs, w1) ->
  fst (SelectUTXOs E address amount feeRate w) = Err (ErrInsufficientFunds need have) ->
  have = wrap64 (sumValues candidates) /\
  need = add64 amount (feeFor (len candidates) feeRate) /\
  forall j : nat, (1 <= j <= length sorted)%nat ->
    wrap64 (sumValues (take j sorted))
      < add64 amount (feeFor (Z.of_nat j) (effectiveFeeRate txConfig feeRate)).
Proof.
  intros txConfig candidates sorted Hfetch Hres.
  rewrite SelectUTXOs_unfold, Hfetch in Hres. simpl in Hres.
  destruct (decide (candidates = [])) as [Hnil|Hne].
  - unfold selectFrom in Hres. fold txConfig candidates in Hres.
    rewrite Hnil in Hres. repeat case_match; discriminate.
  - rewrite selectFrom_candidates in Hres by exact Hne. cbv zeta in Hres.
    fold txConfig candidates sorted in Hres.
    destruct (_ <? _); [discriminate|].
    destruct (selectLoop _ _ _ _ _) as [[s f]|total] eqn:Hloop; [discriminate|].
    apply selectLoop_inr in Hloop as [Htotal Hfail]; [|reflexivity].
    inversion Hres; subst need have.
    split; [rewrite Htotal, Z.add_0_l; f_equal; apply sumValues_perm, sortUTXOsByValue_perm|].
    split; [unfold sorted; rewrite sortUTXOsByValue_len; reflexivity|].
    intros j Hj. specialize (Hfail j Hj).
    rewrite Z.add_0_l in Hfail. exact Hfail.
Qed.

(** C5. A single candidate of 1,500 against a request of 1,000 at the
    supplied rate 0: the rate is below the minimum, so the funding check
    is made at the default rate 5 (fee 1,130) and fails, yet the error
    reports a needed amount of 1,000, the fee being taken at the supplied
    rate; at the supplied rate 5 the same call reports 2,130, and the
    candidate of 100 of the scenario reports 2,130 needed and 100
    available. *)
Theorem SelectUTXOs_insufficient_needed_at_supplied_rate :
  let one value := scenarios.env [scenarios.response "a1" value 6] 0 1 in
  fst (SelectUTXOs (one 1500) scenarios.addr 1000 0 scenarios.fresh)
    = Err (ErrInsufficientFunds 1000 1500)
  /\ fst (SelectUTXOs (one 1500) scenarios.addr 1000 5 scenarios.fresh)
    = Err (ErrInsufficientFunds 2130 1500)
  /\ fst (SelectUTXOs (one 100) scenarios.addr 1000 5 scenarios.fresh)
    = Err (ErrInsufficientFunds 2130 100).
Proof. repeat split; vm_compute; reflexivity. Qed.

(** C4, as stated, fails: with no output to spend, a call at rate 2,000
    (the maximum is 1,000) fails with the no-outputs error, not with the
    out-of-range error. *)
Lemma SelectUTXOs_rate_above_max_without_outputs :
  ~ (forall E address amount feeRate w,
       config.MaxFeeRate (config.Transaction (cfg w)) < feeRate ->
       exists rate maxRate,
         fst (SelectUTXOs E address amount feeRate w) = Err (ErrFeeRateExceedsMax rate maxRate)).
Proof.
  intros H.
  destruct (H (scenarios.env [] 0 1) scenarios.addr 1000 2000 scenarios.fresh)
    as (rate & maxRate & Hres); [vm_compute; reflexivity|].
  vm_compute in Hres. discriminate.
Qed.

(** C4, amended.  The outcome of [SelectUTXOs] in the order of its
    checks.  When the fetch fails the call fails with the fetch error;
    when the fetch returns no output, with the no-outputs error; when no
    output passes the inclusion filter, with the no-suitable-outputs
    error: in each case whatever the fee rate.  When at least one output
    passes the filter: a supplied rate that is not below the configured
    minimum and is above the configured maximum makes the call fail with
    the out-of-range error naming that rate, whatever the amount and the
    candidates, so before any output is accumulated (the fetch, the filter
    and the sort have run, and the state is the one the fetch left); a
    supplied rate below the configured minimum is replaced by the default
    rate, which is then held against the maximum (out-of-range error
    naming the default rate when it is above) and otherwise drives the
    accumulation loop; a rate within the bounds drives the loop as
    supplied. *)
Theorem SelectUTXOs_fee_rate_bounds E address amount feeRate w :
  let txConfig := config.Transaction (cfg w) in
  let minRate := config.MinFeeRate txConfig in
  let maxRate := config.MaxFeeRate txConfig in
  let defaultRate := config.DefaultFeeRate txConfig in
  let fetched := GetUTXOs E address (atFetch address amount feeRate w) in
  let w1 := snd fetched in
  (forall e, fst fetched = Err e ->
     SelectUTXOs E address amount feeRate w = (Err e, w1))
  /\ (fst fetched = Ok [] ->
      SelectUTXOs E address amount feeRate w = (Err (ErrNoUTXOs address), w1))
  /\ (forall allUTXOs, fst fetched = Ok allUTXOs -> allUTXOs <> [] ->
      filterAvailable txConfig allUTXOs [] = [] ->
      SelectUTXOs E address amount feeRate w = (Err ErrNoSuitableUTXOs, w1))
  /\ (forall allUTXOs, fst fetched = Ok allUTXOs ->
      filterAvailable txConfig allUTXOs [] <> [] ->
      let sorted := sortUTXOsByValue (filterAvailable txConfig allUTXOs []) in
      let outcome rate :=
        (match selectLoop amount rate sorted [] 0 with
         | inl (sel, fee) => Ok (sel, fee)
         | inr total =>
             Err (ErrInsufficientFunds (add64 amount (feeFor (len sorted) feeRate)) total)
         end, w1) in
      (minRate <= feeRate -> maxRate < feeRate ->
         SelectUTXOs E address amount feeRate w
         = (Err (ErrFeeRateExceedsMax feeRate maxRate), w1))
      /\ (feeRate < minRate -> maxRate < defaultRate ->
          SelectUTXOs E address amount feeRate w
          = (Err (ErrFeeRateExceedsMax defaultRate maxRate), w1))
      /\ (feeRate < minRate -> defaultRate <= maxRate ->
          SelectUTXOs E address amount feeRate w = outcome defaultRate)
      /\ (minRate <= feeRate -> feeRate <= maxRate ->
          SelectUTXOs E address amount feeRate w = outcome feeRate)).
Proof.
  intros txConfig minRate maxRate defaultRate fetched w1.
  rewrite SelectUTXOs_unfold. fold fetched. unfold w1.
  destruct fetched as [[all|e0] w2]; cbn [fst snd].
  - split; [discriminate|]. split; [|split].
    + intros [= ->]. reflexivity.
    + intros allUTXOs [= <-] Hall Hnone. fold txConfig. unfold selectFrom.
      rewrite Hnone, !len_eqb_0. destruct all; [contradiction | reflexivity].
    + intros allUTXOs [= <-] Hne. fold txConfig.
      rewrite selectFrom_candidates by exact Hne.
      cbv zeta. fold maxRate. unfold effectiveFeeRate.
      fold minRate defaultRate.
      split; [|split; [|split]].
      * intros Hmin Habove.
        destruct (Z.ltb_spec feeRate minRate); [lia|].
        destruct (Z.ltb_spec maxRate feeRate); [reflexivity | lia].
      * intros Hbelow Habove.
        destruct (Z.ltb_spec feeRate minRate); [|lia].
        destruct (Z.ltb_spec maxRate defaultRate); [reflexivity | lia].
      * intros Hbelow Hin.
        destruct (Z.ltb_spec feeRate minRate); [|lia].
        destruct (Z.ltb_spec maxRate defaultRate); [lia | reflexivity].
      * intros Hmin Hin.
        destruct (Z.ltb_spec feeRate minRate); [lia|].
        destruct (Z.ltb_spec maxRate feeRate); [lia | reflexivity].
  - split; [intros e [= ->]; reflexivity|].
    split; [discriminate|]. split; intros allUTXOs; discriminate.
Qed.

(** Under the default configuration (minimum 1, default 5, maximum
    1,000): without any output a call at rate 2,000 fails with the
    no-outputs error; with the three outputs of the scenario a call at
    rate 2,000 fails with the out-of-range error, and a call at rate 0
    selects at the default rate 5. *)
Lemma SelectUTXOs_fee_rate_bounds_witness :
  let E := scenarios.env scenarios.threeOutputs 0 1 in
  let sorted := map toUTXO [scenarios.response "b2" 50000 6; scenarios.response "a1" 30000 6;
                            scenarios.response "c3" 5000 6] in
  fst (SelectUTXOs (scenarios.env [] 0 1) scenarios.addr 1000 2000 scenarios.fresh)
    = Err (ErrNoUTXOs scenarios.addr)
  /\ fst (SelectUTXOs E scenarios.addr 49000 2000 scenarios.fresh)
    = Err (ErrFeeRateExceedsMax 2000 1000)
  /\ fst (SelectUTXOs E scenarios.addr 49000 0 scenarios.fresh) = Ok (take 2 sorted, 1870).
Proof.
  intros E sorted. split; [|split].
  - destruct (SelectUTXOs_fee_rate_bounds (scenarios.env [] 0 1) scenarios.addr 1000 2000
                scenarios.fresh) as (_ & H & _).
    rewrite H; [reflexivity | vm_compute; reflexivity].
  - destruct (SelectUTXOs_fee_rate_bounds E scenarios.addr 49000 2000 scenarios.fresh)
      as (_ & _ & _ & H).
    destruct (H (map toUTXO scenarios.threeOutputs)) as (Habove & _);
      [vm_compute; reflexivity | vm_compute; discriminate |].
    rewrite Habove; [reflexivity | vm_compute; discriminate | vm_compute; reflexivity].
  - destruct (SelectUTXOs_fee_rate_bounds E scenarios.addr 49000 0 scenarios.fresh)
      as (_ & _ & _ & H).
    destruct (H (map toUTXO scenarios.threeOutputs)) as (_ & _ & Hdefault & _);
      [vm_compute; reflexivity | vm_compute; discriminate |].
    rewrite Hdefault; [vm_compute; reflexivity | vm_compute; reflexivity
                      | vm_compute; discriminate].
Defined.

End ManagerProofs.

(** ** The address-indexed cache and the fetch *)

Module CacheProofs.

Import types utxo manager.

(** The time-to-live [time.Duration(CacheExpiry) * time.Second]. *)
Definition ttl (w : World) : Z := mul64 (config.CacheExpiry (config.UTXO (cfg w))) second.

Definition cachingEnabled (w : World) : bool := config.EnableCaching (config.UTXO (cfg w)).

Lemma getFromCache_unfold E address w :
  getFromCache E address w =
    if negb (cachingEnabled w) then (None, w)
    else match cache w !! address with
         | None => (None, w)
         | Some entry =>
             (if ttl w <? saturate64 (clock E (steps w) - Timestamp entry)
              then None else Some entry, tick w)
         end.
Proof.
  unfold getFromCache, cachingEnabled, ttl, bind, ret, GetUTXOConfig, getCache,
    time_Since, time_Now.
  destruct (negb _); [reflexivity|].
  destruct (cache w !! address) as [entry|]; [|reflexivity]. simpl.
  destruct (_ <? _); reflexivity.
Qed.

Lemma saturate64_le z t : - 2 ^ 63 <= t < max_int64 -> (saturate64 z <= t <-> z <= t).
Proof. unfold saturate64, max_int64. lia. Qed.

(** The lookup of an address that has an entry, caching enabled. *)
Lemma getFromCache_entry E address w entry :
  let utxoConfig := config.UTXO (cfg w) in
  config.EnableCaching utxoConfig = true ->
  0 <= config.CacheExpiry utxoConfig <= 9000000000 ->
  cache w !! address = Some entry ->
  getFromCache E address w =
    (if decide (clock E (steps w) - Timestamp entry
                <= config.CacheExpiry utxoConfig * 1000000000)
     then Some entry else None, tick w).
Proof.
  intros utxoConfig Hon Hexp Hentry.
  rewrite getFromCache_unfold. unfold cachingEnabled, ttl. fold utxoConfig.
  rewrite Hon, Hentry. simpl.
  unfold mul64, second. rewrite wrap64_fits by (unfold fits64; lia).
  pose proof (saturate64_le (clock E (steps w) - Timestamp entry)
                (config.CacheExpiry utxoConfig * 1000000000)
                ltac:(unfold max_int64; lia)) as Hsat.
  destruct (Z.ltb_spec (config.CacheExpiry utxoConfig * 1000000000)
              (saturate64 (clock E (steps w) - Timestamp entry)));
    case_decide; try reflexivity; lia.
Qed.

(** X1. An entry is served exactly while its age does not exceed the expiry:
    at an age equal to the expiry it is still served, one nanosecond later
    it is not.  The lookup never changes the cache. *)
Theorem getFromCache_served_iff_age_le_expiry E address w entry :
  let utxoConfig := config.UTXO (cfg w) in
  let age := clock E (steps w) - Timestamp entry in
  config.EnableCaching utxoConfig = true ->
  0 <= config.CacheExpiry utxoConfig <= 9000000000 ->
  cache w !! address = Some entry ->
  (fst (getFromCache E address w) = Some entry <->
     age <= config.CacheExpiry utxoConfig * 1000000000)
  /\ (fst (getFromCache E address w) = None <->
     config.CacheExpiry utxoConfig * 1000000000 < age)
  /\ cache (snd (getFromCache E address w)) = cache w.
Proof.
  intros utxoConfig age Hon Hexp Hentry.
  rewrite (getFromCache_entry E address w entry Hon Hexp Hentry). fold utxoConfig age.
  cbn [fst snd tick cache].
  split; [|split; [|reflexivity]]; case_decide; split; intros; try discriminate;
    try reflexivity; lia.
Qed.

Lemma getFromCache_served_iff_age_le_expiry_witness :
  let E := scenarios.env [] 0 1 in
  let entry := {| UTXOs := []; Balance := None; Timestamp := - 300000000000 |} in
  let w := {| cfg := config.getDefaultConfig; cache := {[ scenarios.addr := entry ]};
              steps := 0; trace := [] |} in
  fst (getFromCache E scenarios.addr w) = Some entry.
Proof.
  intros E entry w.
  apply (getFromCache_served_iff_age_le_expiry E scenarios.addr w entry);
    vm_compute; try reflexivity; try (split; discriminate). discriminate.
Defined.

(** *** [GetUTXOs] *)

Definition unspentURL (w : World) (address : string) : string :=
  config.RPCURL (config.Network (cfg w)) +:+ "/address/" +:+ address +:+ "/unspent".

Definition confirmed (utxoConfig : config.UTXOConfig) (resp : EnhancedUTXOResponse) : bool :=
  config.MinConfirmations utxoConfig <=? r_Confirmations resp.

Lemma convertResponses_filter utxoConfig rs : forall acc,
  convertResponses utxoConfig rs acc =
    acc ++ map toUTXO
             (take (Z.to_nat (config.MaxUTXOsPerQuery utxoConfig - len acc))
                   (List.filter (confirmed utxoConfig) rs)).
Proof.
  induction rs as [|resp rest IH]; intros acc; simpl.
  - rewrite take_nil. symmetry; apply app_nil_r.
  - unfold confirmed at 1.
    destruct (Z.ltb_spec (r_Confirmations resp) (config.MinConfirmations utxoConfig)) as [Hlt|Hge].
    + destruct (Z.leb_spec (config.MinConfirmations utxoConfig) (r_Confirmations resp));
        [lia|]. apply IH.
    + destruct (Z.leb_spec (config.MinConfirmations utxoConfig) (r_Confirmations resp));
        [|lia].
      destruct (Z.leb_spec (config.MaxUTXOsPerQuery utxoConfig) (len acc)) as [Hfull|Hroom].
      * replace (Z.to_nat (config.MaxUTXOsPerQuery utxoConfig - len acc)) with 0%nat by lia.
        symmetry; apply app_nil_r.
      * rewrite IH, len_app. change (len [toUTXO resp]) with 1.
        replace (Z.to_nat (config.MaxUTXOsPerQuery utxoConfig - len acc))
          with (S (Z.to_nat (config.MaxUTXOsPerQuery utxoConfig - (len acc + 1)))) by lia.
        simpl. rewrite <- app_assoc. reflexivity.
Qed.

Definition store (w : World) (address : string) (entry : CacheEntry) : World :=
  {| cfg := cfg w; cache := <[address := entry]> (cache w); steps := steps w;
     trace := trace w |}.

Definition logged (w : World) (e : Event) : World :=
  {| cfg := cfg w; cache := cache w; steps := steps w; trace := trace w ++ [e] |}.

(** [GetUTXOs] in terms of the cache lookup and the remote answer. *)
Lemma GetUTXOs_unfold E address w :
  GetUTXOs E address w =
    match getFromCache E address w with
    | (Some cached, w1) => (Ok (UTXOs cached), w1)
    | (None, w1) =>
        let w2 := logged w1 (EvRequest (unspentURL w address)) in
        match unspent_api E (steps w1) (unspentURL w address) with
        | None => (Err ErrGetUTXOs, tick w2)
        | Some rs =>
            let utxos := convertResponses (config.UTXO (cfg w)) rs [] in
            (Ok utxos,
             if cachingEnabled w
             then store (tick (tick w2)) address
                    {| UTXOs := utxos; Balance := None; Timestamp := clock E (S (steps w1)) |}
             else tick w2)
        end
    end.
Proof.
  assert (Hcfg : cfg (snd (getFromCache E address w)) = cfg w).
  { rewrite getFromCache_unfold. repeat case_match; reflexivity. }
  unfold GetUTXOs, bind at 1.
  destruct (getFromCache E address w) as [[cached|] w1]; [reflexivity|].
  destruct w1 as [c1 cache1 steps1 trace1]. simpl in Hcfg. subst c1.
  unfold bind, ret, GetNetworkConfig, GetUTXOConfig, makeRequestUnspent, logEvent,
    time_Now, setCache, getCache, putCache, unspentURL, cachingEnabled, bind, ret.
  simpl.
  destruct (unspent_api E steps1 _) as [rs|]; [|reflexivity].
  destruct (config.EnableCaching (config.UTXO (cfg w))) eqn:Hen; simpl; [|reflexivity].
  rewrite Hen. reflexivity.
Qed.

Lemma getFromCache_world E address w :
  snd (getFromCache E address w) = w \/ snd (getFromCache E address w) = tick w.
Proof. rewrite getFromCache_unfold. repeat case_match; simpl; auto. Qed.

Lemma getFromCache_Some E address w entry :
  fst (getFromCache E address w) = Some entry ->
  cache w !! address = Some entry /\ snd (getFromCache E address w) = tick w.
Proof.
  rewrite getFromCache_unfold. repeat case_match; simpl; intros; simplify_eq; auto.
Qed.




(** When the request fails, [GetUTXOs] fails and the cache is left as it
    was: an expired entry is neither served nor removed. *)
Lemma GetUTXOs_request_failure E address w :
  fst (getFromCache E address w) = None ->
  unspent_api E (steps (snd (getFromCache E address w))) (unspentURL w address) = None ->
  fst (GetUTXOs E address w) = Err ErrGetUTXOs
  /\ cache (snd (GetUTXOs E address w)) = cache w.
Proof.
  intros Hmiss Hapi.
  assert (Hcache : cache (snd (getFromCache E address w)) = cache w)
    by (destruct (getFromCache_world E address w) as [-> | ->]; reflexivity).
  rewrite GetUTXOs_unfold.
  destruct (getFromCache E address w) as [[c|] w1]; simpl in *; [discriminate|].
  rewrite Hapi. simpl. auto.
Qed.

Lemma GetUTXOs_request_failure_witness :
  let E := {| clock := fun n => 0; unspent_api := fun _ _ => None;
              balance_api := fun _ _ => None |} in
  fst (GetUTXOs E scenarios.addr scenarios.fresh) = Err ErrGetUTXOs
  /\ cache (snd (GetUTXOs E scenarios.addr scenarios.fresh)) = cache scenarios.fresh.
Proof.
  intros E. apply (GetUTXOs_request_failure E scenarios.addr scenarios.fresh);
    vm_compute; reflexivity.
Defined.

(** X3. A successful fetch with caching enabled stores the outputs under the
    address, without a balance, stamped with the clock reading taken after
    the request.  The next [GetUTXOs] for the address returns the same list
    without any request if the entry's age is within the expiry, and makes
    a new request if it is beyond. *)
Theorem GetUTXOs_repeat E address w rs :
  let utxoConfig := config.UTXO (cfg w) in
  let utxos := map toUTXO (take (Z.to_nat (config.MaxUTXOsPerQuery utxoConfig))
                                (List.filter (confirmed utxoConfig) rs)) in
  let w' := snd (GetUTXOs E address w) in
  config.EnableCaching utxoConfig = true ->
  0 <= config.CacheExpiry utxoConfig <= 9000000000 ->
  fst (getFromCache E address w) = None ->
  unspent_api E (steps (snd (getFromCache E address w))) (unspentURL w address) = Some rs ->
  exists stamp,
    cache w' !! address = Some {| UTXOs := utxos; Balance := None; Timestamp := stamp |}
    /\ (clock E (steps w') - stamp <= config.CacheExpiry utxoConfig * 1000000000 ->
        GetUTXOs E address w' = (Ok utxos, tick w'))
    /\ (config.CacheExpiry utxoConfig * 1000000000 < clock E (steps w') - stamp ->
        exists url, trace (snd (GetUTXOs E address w')) = trace w' ++ [EvRequest url]).
Proof.
  intros utxoConfig utxos w' Hon Hexp Hmiss Hapi.
  assert (Hw' : exists w2 stamp, cfg w2 = cfg w /\
            w' = store w2 address {| UTXOs := utxos; Balance := None; Timestamp := stamp |}).
  { unfold w'. rewrite GetUTXOs_unfold.
    assert (Hcfg : cfg (snd (getFromCache E address w)) = cfg w)
      by (destruct (getFromCache_world E address w) as [-> | ->]; reflexivity).
    destruct (getFromCache E address w) as [[c|] w1]; simpl in *; [discriminate|].
    rewrite Hapi, convertResponses_filter. fold utxoConfig.
    change (len []) with 0. rewrite Z.sub_0_r. simpl.
    unfold cachingEnabled. fold utxoConfig. rewrite Hon.
    eexists _, _. split; [|reflexivity]. exact Hcfg. }
  destruct Hw' as (w2 & stamp & Hcfg & Hw'). exists stamp.
  set (entry := {| UTXOs := utxos; Balance := None; Timestamp := stamp |}) in *.
  assert (Hlook : cache w' !! address = Some entry)
    by (rewrite Hw'; simpl; apply lookup_insert_eq).
  assert (Hcfg' : cfg w' = cfg w) by (rewrite Hw'; exact Hcfg).
  pose proof (getFromCache_entry E address w' entry) as Hget.
  cbv zeta in Hget. rewrite Hcfg' in Hget. fold utxoConfig in Hget.
  specialize (Hget Hon Hexp Hlook). cbn [Timestamp entry] in Hget.
  split; [exact Hlook|]. split.
  - intros Hage. rewrite GetUTXOs_unfold, Hget.
    case_decide; [reflexivity | contradiction].
  - intros Hage. rewrite GetUTXOs_unfold, Hget.
    case_decide; [lia|].
    exists (unspentURL w' address).
    destruct (unspent_api E (steps (tick w')) _); [destruct (cachingEnabled w')|]; reflexivity.
Qed.

Lemma GetUTXOs_repeat_witness :
  let E := scenarios.env scenarios.threeOutputs 0 1 in
  let w' := snd (GetUTXOs E scenarios.addr scenarios.fresh) in
  GetUTXOs E scenarios.addr w' = (Ok (map toUTXO scenarios.threeOutputs), tick w').
Proof.
  intros E w'.
  pose proof (GetUTXOs_repeat E scenarios.addr scenarios.fresh scenarios.threeOutputs
                ltac:(vm_compute; reflexivity) ltac:(vm_compute; split; discriminate)
                ltac:(vm_compute; reflexivity) ltac:(vm_compute; reflexivity))
    as (stamp & Hentry & Hhit & _).
  vm_compute in Hentry. inversion Hentry; subst stamp.
  apply Hhit. vm_compute. discriminate.
Defined.

(** *** [GetEnhancedBalance] *)

Lemma getFromCache_cfg E address w : cfg (snd (getFromCache E address w)) = cfg w.
Proof. destruct (getFromCache_world E address w) as [-> | ->]; reflexivity. Qed.

Lemma getFromCache_cache E address w : cache (snd (getFromCache E address w)) = cache w.
Proof. destruct (getFromCache_world E address w) as [-> | ->]; reflexivity. Qed.

Lemma GetUTXOs_cfg E address w : cfg (snd (GetUTXOs E address w)) = cfg w.
Proof.
  rewrite GetUTXOs_unfold. pose proof (getFromCache_cfg E address w) as Hcfg.
  destruct (getFromCache E address w) as [[c|] w1]; simpl in *; [exact Hcfg|].
  destruct (unspent_api E (steps w1) _); [destruct (cachingEnabled w)|]; exact Hcfg.
Qed.

Definition balanceURL (w : World) (address : string) : string :=
  config.RPCURL (config.Network (cfg w)) +:+ "/address/" +:+ address +:+ "/balance".

(** What the final caching step of [GetEnhancedBalance] does to the world
    [w3] reached after the inner [GetUTXOs]. *)
Definition cacheBalance (E : Env) (address : string) (b : EnhancedBalanceInfo)
    (w3 : World) : World :=
  match getFromCache E address w3 with
  | (Some cached, w4) => store w4 address (withBalance cached b)
  | (None, w4) =>
      store (tick w4) address
        {| UTXOs := []; Balance := Some b; Timestamp := clock E (steps w4) |}
  end.

(** What [GetEnhancedBalance] does once the cache has not answered, from
    the world [w1] left by the first lookup. *)
Definition fetchBalance (E : Env) (address : string) (w w1 : World)
    : result EnhancedBalanceInfo * World :=
  let w2 := tick (logged w1 (EvRequest (balanceURL w address))) in
  match balance_api E (steps w1) (balanceURL w address) with
  | None => (Err ErrGetBalance, w2)
  | Some balanceResp =>
      match GetUTXOs E address w2 with
      | (Err e, w3) => (Err (ErrUTXOsForBalance e), w3)
      | (Ok utxos, w3) =>
          let b := computeBalance (config.UTXO (cfg w)) balanceResp utxos in
          (Ok b, if cachingEnabled w then cacheBalance E address b w3 else w3)
      end
  end.

Lemma GetEnhancedBalance_unfold E address w :
  GetEnhancedBalance E address w =
    match getFromCache E address w with
    | (Some cached, w1) =>
        match Balance cached with
        | Some b => (Ok b, w1)
        | None => fetchBalance E address w w1
        end
    | (None, w1) => fetchBalance E address w w1
    end.
Proof.
  assert (Hfetch : forall w1, cfg w1 = cfg w ->
    (networkConfig <- GetNetworkConfig ;;
     utxoConfig <- GetUTXOConfig ;;
     let balanceURL :=
       config.RPCURL networkConfig +:+ "/address/" +:+ address +:+ "/balance" in
     resp <- makeRequestBalance E balanceURL ;;
     match resp with
     | None => ret (Err ErrGetBalance)
     | Some balanceResp =>
         r <- GetUTXOs E address ;;
         match r with
         | Err e => ret (Err (ErrUTXOsForBalance e))
         | Ok utxos =>
             let enhancedBalance := computeBalance utxoConfig balanceResp utxos in
             (if config.EnableCaching utxoConfig
              then cached <- getFromCache E address ;;
                   match cached with
                   | Some cached =>
                       c <- getCache ;;
                       putCache (<[address := withBalance cached enhancedBalance]> c)
                   | None =>
                       now <- time_Now E ;;
                       setCache address {| UTXOs := []; Balance := Some enhancedBalance;
                                           Timestamp := now |}
                   end
              else ret tt) ;;;
             ret (Ok enhancedBalance)
         end
     end) w1 = fetchBalance E address w w1).
  { intros w1 Hcfg. unfold fetchBalance, balanceURL, cachingEnabled.
    destruct w1 as [c1 cache1 steps1 trace1]. simpl in Hcfg. subst c1.
    unfold bind at 1 2 3 4, GetNetworkConfig, GetUTXOConfig, makeRequestBalance, logEvent, ret.
    simpl.
    destruct (balance_api E steps1 _) as [balanceResp|]; [|reflexivity].
    unfold bind at 1. unfold logged, tick. simpl.
    match goal with |- context [GetUTXOs E address ?w2] =>
      pose proof (GetUTXOs_cfg E address w2) as Hcfg3;
      destruct (GetUTXOs E address w2) as [[utxos|e] w3] end; [|reflexivity].
    simpl in Hcfg3.
    destruct (config.EnableCaching (config.UTXO (cfg w))) eqn:Hen; [|reflexivity].
    unfold cacheBalance, bind at 1 2.
    pose proof (getFromCache_cfg E address w3) as Hcfg4.
    destruct (getFromCache E address w3) as [[cached|] w4]; simpl in Hcfg4.
    - destruct w4; reflexivity.
    - destruct w4 as [c4 cache4 steps4 trace4]. simpl in Hcfg4. subst c4.
      unfold time_Now, setCache, GetUTXOConfig, getCache, putCache, ret, bind. simpl.
      rewrite Hcfg3, Hen. reflexivity. }
  unfold GetEnhancedBalance. unfold bind at 1.
  pose proof (getFromCache_cfg E address w) as Hcfg.
  destruct (getFromCache E address w) as [[[us [b|] ts]|] w1]; simpl in Hcfg;
    [reflexivity | apply Hfetch, Hcfg | apply Hfetch, Hcfg].
Qed.

Definition expiryNanos (w : World) : Z := config.CacheExpiry (config.UTXO (cfg w)) * 1000000000.

Definition expiryInRange (w : World) : Prop :=
  0 <= config.CacheExpiry (config.UTXO (cfg w)) <= 9000000000.

Lemma getFromCache_hit E address w entry :
  cachingEnabled w = true -> expiryInRange w ->
  cache w !! address = Some entry ->
  clock E (steps w) - Timestamp entry <= expiryNanos w ->
  getFromCache E address w = (Some entry, tick w).
Proof.
  intros Hon Hexp Hentry Hage.
  rewrite (getFromCache_entry E address w entry Hon Hexp Hentry).
  case_decide; [reflexivity | contradiction].
Qed.

Lemma getFromCache_expired E address w entry :
  cachingEnabled w = true -> expiryInRange w ->
  cache w !! address = Some entry ->
  expiryNanos w < clock E (steps w) - Timestamp entry ->
  getFromCache E address w = (None, tick w).
Proof.
  intros Hon Hexp Hentry Hage.
  rewrite (getFromCache_entry E address w entry Hon Hexp Hentry).
  unfold expiryNanos in Hage. case_decide; [lia | reflexivity].
Qed.

Lemma getFromCache_absent E address w :
  cache w !! address = None -> getFromCache E address w = (None, w).
Proof. intros H. rewrite getFromCache_unfold, H. destruct (negb _); reflexivity. Qed.

(** X4. The partial update: when the address has a valid entry without a
    balance, [GetEnhancedBalance] makes the balance request only, computes
    the balance from the cached outputs, and writes it into that entry,
    whose outputs and timestamp stay as they were. *)
Theorem GetEnhancedBalance_sets_balance_in_place E address w entry balanceResp :
  let b := computeBalance (config.UTXO (cfg w)) balanceResp (UTXOs entry) in
  let w' := snd (GetEnhancedBalance E address w) in
  cachingEnabled w = true -> expiryInRange w ->
  cache w !! address = Some entry ->
  Balance entry = None ->
  (forall n, (steps w <= n <= steps w + 3)%nat ->
     clock E n - Timestamp entry <= expiryNanos w) ->
  balance_api E (S (steps w)) (balanceURL w address) = Some balanceResp ->
  fst (GetEnhancedBalance E address w) = Ok b
  /\ cache w' = <[address := {| UTXOs := UTXOs entry; Balance := Some b;
                                Timestamp := Timestamp entry |}]> (cache w)
  /\ trace w' = trace w ++ [EvRequest (balanceURL w address)].
Proof.
  intros b w' Hon Hexp Hentry Hnone Hclock Hapi. unfold w'.
  assert (Hhit : forall w0, cfg w0 = cfg w -> cache w0 = cache w ->
            (steps w <= steps w0 <= steps w + 3)%nat ->
            getFromCache E address w0 = (Some entry, tick w0)).
  { intros w0 Hc Hca Hst. apply getFromCache_hit.
    - unfold cachingEnabled. rewrite Hc. exact Hon.
    - unfold expiryInRange. rewrite Hc. exact Hexp.
    - rewrite Hca. exact Hentry.
    - unfold expiryNanos. rewrite Hc. apply Hclock, Hst. }
  rewrite GetEnhancedBalance_unfold.
  rewrite (Hhit w) by (try reflexivity; lia).
  rewrite Hnone. unfold fetchBalance. simpl steps. rewrite Hapi.
  rewrite GetUTXOs_unfold.
  rewrite Hhit by (try reflexivity; simpl; lia).
  rewrite Hon. unfold cacheBalance.
  rewrite Hhit by (try reflexivity; simpl; lia).
  simpl. auto.
Qed.

Lemma GetEnhancedBalance_sets_balance_in_place_witness :
  let E := scenarios.env scenarios.threeOutputs 0 1 in
  let w := snd (GetUTXOs E scenarios.addr scenarios.fresh) in
  exists entry b,
    cache w !! scenarios.addr = Some entry /\ Balance entry = None
    /\ cache (snd (GetEnhancedBalance E scenarios.addr w))
       = <[scenarios.addr := {| UTXOs := UTXOs entry; Balance := Some b;
                                Timestamp := Timestamp entry |}]> (cache w).
Proof.
  intros E w.
  exists {| UTXOs := map toUTXO scenarios.threeOutputs; Balance := None; Timestamp := 1 |}.
  eexists.
  split; [vm_compute; reflexivity|]. split; [reflexivity|].
  eapply (GetEnhancedBalance_sets_balance_in_place E scenarios.addr w _
            {| r_Confirmed := 0; r_Unconfirmed := 0 |}).
  - vm_compute; reflexivity.
  - vm_compute; split; discriminate.
  - vm_compute; reflexivity.
  - reflexivity.
  - intros n Hn. change (steps w) with 2%nat in Hn. unfold expiryNanos.
    change (config.CacheExpiry (config.UTXO (cfg w))) with 300. simpl. lia.
  - reflexivity.
Defined.

(** X5. [GetEnhancedBalance] on an address without an entry, caching enabled,
    both requests answered: the balance request comes first, then the
    outputs request.  If the entry stored by the inner [GetUTXOs] is still
    within the expiry at the last lookup, it receives the balance and keeps
    the outputs and their timestamp.  If it has expired by then, it is
    replaced by an entry that holds the balance and no outputs; a
    [GetUTXOs] served from that entry returns the empty list without any
    request, whatever the service had answered. *)
Theorem GetEnhancedBalance_cold_cache E address w balanceResp rs :
  let utxoConfig := config.UTXO (cfg w) in
  let utxos := map toUTXO (take (Z.to_nat (config.MaxUTXOsPerQuery utxoConfig))
                                (List.filter (confirmed utxoConfig) rs)) in
  let b := computeBalance utxoConfig balanceResp utxos in
  let w' := snd (GetEnhancedBalance E address w) in
  let s := steps w in
  cachingEnabled w = true -> expiryInRange w ->
  cache w !! address = None ->
  balance_api E s (balanceURL w address) = Some balanceResp ->
  unspent_api E (S s) (unspentURL w address) = Some rs ->
  fst (GetEnhancedBalance E address w) = Ok b
  /\ trace w' = trace w ++ [EvRequest (balanceURL w address); EvRequest (unspentURL w address)]
  /\ (clock E (s + 3) - clock E (s + 2) <= expiryNanos w ->
      cache w' = <[address := {| UTXOs := utxos; Balance := Some b;
                                 Timestamp := clock E (s + 2) |}]> (cache w))
  /\ (expiryNanos w < clock E (s + 3) - clock E (s + 2) ->
      cache w' = <[address := {| UTXOs := []; Balance := Some b;
                                 Timestamp := clock E (s + 4) |}]> (cache w)
      /\ (clock E (s + 5) - clock E (s + 4) <= expiryNanos w ->
          GetUTXOs E address w' = (Ok [], tick w'))).
Proof.
  intros utxoConfig utxos b w' s Hon Hexp Hnone Hbal Huns.
  assert (Hrun : GetEnhancedBalance E address w =
    (Ok b, cacheBalance E address b
             (store (tick (tick (logged (tick (logged w (EvRequest (balanceURL w address))))
                                        (EvRequest (unspentURL w address)))))
                address {| UTXOs := utxos; Balance := None;
                           Timestamp := clock E (S (S s)) |}))).
  { rewrite GetEnhancedBalance_unfold, (getFromCache_absent E address w Hnone).
    unfold fetchBalance. fold s. rewrite Hbal, GetUTXOs_unfold.
    rewrite getFromCache_absent by exact Hnone.
    cbn [steps tick logged]. fold s.
    change (unspentURL (tick (logged w (EvRequest (balanceURL w address)))) address)
      with (unspentURL w address).
    rewrite Huns, convertResponses_filter. change (len []) with 0. rewrite Z.sub_0_r.
    change (cachingEnabled (tick (logged w (EvRequest (balanceURL w address)))))
      with (cachingEnabled w).
    rewrite Hon. reflexivity. }
  unfold w'. rewrite Hrun. cbn [fst snd].
  set (w3 := store _ address _).
  assert (Hentry : cache w3 !! address
                   = Some {| UTXOs := utxos; Balance := None; Timestamp := clock E (S (S s)) |})
    by apply lookup_insert_eq.
  assert (Hs3 : steps w3 = (s + 3)%nat) by (unfold w3, s; simpl; lia).
  replace (s + 2)%nat with (S (S s)) by lia.
  split; [reflexivity|].
  destruct (Z.le_gt_cases (clock E (s + 3) - clock E (S (S s))) (expiryNanos w)) as [Hin|Hout].
  - unfold cacheBalance. rewrite (getFromCache_hit E address w3 _ Hon Hexp Hentry)
      by (rewrite Hs3; exact Hin).
    split; [unfold w3; simpl; rewrite <- !app_assoc; reflexivity|].
    split; [|intros; lia]. intros _. unfold w3. simpl. apply insert_insert_eq.
  - unfold cacheBalance. rewrite (getFromCache_expired E address w3 _ Hon Hexp Hentry)
      by (rewrite Hs3; exact Hout).
    split; [unfold w3; simpl; rewrite <- !app_assoc; reflexivity|].
    split; [intros; lia|]. intros _.
    replace (s + 4)%nat with (steps (tick w3)) by (simpl; lia).
    split; [unfold w3; simpl; apply insert_insert_eq|].
    intros Hnext. rewrite GetUTXOs_unfold.
    rewrite (getFromCache_hit E address _
               {| UTXOs := []; Balance := Some b; Timestamp := clock E (steps (tick w3)) |});
      [reflexivity | exact Hon | exact Hexp | apply lookup_insert_eq |].
    cbn [steps store tick Timestamp]. fold (steps w3). rewrite Hs3.
    replace (S (S (s + 3))) with (s + 5)%nat by lia.
    cbn [steps tick] in Hnext. rewrite Hs3 in Hnext. exact Hnext.
Qed.

(** A clock that stalls for 400 seconds between the store of the outputs
    and the last lookup (the expiry is 300 seconds): the entry left behind
    has no outputs, and the next [GetUTXOs] returns none although the
    service lists three. *)
Lemma GetEnhancedBalance_cold_cache_witness :
  let E := {| clock := fun n => if (n <=? 2)%nat then 0 else 400000000000;
              unspent_api := fun _ _ => Some scenarios.threeOutputs;
              balance_api := fun _ _ => Some {| r_Confirmed := 85000; r_Unconfirmed := 0 |} |} in
  let w' := snd (GetEnhancedBalance E scenarios.addr scenarios.fresh) in
  GetUTXOs E scenarios.addr w' = (Ok [], tick w').
Proof.
  intros E w'.
  pose proof (GetEnhancedBalance_cold_cache E scenarios.addr scenarios.fresh
                {| r_Confirmed := 85000; r_Unconfirmed := 0 |} scenarios.threeOutputs
                ltac:(reflexivity) ltac:(vm_compute; split; discriminate)
                ltac:(reflexivity) ltac:(reflexivity) ltac:(reflexivity))
    as (_ & _ & _ & H).
  destruct H as [_ H]; [vm_compute; reflexivity|].
  apply H. vm_compute. discriminate.
Defined.

(** *** What the cache can hold *)

(** The calls a client can make on the manager, and a change of the
    configuration between two calls. *)
Inductive Op :=
| OpGetUTXOs (address : string)
| OpGetEnhancedBalance (address : string)
| OpGetNativeBalance (address : string)
| OpGetNonNativeBalance (address : string)
| OpGetConfirmedBalance (address : string)
| OpSelectUTXOs (address : string) (amount feeRate : Z)
| OpSelectUTXOsForTokenTransfer (address tokenID : string) (amount feeRate : Z)
| OpClearCache
| OpClearCacheForAddress (address : string)
| OpUpdateConfig (c : config.Config).

Definition run (E : Env) (op : Op) (w : World) : World :=
  match op with
  | OpGetUTXOs a => snd (GetUTXOs E a w)
  | OpGetEnhancedBalance a => snd (GetEnhancedBalance E a w)
  | OpGetNativeBalance a => snd (GetNativeBalance E a w)
  | OpGetNonNativeBalance a => snd (GetNonNativeBalance E a w)
  | OpGetConfirmedBalance a => snd (GetConfirmedBalance E a w)
  | OpSelectUTXOs a amount feeRate => snd (SelectUTXOs E a amount feeRate w)
  | OpSelectUTXOsForTokenTransfer a tokenID amount feeRate =>
      snd (SelectUTXOsForTokenTransfer E a tokenID amount feeRate w)
  | OpClearCache => snd (ClearCache w)
  | OpClearCacheForAddress a => snd (ClearCacheForAddress a w)
  | OpUpdateConfig c =>
      {| cfg := c; cache := cache w; steps := steps w; trace := trace w |}
  end.

(** The states a manager made by [NewManager] can be in. *)
Inductive reachable (E : Env) : World -> Prop :=
| reachable_new c : reachable E (NewManager c)
| reachable_run op w : reachable E w -> reachable E (run E op w).

Definition allNative (l : list UTXO) : Prop := Forall (fun u => IsNative u = true) l.

Definition cacheNative (w : World) : Prop :=
  forall address entry, cache w !! address = Some entry -> allNative (UTXOs entry).

Lemma allNative_toUTXO rs : allNative (map toUTXO rs).
Proof. induction rs; constructor; auto. Qed.

Lemma cacheNative_store w address entry :
  cacheNative w -> allNative (UTXOs entry) -> cacheNative (store w address entry).
Proof.
  intros Hw He a e. simpl. rewrite lookup_insert.
  case_decide; intros; simplify_eq; eauto.
Qed.

Lemma cacheNative_same w w' : cache w' = cache w -> cacheNative w -> cacheNative w'.
Proof. unfold cacheNative. intros ->. auto. Qed.

Lemma GetUTXOs_native E address w :
  cacheNative w ->
  cacheNative (snd (GetUTXOs E address w))
  /\ forall l, fst (GetUTXOs E address w) = Ok l -> allNative l.
Proof.
  intros Hw. rewrite GetUTXOs_unfold.
  pose proof (getFromCache_cache E address w) as Hcache.
  destruct (getFromCache E address w) as [[c|] w1] eqn:Hget; simpl in Hcache.
  - simpl. split; [eapply cacheNative_same; eauto|].
    intros l [= <-]. apply (Hw address).
    apply (getFromCache_Some E address w c). rewrite Hget. reflexivity.
  - destruct (unspent_api E (steps w1) _) as [rs|]; simpl.
    + rewrite convertResponses_filter. simpl.
      split; [|intros l [= <-]; apply allNative_toUTXO].
      destruct (cachingEnabled w).
      * apply cacheNative_store; [|apply allNative_toUTXO].
        eapply cacheNative_same; [|exact Hw]. exact Hcache.
      * eapply cacheNative_same; [|exact Hw]. exact Hcache.
    + split; [|discriminate]. eapply cacheNative_same; [|exact Hw]. exact Hcache.
Qed.

Lemma GetEnhancedBalance_native E address w :
  cacheNative w -> cacheNative (snd (GetEnhancedBalance E address w)).
Proof.
  intros Hw. rewrite GetEnhancedBalance_unfold.
  pose proof (getFromCache_cache E address w) as Hcache.
  assert (Hfetch : forall w1, cache w1 = cache w ->
            cacheNative (snd (fetchBalance E address w w1))).
  { intros w1 Hc. unfold fetchBalance.
    destruct (balance_api E (steps w1) _) as [resp|]; simpl;
      [|eapply cacheNative_same; [|exact Hw]; exact Hc].
    match goal with |- context [GetUTXOs E address ?w2] =>
      destruct (GetUTXOs_native E address w2) as [H3 _];
        [eapply cacheNative_same; [|exact Hw]; exact Hc|];
      destruct (GetUTXOs E address w2) as [[utxos|e] w3] end; simpl in *; [|exact H3].
    destruct (cachingEnabled w); [|exact H3].
    unfold cacheBalance.
    pose proof (getFromCache_cache E address w3) as Hc4.
    destruct (getFromCache E address w3) as [[c|] w4] eqn:Hget; simpl in Hc4.
    - apply cacheNative_store; [eapply cacheNative_same; eauto|].
      simpl. apply (H3 address).
      apply (getFromCache_Some E address w3 c). rewrite Hget. reflexivity.
    - apply cacheNative_store; [|constructor].
      eapply cacheNative_same; [|exact H3]. exact Hc4. }
  destruct (getFromCache E address w) as [[c|] w1]; simpl in Hcache.
  - destruct (Balance c); [simpl; eapply cacheNative_same; eauto | apply Hfetch, Hcache].
  - apply Hfetch, Hcache.
Qed.

Lemma run_native E op w : cacheNative w -> cacheNative (run E op w).
Proof.
  intros Hw. destruct op; simpl.
  - apply GetUTXOs_native, Hw.
  - apply GetEnhancedBalance_native, Hw.
  - unfold GetNativeBalance, bind.
    pose proof (GetEnhancedBalance_native E address w Hw).
    destruct (GetEnhancedBalance E address w) as [[b|e] w1]; assumption.
  - unfold GetNonNativeBalance, bind.
    pose proof (GetEnhancedBalance_native E address w Hw).
    destruct (GetEnhancedBalance E address w) as [[b|e] w1]; assumption.
  - unfold GetConfirmedBalance, GetNativeBalance, bind.
    pose proof (GetEnhancedBalance_native E address w Hw).
    destruct (GetEnhancedBalance E address w) as [[b|e] w1]; assumption.
  - rewrite ManagerProofs.SelectUTXOs_unfold.
    destruct (GetUTXOs_native E address (ManagerProofs.atFetch address amount feeRate w))
      as [H _]; [exact Hw|].
    destruct (GetUTXOs E address _) as [[l|e] w1]; exact H.
  - unfold SelectUTXOsForTokenTransfer, bind, logEvent. simpl.
    match goal with |- context [GetUTXOs E address ?w0] =>
      destruct (GetUTXOs_native E address w0) as [H _]; [exact Hw|];
      destruct (GetUTXOs E address w0) as [[l|e] w1] end; exact H.
  - intros a e. simpl. rewrite lookup_empty. discriminate.
  - intros a e. simpl. rewrite lookup_delete. case_decide; [discriminate|]. apply Hw.
  - exact Hw.
Qed.

Lemma reachable_native E w : reachable E w -> cacheNative w.
Proof.
  induction 1 as [c|op w _ IH].
  - intros a e. simpl. rewrite lookup_empty. discriminate.
  - apply run_native, IH.
Qed.

(** X6. Whatever calls were made before, and whatever the service answers,
    every output [GetUTXOs] returns is tagged native; and so is every
    output held in the cache. *)
Theorem GetUTXOs_only_native E address w utxos :
  reachable E w ->
  fst (GetUTXOs E address w) = Ok utxos ->
  Forall (fun u => IsNative u = true) utxos.
Proof.
  intros Hreach Hres.
  apply (GetUTXOs_native E address w (reachable_native E w Hreach)), Hres.
Qed.

Lemma GetUTXOs_only_native_witness :
  let E := scenarios.env scenarios.threeOutputs 0 1 in
  let w := run E (OpGetEnhancedBalance scenarios.addr) scenarios.fresh in
  Forall (fun u => IsNative u = true) (map toUTXO scenarios.threeOutputs).
Proof.
  intros E w.
  apply (GetUTXOs_only_native E scenarios.addr w).
  - apply reachable_run, reachable_new.
  - vm_compute. reflexivity.
Defined.

(** *** The balance getters *)

(** What every balance the manager computes looks like. *)
Definition goodBalance (b : EnhancedBalanceInfo) : Prop :=
  Tokens (NonNative b) = ∅ /\ nn_UTXOCount (NonNative b) = 0
  /\ nb_Total (Native b) = add64 (nb_Confirmed (Native b)) (nb_Unconfirmed (Native b))
  /\ Total b = nb_Total (Native b)
  /\ 0 <= nb_UTXOCount (Native b).

Definition cacheBalanced (w : World) : Prop :=
  forall address entry b,
    cache w !! address = Some entry -> Balance entry = Some b -> goodBalance b.

Lemma filter_nonNative_nil l : allNative l -> List.filter (fun u => negb (IsNative u)) l = [].
Proof.
  induction 1 as [|u l Hu _ IH]; [reflexivity|]. simpl. rewrite Hu. exact IH.
Qed.

Lemma computeBalance_good utxoConfig balanceResp utxos :
  allNative utxos -> goodBalance (computeBalance utxoConfig balanceResp utxos).
Proof.
  intros Hn. unfold goodBalance, computeBalance. cbn.
  rewrite (filter_nonNative_nil utxos Hn). cbn.
  repeat split. apply len_nonneg.
Qed.

Lemma cacheBalanced_store w address entry :
  cacheBalanced w -> (forall b, Balance entry = Some b -> goodBalance b) ->
  cacheBalanced (store w address entry).
Proof.
  intros Hw He a e b. simpl. rewrite lookup_insert.
  case_decide; intros; simplify_eq; eauto.
Qed.

Lemma cacheBalanced_same w w' : cache w' = cache w -> cacheBalanced w -> cacheBalanced w'.
Proof. unfold cacheBalanced. intros ->. auto. Qed.

Lemma GetUTXOs_balanced E address w :
  cacheBalanced w -> cacheBalanced (snd (GetUTXOs E address w)).
Proof.
  intros Hw. rewrite GetUTXOs_unfold.
  pose proof (getFromCache_cache E address w) as Hcache.
  destruct (getFromCache E address w) as [[c|] w1] eqn:Hget; simpl in Hcache.
  - simpl. eapply cacheBalanced_same; eauto.
  - destruct (unspent_api E (steps w1) _) as [rs|]; simpl.
    + destruct (cachingEnabled w).
      * apply cacheBalanced_store; [|discriminate].
        eapply cacheBalanced_same; [|exact Hw]. exact Hcache.
      * eapply cacheBalanced_same; [|exact Hw]. exact Hcache.
    + eapply cacheBalanced_same; [|exact Hw]. exact Hcache.
Qed.

Lemma GetEnhancedBalance_balanced E address w :
  cacheNative w -> cacheBalanced w ->
  cacheBalanced (snd (GetEnhancedBalance E address w))
  /\ forall b, fst (GetEnhancedBalance E address w) = Ok b -> goodBalance b.
Proof.
  intros Hn Hw. rewrite GetEnhancedBalance_unfold.
  pose proof (getFromCache_cache E address w) as Hcache.
  assert (Hfetch : forall w1, cache w1 = cache w ->
            cacheBalanced (snd (fetchBalance E address w w1))
            /\ forall b, fst (fetchBalance E address w w1) = Ok b -> goodBalance b).
  { intros w1 Hc. unfold fetchBalance.
    destruct (balance_api E (steps w1) _) as [resp|]; simpl;
      [|split; [eapply cacheBalanced_same; [|exact Hw]; exact Hc | discriminate]].
    match goal with |- context [GetUTXOs E address ?w2] =>
      pose proof (GetUTXOs_balanced E address w2) as H3;
      destruct (GetUTXOs_native E address w2) as [_ H3n];
        [eapply cacheNative_same; [|exact Hn]; exact Hc|];
      specialize (H3 ltac:(eapply cacheBalanced_same; [|exact Hw]; exact Hc));
      destruct (GetUTXOs E address w2) as [[utxos|e] w3] end; simpl in *;
      [|split; [exact H3 | discriminate]].
    pose proof (computeBalance_good (config.UTXO (cfg w)) resp utxos (H3n _ eq_refl)) as Hgood.
    split; [|intros b [= <-]; exact Hgood].
    destruct (cachingEnabled w); [|exact H3].
    unfold cacheBalance.
    pose proof (getFromCache_cache E address w3) as Hc4.
    destruct (getFromCache E address w3) as [[c|] w4] eqn:Hget; simpl in Hc4.
    - apply cacheBalanced_store; [eapply cacheBalanced_same; eauto|].
      simpl. intros b [= <-]. exact Hgood.
    - apply cacheBalanced_store; [|simpl; intros b [= <-]; exact Hgood].
      eapply cacheBalanced_same; [|exact H3]. exact Hc4. }
  destruct (getFromCache E address w) as [[c|] w1] eqn:Hget; simpl in Hcache.
  - destruct (Balance c) as [b0|] eqn:Hb; [|apply Hfetch, Hcache].
    simpl. split; [eapply cacheBalanced_same; eauto|].
    intros b [= <-]. apply (Hw address c b0); [|exact Hb].
    apply (getFromCache_Some E address w c). rewrite Hget. reflexivity.
  - apply Hfetch, Hcache.
Qed.

Lemma run_balanced E op w :
  cacheNative w -> cacheBalanced w -> cacheBalanced (run E op w).
Proof.
  intros Hn Hw. destruct op; simpl.
  - apply GetUTXOs_balanced, Hw.
  - apply GetEnhancedBalance_balanced; assumption.
  - unfold GetNativeBalance, bind.
    destruct (GetEnhancedBalance_balanced E address w Hn Hw) as [H _].
    destruct (GetEnhancedBalance E address w) as [[b|e] w1]; assumption.
  - unfold GetNonNativeBalance, bind.
    destruct (GetEnhancedBalance_balanced E address w Hn Hw) as [H _].
    destruct (GetEnhancedBalance E address w) as [[b|e] w1]; assumption.
  - unfold GetConfirmedBalance, GetNativeBalance, bind.
    destruct (GetEnhancedBalance_balanced E address w Hn Hw) as [H _].
    destruct (GetEnhancedBalance E address w) as [[b|e] w1]; assumption.
  - rewrite ManagerProofs.SelectUTXOs_unfold.
    pose proof (GetUTXOs_balanced E address
                  (ManagerProofs.atFetch address amount feeRate w) Hw) as H.
    destruct (GetUTXOs E address _) as [[l|e] w1]; exact H.
  - unfold SelectUTXOsForTokenTransfer, bind, logEvent. simpl.
    match goal with |- context [GetUTXOs E address ?w0] =>
      pose proof (GetUTXOs_balanced E address w0 Hw) as H;
      destruct (GetUTXOs E address w0) as [[l|e] w1] end; exact H.
  - intros a e b. simpl. rewrite lookup_empty. discriminate.
  - intros a e b. simpl. rewrite lookup_delete. case_decide; [discriminate|]. apply Hw.
  - exact Hw.
Qed.

Lemma reachable_balanced E w : reachable E w -> cacheBalanced w.
Proof.
  induction 1 as [c|op w Hr IH].
  - intros a e b. simpl. rewrite lookup_empty. discriminate.
  - apply run_balanced; [apply (reachable_native E), Hr | exact IH].
Qed.

(** X7. Whatever calls were made before and whatever the service answers,
    [GetNonNativeBalance] never reports a token: when it returns a balance,
    the token map is empty and the count of non-native outputs is 0,
    because every output the manager fetches is tagged native. *)
Theorem GetNonNativeBalance_reports_no_token E address w nn :
  reachable E w ->
  fst (GetNonNativeBalance E address w) = Ok nn ->
  Tokens nn = ∅ /\ nn_UTXOCount nn = 0.
Proof.
  intros Hreach. unfold GetNonNativeBalance, bind.
  destruct (GetEnhancedBalance_balanced E address w
              (reachable_native E w Hreach) (reachable_balanced E w Hreach)) as [_ Hb].
  destruct (GetEnhancedBalance E address w) as [[b|e] w1]; simpl in *; [|discriminate].
  intros [= <-]. destruct (Hb b eq_refl) as (? & ? & _). auto.
Qed.

Lemma GetNonNativeBalance_reports_no_token_witness :
  let E := scenarios.env scenarios.threeOutputs 0 1 in
  let w := run E (OpGetUTXOs scenarios.addr) scenarios.fresh in
  exists nn, fst (GetNonNativeBalance E scenarios.addr w) = Ok nn
             /\ Tokens nn = ∅ /\ nn_UTXOCount nn = 0.
Proof.
  intros E w. eexists. split; [vm_compute; reflexivity|].
  apply (GetNonNativeBalance_reports_no_token E scenarios.addr w).
  - apply reachable_run, reachable_new.
  - vm_compute. reflexivity.
Defined.

(** [GetNativeBalance], [GetConfirmedBalance] and [GetEnhancedBalance] made
    in the same state agree: each performs the same requests and leaves
    the manager in the same state, the confirmed balance is the confirmed
    field of the native balance, and in every native balance the manager
    returns the total is the 64-bit sum of the confirmed and unconfirmed
    amounts and equals the overall total. *)
Lemma native_balance_getters_agree E address w nb :
  reachable E w ->
  fst (GetNativeBalance E address w) = Ok nb ->
  nb_Total nb = add64 (nb_Confirmed nb) (nb_Unconfirmed nb)
  /\ GetConfirmedBalance E address w
     = (Ok (nb_Confirmed nb), snd (GetNativeBalance E address w))
  /\ exists b, GetEnhancedBalance E address w = (Ok b, snd (GetNativeBalance E address w))
               /\ Native b = nb /\ Total b = nb_Total nb.
Proof.
  intros Hreach. unfold GetConfirmedBalance, GetNativeBalance, bind.
  destruct (GetEnhancedBalance_balanced E address w
              (reachable_native E w Hreach) (reachable_balanced E w Hreach)) as [_ Hb].
  destruct (GetEnhancedBalance E address w) as [[b|e] w1]; simpl in *; [|discriminate].
  intros [= <-]. destruct (Hb b eq_refl) as (_ & _ & Ht & Htot & _).
  split; [exact Ht|]. split; [reflexivity|]. exists b. auto.
Qed.

Lemma native_balance_getters_agree_witness :
  let E := scenarios.env scenarios.threeOutputs 0 1 in
  exists nb, fst (GetNativeBalance E scenarios.addr scenarios.fresh) = Ok nb
             /\ fst (GetConfirmedBalance E scenarios.addr scenarios.fresh)
                = Ok (nb_Confirmed nb).
Proof.
  intros E. eexists. split; [vm_compute; reflexivity|].
  destruct (native_balance_getters_agree E scenarios.addr scenarios.fresh _
              (reachable_new E _) eq_refl) as (_ & -> & _).
  reflexivity.
Defined.

End CacheProofs.

(** ** The token-spend selector *)

Module TokenProofs.

Import types utxo manager ManagerProofs CacheProofs.

Definition isToken (tokenID : string) (u : UTXO) : bool :=
  negb (IsNative u) && String.eqb (TokenID u) tokenID.

Lemma splitByToken_filter tokenID all : forall tok nat,
  splitByToken tokenID all tok nat =
    (tok ++ List.filter (isToken tokenID) all, nat ++ List.filter IsNative all).
Proof.
  induction all as [|u all IH]; intros tok nat; simpl.
  - rewrite !app_nil_r. reflexivity.
  - unfold isToken at 1. destruct (IsNative u); simpl.
    + rewrite IH, <- app_assoc. reflexivity.
    + destruct (String.eqb (TokenID u) tokenID); rewrite IH, <- ?app_assoc; reflexivity.
Qed.

Lemma filter_isToken_Forall tokenID all :
  Forall (fun u => IsNative u = false /\ TokenID u = tokenID) (List.filter (isToken tokenID) all).
Proof.
  apply Forall_forall. intros u Hu. apply list_elem_of_In, filter_In in Hu as [_ Hu].
  unfold isToken in Hu. apply andb_true_iff in Hu as [Hn He].
  apply negb_true_iff in Hn. apply String.eqb_eq in He. auto.
Qed.

Lemma filter_IsNative_Forall all :
  Forall (fun u => IsNative u = true) (List.filter IsNative all).
Proof.
  apply Forall_forall. intros u Hu. apply list_elem_of_In, filter_In in Hu as [_ Hu]. exact Hu.
Qed.

Lemma filter_isToken_native tokenID all :
  allNative all -> List.filter (isToken tokenID) all = [].
Proof.
  induction 1 as [|u all Hu _ IH]; [reflexivity|]. simpl.
  unfold isToken at 1. rewrite Hu. simpl. exact IH.
Qed.

Definition sumKey (key : UTXO -> Z) (l : list UTXO) : Z := foldr (fun u acc => key u + acc) 0 l.

Lemma sumKey_perm key l1 l2 : Permutation l1 l2 -> sumKey key l1 = sumKey key l2.
Proof. induction 1; simpl; lia. Qed.

Lemma totalTokenLoop_wrap l : forall t,
  wrap64 (totalTokenLoop l t) = wrap64 (t + sumKey TokenAmount l).
Proof.
  induction l as [|u l IH]; intros t; simpl.
  - f_equal. lia.
  - rewrite IH. unfold add64. rewrite wrap64_add_l. f_equal. lia.
Qed.

(** The loops with [break]: a prefix is taken, at least one element when
    there is one, and either the target is reached or everything is
    taken. *)
Lemma takeUntil_prefix key target sorted : forall sel tot sel' tot',
  wrap64 tot = tot ->
  takeUntil key target sorted sel tot = (sel', tot') ->
  exists k : nat,
    (k <= length sorted)%nat /\
    sel' = sel ++ take k sorted /\
    tot' = wrap64 (tot + sumKey key (take k sorted)) /\
    (target <= tot' \/ k = length sorted).
Proof.
  induction sorted as [|u rest IH]; intros sel tot sel' tot' Htot H; simpl in H.
  - inversion H; subst. exists 0%nat. simpl. rewrite app_nil_r, Z.add_0_r. auto.
  - destruct (Z.leb_spec target (add64 tot (key u))) as [Hle|Hgt].
    + inversion H; subst. exists 1%nat. simpl. rewrite Z.add_0_r.
      split; [lia|]. split; [reflexivity|]. split; [reflexivity|]. left. exact Hle.
    + apply IH in H as (k & Hk & Hsel & Htot' & Hstop); [|apply wrap64_idem].
      exists (S k). simpl. split; [lia|]. split; [rewrite Hsel, <- app_assoc; reflexivity|].
      split; [|destruct Hstop; [left; assumption | right; lia]].
      rewrite Htot'. unfold add64. rewrite wrap64_add_l. f_equal. lia.
Qed.

Lemma totalTokenLoop_eq l : forall t,
  wrap64 t = t -> totalTokenLoop l t = wrap64 (t + sumKey TokenAmount l).
Proof.
  induction l as [|u l IH]; intros t Ht; simpl.
  - rewrite Z.add_0_r. congruence.
  - rewrite IH by apply wrap64_idem. unfold add64. rewrite wrap64_add_l. f_equal. lia.
Qed.

Lemma wrap64_0 : wrap64 0 = 0.
Proof. apply wrap64_fits. unfold fits64. lia. Qed.

Lemma selectForTokenFrom_Ok all tokenID amount feeRate sel fee :
  selectForTokenFrom all tokenID amount feeRate = Ok (sel, fee) ->
  exists kt kn : nat,
    let tokens := take kt (sortUTXOsByTokenAmount (List.filter (isToken tokenID) all)) in
    let natives := take kn (sortUTXOsByValue (List.filter IsNative all)) in
    sel = tokens ++ natives /\
    fee = feeFor (len tokens) feeRate /\
    amount <= wrap64 (sumKey TokenAmount tokens) /\
    fee <= wrap64 (sumValues natives).
Proof.
  unfold selectForTokenFrom. rewrite splitByToken_filter. cbn [app].
  set (tokenUTXOs := List.filter (isToken tokenID) all).
  set (nativeUTXOs := List.filter IsNative all).
  destruct (Z.ltb_spec (totalTokenLoop tokenUTXOs 0) amount) as [|Hcover]; [discriminate|].
  destruct (takeUntil TokenAmount amount _ [] 0) as [selT amtT] eqn:HT.
  destruct (takeUntil Value _ _ [] 0) as [selN totN] eqn:HN.
  destruct (Z.ltb_spec totN (mul64 (estimatedSize (len selT)) feeRate)) as [|Hfee];
    [discriminate|].
  intros [= <- <-].
  apply takeUntil_prefix in HT as (kt & _ & -> & -> & HstopT); [|apply wrap64_0].
  apply takeUntil_prefix in HN as (kn & _ & -> & -> & _); [|apply wrap64_0].
  exists kt, kn. cbn [app] in *. rewrite Z.add_0_l in *.
  split; [reflexivity|]. split; [reflexivity|]. split; [|exact Hfee].
  destruct HstopT as [Hle | ->]; [exact Hle|].
  rewrite firstn_all.
  rewrite totalTokenLoop_eq in Hcover by apply wrap64_0.
  rewrite Z.add_0_l in Hcover.
  rewrite (sumKey_perm _ _ _ (sortUTXOsByTokenAmount_perm tokenUTXOs)). exact Hcover.
Qed.

Lemma SelectUTXOsForTokenTransfer_unfold E address tokenID amount feeRate w :
  SelectUTXOsForTokenTransfer E address tokenID amount feeRate w =
    match GetUTXOs E address
            (logged w (EvSelectUTXOsForTokenTransfer address tokenID amount feeRate)) with
    | (Err e, w1) => (Err e, w1)
    | (Ok allUTXOs, w1) => (selectForTokenFrom allUTXOs tokenID amount feeRate, w1)
    end.
Proof.
  unfold SelectUTXOsForTokenTransfer, bind, logEvent, ret, logged. simpl.
  destruct (GetUTXOs E address _) as [[all|e] w1]; reflexivity.
Qed.

(** X8. When [SelectUTXOsForTokenTransfer] succeeds, it returns token outputs
    of the requested token followed by native outputs; the fee is that of
    a transaction with the token outputs as its only inputs at the rate as
    supplied, [(10 + 148 k + 34 + 34) * feeRate] when that fits 64 bits (so
    0 at rate 0); the token outputs cover the requested token amount and
    the native outputs cover the fee. *)
Theorem SelectUTXOsForTokenTransfer_shape E address tokenID amount feeRate w sel fee :
  fst (SelectUTXOsForTokenTransfer E address tokenID amount feeRate w) = Ok (sel, fee) ->
  exists tokens natives,
    sel = tokens ++ natives /\
    Forall (fun u => IsNative u = false /\ TokenID u = tokenID) tokens /\
    Forall (fun u => IsNative u = true) natives /\
    fee = wrap64 ((10 + len tokens * 148 + 34 + 34) * feeRate) /\
    (fits64 ((10 + len tokens * 148 + 34 + 34) * feeRate) ->
       fee = (10 + len tokens * 148 + 34 + 34) * feeRate) /\
    (feeRate = 0 -> fee = 0) /\
    amount <= wrap64 (sumKey TokenAmount tokens) /\
    fee <= wrap64 (sumValues natives).
Proof.
  rewrite SelectUTXOsForTokenTransfer_unfold.
  destruct (GetUTXOs E address _) as [[all|e] w1]; simpl; [|discriminate].
  intros H. apply selectForTokenFrom_Ok in H as (kt & kn & Hsel & Hfee & Hamt & Hcov).
  cbv zeta in *. rewrite feeFor_wrap in Hfee.
  eexists _, _. split; [exact Hsel|].
  split; [apply Forall_take; rewrite sortUTXOsByTokenAmount_perm; apply filter_isToken_Forall|].
  split; [apply Forall_take; rewrite sortUTXOsByValue_perm; apply filter_IsNative_Forall|].
  split; [exact Hfee|]. split; [intros Hfit; rewrite Hfee; apply wrap64_fits, Hfit|].
  split; [|split; [exact Hamt | exact Hcov]].
  intros ->. rewrite Hfee, Z.mul_0_r. apply wrap64_0.
Qed.

(** A hand-made cache entry with two outputs of token ["T"] (60 and 50
    units) around a native output of 5,000: 100 units at rate 1 take both
    token outputs, fee 374, paid from the native output. *)
Lemma SelectUTXOsForTokenTransfer_shape_witness :
  let token amount := {| TxID := "t"; Vout := 0; Value := 1; ScriptPubKey := "";
                         Address := scenarios.addr; Confirmations := 6; Height := 1;
                         IsNative := false; TokenID := "T"; TokenAmount := amount |} in
  let native := toUTXO (scenarios.response "n" 5000 6) in
  let w := {| cfg := config.getDefaultConfig;
              cache := {[ scenarios.addr := {| UTXOs := [token 50; native; token 60];
                                               Balance := None; Timestamp := 0 |} ]};
              steps := 0; trace := [] |} in
  exists tokens natives,
    [token 60; token 50; native] = tokens ++ natives /\
    Forall (fun u => IsNative u = false /\ TokenID u = "T") tokens /\
    Forall (fun u => IsNative u = true) natives /\
    374 = wrap64 ((10 + len tokens * 148 + 34 + 34) * 1).
Proof.
  intros token native w.
  destruct (SelectUTXOsForTokenTransfer_shape (scenarios.env [] 0 1) scenarios.addr "T" 100 1 w
              [token 60; token 50; native] 374 ltac:(vm_compute; reflexivity))
    as (tokens & natives & H1 & H2 & H3 & H4 & _).
  exists tokens, natives. auto.
Defined.

Lemma GetUTXOs_Err E address w e : fst (GetUTXOs E address w) = Err e -> e = ErrGetUTXOs.
Proof.
  rewrite GetUTXOs_unfold.
  destruct (getFromCache E address w) as [[c|] w1]; simpl; [discriminate|].
  destruct (unspent_api E (steps w1) _); simpl; congruence.
Qed.

(** Among native outputs only, a token selection finds no token output. *)
Lemma selectForTokenFrom_native all tokenID amount feeRate :
  allNative all -> 0 < amount ->
  selectForTokenFrom all tokenID amount feeRate = Err (ErrInsufficientTokenBalance amount 0).
Proof.
  intros Hall Hamt. unfold selectForTokenFrom.
  rewrite splitByToken_filter, filter_isToken_native by exact Hall.
  simpl. destruct (Z.ltb_spec 0 amount); [reflexivity | lia].
Qed.

(** X9. Through the real fetch path no token output ever exists, so a token
    selection for a positive amount never succeeds: it fails on the fetch or
    reports an available token balance of 0. *)
Theorem SelectUTXOsForTokenTransfer_never_funded E address tokenID amount feeRate w :
  reachable E w ->
  0 < amount ->
  fst (SelectUTXOsForTokenTransfer E address tokenID amount feeRate w) = Err ErrGetUTXOs
  \/ fst (SelectUTXOsForTokenTransfer E address tokenID amount feeRate w)
     = Err (ErrInsufficientTokenBalance amount 0).
Proof.
  intros Hreach Hamt. rewrite SelectUTXOsForTokenTransfer_unfold.
  assert (Hnat : cacheNative
            (logged w (EvSelectUTXOsForTokenTransfer address tokenID amount feeRate)))
    by (eapply cacheNative_same; [|apply (reachable_native E), Hreach]; reflexivity).
  destruct (GetUTXOs_native E address _ Hnat) as [_ Hall].
  pose proof (GetUTXOs_Err E address
                (logged w (EvSelectUTXOsForTokenTransfer address tokenID amount feeRate)))
    as Herr.
  destruct (GetUTXOs E address _) as [[all|e] w1]; simpl in *.
  - right. apply selectForTokenFrom_native; [apply Hall; reflexivity | exact Hamt].
  - left. rewrite (Herr e eq_refl). reflexivity.
Qed.

Lemma SelectUTXOsForTokenTransfer_never_funded_witness :
  let E := scenarios.env scenarios.threeOutputs 0 1 in
  fst (SelectUTXOsForTokenTransfer E scenarios.addr "T" 100 5
         (run E (OpGetUTXOs scenarios.addr) scenarios.fresh))
    = Err (ErrInsufficientTokenBalance 100 0).
Proof.
  intros E.
  destruct (SelectUTXOsForTokenTransfer_never_funded E scenarios.addr "T" 100 5
              (run E (OpGetUTXOs scenarios.addr) scenarios.fresh)
              ltac:(apply reachable_run, reachable_new) ltac:(lia)) as [H|H].
  - vm_compute in H. discriminate.
  - exact H.
Defined.

(** The same state under another transaction configuration (fee-rate
    bounds, default rate, dust limit, inclusion flags). *)
Definition withTransactionConfig (w : World) (t : config.TransactionConfig) : World :=
  {| cfg := {| config.Network := config.Network (cfg w); config.UTXO := config.UTXO (cfg w);
               config.Transaction := t |};
     cache := cache w; steps := steps w; trace := trace w |}.

Lemma getFromCache_withTransactionConfig E address w t :
  getFromCache E address (withTransactionConfig w t) =
    (fst (getFromCache E address w), withTransactionConfig (snd (getFromCache E address w)) t).
Proof.
  rewrite !getFromCache_unfold.
  change (cachingEnabled (withTransactionConfig w t)) with (cachingEnabled w).
  change (ttl (withTransactionConfig w t)) with (ttl w).
  cbn [cache steps withTransactionConfig].
  destruct (negb (cachingEnabled w)); [reflexivity|].
  destruct (cache w !! address); reflexivity.
Qed.

Lemma GetUTXOs_withTransactionConfig E address w t :
  GetUTXOs E address (withTransactionConfig w t) =
    (fst (GetUTXOs E address w), withTransactionConfig (snd (GetUTXOs E address w)) t).
Proof.
  rewrite !GetUTXOs_unfold, getFromCache_withTransactionConfig.
  destruct (getFromCache E address w) as [[c|] w1]; cbn [fst snd]; [reflexivity|].
  change (unspentURL (withTransactionConfig w t) address) with (unspentURL w address).
  cbn [steps withTransactionConfig].
  destruct (unspent_api E (steps w1) _); [|reflexivity].
  change (cachingEnabled (withTransactionConfig w t)) with (cachingEnabled w).
  destruct (cachingEnabled w); reflexivity.
Qed.

(** X10. [SelectUTXOsForTokenTransfer] applies no fee-rate policy: whatever the
    fee rate, it never fails with the out-of-range error, and its result is
    the same under every transaction configuration, so neither the bounds
    nor the default rate play any part. *)
Theorem SelectUTXOsForTokenTransfer_ignores_fee_policy E address tokenID amount feeRate w :
  (forall rate maxRate,
     fst (SelectUTXOsForTokenTransfer E address tokenID amount feeRate w)
       <> Err (ErrFeeRateExceedsMax rate maxRate))
  /\ forall t,
       fst (SelectUTXOsForTokenTransfer E address tokenID amount feeRate
              (withTransactionConfig w t))
       = fst (SelectUTXOsForTokenTransfer E address tokenID amount feeRate w).
Proof.
  split.
  - intros rate maxRate. rewrite SelectUTXOsForTokenTransfer_unfold.
    set (w0 := logged w _).
    assert (Herr : forall e, fst (GetUTXOs E address w0) = Err e -> e = ErrGetUTXOs).
    { intros e. rewrite GetUTXOs_unfold.
      destruct (getFromCache E address w0) as [[c|] w1]; simpl; [discriminate|].
      destruct (unspent_api E (steps w1) _); simpl; congruence. }
    destruct (GetUTXOs E address w0) as [[all|e] w1]; simpl in *.
    + unfold selectForTokenFrom.
      destruct (splitByToken _ _ _ _) as [tok nat].
      destruct (_ <? _); [discriminate|].
      destruct (takeUntil TokenAmount _ _ _ _) as [selT amtT].
      destruct (takeUntil Value _ _ _ _) as [selN totN].
      destruct (_ <? _); discriminate.
    + rewrite (Herr e eq_refl). discriminate.
  - intros t. rewrite !SelectUTXOsForTokenTransfer_unfold.
    change (logged (withTransactionConfig w t)
              (EvSelectUTXOsForTokenTransfer address tokenID amount feeRate))
      with (withTransactionConfig
              (logged w (EvSelectUTXOsForTokenTransfer address tokenID amount feeRate)) t).
    rewrite GetUTXOs_withTransactionConfig.
    destruct (GetUTXOs E address _) as [[all|e] w1]; reflexivity.
Qed.

End TokenProofs.

(** ** The sorts, the selection and the balance *)

Module SelectionProofs.

Import types utxo manager ManagerProofs CacheProofs.

(** The elements of [l] whose key is [v], in their order in [l]. *)
Definition withKey (key : UTXO -> Z) (v : Z) (l : list UTXO) : list UTXO :=
  List.filter (fun u => key u =? v) l.

Lemma bubble_stable key v n : forall l, withKey key v (bubble key n l) = withKey key v l.
Proof.
  induction n as [|n IH]; intros l; [destruct l; reflexivity|].
  destruct l as [|x [|y t]]; try reflexivity. cbn [bubble].
  destruct (Z.ltb_spec (key x) (key y)) as [Hlt|Hge]; unfold withKey in *.
  - cbn [List.filter]. rewrite IH. cbn [List.filter].
    destruct (Z.eqb_spec (key x) v), (Z.eqb_spec (key y) v); try reflexivity. lia.
  - cbn [List.filter]. rewrite IH. reflexivity.
Qed.

Lemma passes_stable key v k : forall l, withKey key v (passes key k l) = withKey key v l.
Proof.
  induction k as [|k IH]; intros l; cbn [passes]; [reflexivity|].
  rewrite IH. apply bubble_stable.
Qed.

(** X11. Both sorts return a permutation of their input in non-increasing order
    of the key (value, token amount), and outputs with equal keys keep the
    order they had in the input. *)
Theorem sorts_descending_stable (l : list UTXO) :
  (Descending Value (sortUTXOsByValue l)
   /\ Permutation (sortUTXOsByValue l) l
   /\ forall v, withKey Value v (sortUTXOsByValue l) = withKey Value v l)
  /\ (Descending TokenAmount (sortUTXOsByTokenAmount l)
   /\ Permutation (sortUTXOsByTokenAmount l) l
   /\ forall v, withKey TokenAmount v (sortUTXOsByTokenAmount l) = withKey TokenAmount v l).
Proof.
  split; (split; [apply bubbleSort_sorted|]; split; [apply passes_perm|]);
    intros v; apply passes_stable.
Qed.

(** *** The balance computed by [GetEnhancedBalance] *)

Definition goodTokenBalance (k : string) (tb : TokenBalance) : Prop :=
  tb_TokenID tb = k /\ k <> ""
  /\ tb_Total tb = wrap64 (tb_Confirmed tb + tb_Unconfirmed tb).

Lemma addTokenUTXO_good utxoConfig m u :
  (forall k tb, m !! k = Some tb -> goodTokenBalance k tb) ->
  forall k tb, addTokenUTXO utxoConfig m u !! k = Some tb -> goodTokenBalance k tb.
Proof.
  intros Hm k tb. unfold addTokenUTXO.
  destruct (String.eqb_spec (TokenID u) "") as [|Hne]; [apply Hm|].
  rewrite lookup_insert. case_decide as Hk; [|apply Hm].
  subst k. intros [= <-].
  set (old := match m !! TokenID u with
              | Some tb => tb
              | None => {| tb_TokenID := TokenID u; tb_Confirmed := 0; tb_Unconfirmed := 0;
                           tb_Total := 0; tb_UTXOCount := 0 |}
              end).
  assert (Hold : goodTokenBalance (TokenID u) old).
  { unfold old. destruct (m !! TokenID u) as [tb|] eqn:Hl; [apply Hm, Hl|].
    split; [reflexivity|]. split; [exact Hne|]. simpl. symmetry. apply TokenProofs.wrap64_0. }
  destruct Hold as (Hid & _ & Htot).
  split; [exact Hid|]. split; [exact Hne|].
  cbn [tb_Total tb_Confirmed tb_Unconfirmed].
  unfold add64. rewrite Htot, wrap64_add_l.
  destruct (_ <=? _); [rewrite wrap64_add_l | rewrite wrap64_add_r]; f_equal; lia.
Qed.

Lemma fold_addTokenUTXO_good utxoConfig l : forall m,
  (forall k tb, m !! k = Some tb -> goodTokenBalance k tb) ->
  forall k tb, fold_left (addTokenUTXO utxoConfig) l m !! k = Some tb -> goodTokenBalance k tb.
Proof.
  induction l as [|u l IH]; intros m Hm; [exact Hm|].
  simpl. apply IH, addTokenUTXO_good, Hm.
Qed.

Lemma filter_split_length {A} (f : A -> bool) (l : list A) :
  (length (List.filter f l) + length (List.filter (fun x => negb (f x)) l) = length l)%nat.
Proof. induction l as [|x l IH]; simpl; [reflexivity|]. destruct (f x); simpl; lia. Qed.

(** X12. The balance [GetEnhancedBalance] computes: the native figures are those
    of the balance answer, with total = confirmed + unconfirmed (in 64-bit
    arithmetic); the outputs are counted once, as native or as non-native;
    every token entry is filed under its own non-empty token id and its
    total is its confirmed plus its unconfirmed amount (in 64-bit
    arithmetic). *)
Theorem computeBalance_totals utxoConfig balanceResp utxos :
  let b := computeBalance utxoConfig balanceResp utxos in
  nb_Confirmed (Native b) = r_Confirmed balanceResp
  /\ nb_Unconfirmed (Native b) = r_Unconfirmed balanceResp
  /\ nb_Total (Native b) = wrap64 (nb_Confirmed (Native b) + nb_Unconfirmed (Native b))
  /\ Total b = nb_Total (Native b)
  /\ nb_UTXOCount (Native b) + nn_UTXOCount (NonNative b) = len utxos
  /\ forall k tb, Tokens (NonNative b) !! k = Some tb ->
       tb_TokenID tb = k /\ k <> ""
       /\ tb_Total tb = wrap64 (tb_Confirmed tb + tb_Unconfirmed tb).
Proof.
  intros b. unfold b, computeBalance. cbn.
  repeat split; try reflexivity.
  - unfold len. rewrite <- (filter_split_length IsNative utxos). lia.
  - eapply (fold_addTokenUTXO_good utxoConfig _ ∅); [|exact H].
    intros k' tb'. rewrite lookup_empty. discriminate.
  - eapply (fold_addTokenUTXO_good utxoConfig _ ∅); [|exact H].
    intros k' tb'. rewrite lookup_empty. discriminate.
  - eapply (fold_addTokenUTXO_good utxoConfig _ ∅); [|exact H].
    intros k' tb'. rewrite lookup_empty. discriminate.
Qed.

(** *** What [SelectUTXOs] can select *)

Definition included (txConfig : config.TransactionConfig) (u : UTXO) : bool :=
  if IsNative u then config.IncludeNativeUTXOs txConfig
  else config.IncludeNonNativeUTXOs txConfig.

Lemma filter_sublist {A} (f : A -> bool) (l : list A) : sublist (List.filter f l) l.
Proof.
  induction l as [|x l IH]; simpl; [constructor|].
  destruct (f x); [apply sublist_skip | apply sublist_cons]; exact IH.
Qed.

(** X13. Every output [SelectUTXOs] returns was returned by the fetch and passes
    the inclusion flags of the configuration, and no output is used more
    often than the fetch lists it. *)
Theorem SelectUTXOs_selected_from_fetch E address amount feeRate w allUTXOs w1 sel fee :
  GetUTXOs E address (atFetch address amount feeRate w) = (Ok allUTXOs, w1) ->
  fst (SelectUTXOs E address amount feeRate w) = Ok (sel, fee) ->
  sel ⊆+ allUTXOs
  /\ Forall (fun u => included (config.Transaction (cfg w)) u = true) sel
  /\ sel <> [].
Proof.
  intros Hfetch Hsel. rewrite SelectUTXOs_unfold, Hfetch in Hsel. simpl in Hsel.
  apply selectFrom_Ok, selectLoop_inl in Hsel as (k & Hk & -> & _).
  rewrite filterAvailable_filter in *. cbn [app] in *.
  set (txConfig := config.Transaction (cfg w)) in *.
  fold (included txConfig) in *.
  set (candidates := List.filter (included txConfig) allUTXOs) in *.
  split; [|split].
  - transitivity (sortUTXOsByValue candidates).
    + apply sublist_submseteq, sublist_take.
    + rewrite sortUTXOsByValue_perm. apply sublist_submseteq, filter_sublist.
  - apply Forall_take. rewrite sortUTXOsByValue_perm.
    apply Forall_forall. intros u Hu. apply list_elem_of_In, filter_In in Hu as [_ Hu].
    exact Hu.
  - destruct (sortUTXOsByValue candidates); simpl in *; [lia|].
    destruct k; [lia | discriminate].
Qed.

Lemma SelectUTXOs_selected_from_fetch_witness :
  let E := scenarios.env scenarios.threeOutputs 0 1 in
  map toUTXO [scenarios.response "b2" 50000 6; scenarios.response "a1" 30000 6]
    ⊆+ map toUTXO scenarios.threeOutputs.
Proof.
  intros E.
  apply (SelectUTXOs_selected_from_fetch E scenarios.addr 49000 5 scenarios.fresh
           (map toUTXO scenarios.threeOutputs)
           (snd (GetUTXOs E scenarios.addr (atFetch scenarios.addr 49000 5 scenarios.fresh)))
           _ 1870 ltac:(vm_compute; reflexivity) ltac:(vm_compute; reflexivity)).
Defined.

Lemma filter_included_native txConfig l :
  allNative l -> config.IncludeNativeUTXOs txConfig = false ->
  List.filter (fun u => if IsNative u then config.IncludeNativeUTXOs txConfig
                        else config.IncludeNonNativeUTXOs txConfig) l = [].
Proof.
  intros Hall Hexcl. induction Hall as [|x l Hx _ IH]; [reflexivity|].
  cbn [List.filter]. rewrite Hx. cbv beta iota. rewrite Hexcl at 1. exact IH.
Qed.

(** X14. With native outputs excluded by the configuration, [SelectUTXOs] never
    returns a selection, whatever the amount and the fee rate: every output
    of the fetch is native, so nothing passes the filter. *)
Theorem SelectUTXOs_native_excluded E address amount feeRate w :
  reachable E w ->
  config.IncludeNativeUTXOs (config.Transaction (cfg w)) = false ->
  fst (SelectUTXOs E address amount feeRate w) = Err ErrGetUTXOs
  \/ fst (SelectUTXOs E address amount feeRate w) = Err (ErrNoUTXOs address)
  \/ fst (SelectUTXOs E address amount feeRate w) = Err ErrNoSuitableUTXOs.
Proof.
  intros Hreach Hexcl. rewrite SelectUTXOs_unfold.
  assert (Hnat : cacheNative (atFetch address amount feeRate w))
    by (eapply cacheNative_same; [|apply (reachable_native E), Hreach]; reflexivity).
  destruct (GetUTXOs_native E address _ Hnat) as [_ Hall].
  assert (Herr : forall e, fst (GetUTXOs E address (atFetch address amount feeRate w)) = Err e ->
                           e = ErrGetUTXOs).
  { intros e. rewrite GetUTXOs_unfold.
    destruct (getFromCache E address _) as [[c|] w1]; simpl; [discriminate|].
    destruct (unspent_api E (steps w1) _); simpl; congruence. }
  destruct (GetUTXOs E address _) as [[all|e] w1]; simpl in *.
  - right. specialize (Hall all eq_refl). unfold selectFrom.
    rewrite !len_eqb_0. destruct all as [|u all]; [left; reflexivity|right].
    rewrite filterAvailable_filter. cbn [app].
    rewrite filter_included_native by assumption. reflexivity.
  - left. rewrite (Herr e eq_refl). reflexivity.
Qed.

Lemma SelectUTXOs_native_excluded_witness :
  let E := scenarios.env scenarios.threeOutputs 0 1 in
  let c := {| config.Network := config.getTestnetConfig;
              config.UTXO := config.getDefaultUTXOConfig;
              config.Transaction :=
                {| config.DefaultFeeRate := 5; config.MinFeeRate := 1;
                   config.MaxFeeRate := 1000; config.DustLimit := 546;
                   config.MaxTransactionSize := 100000; config.EnableRBF := false;
                   config.IncludeNativeUTXOs := false;
                   config.IncludeNonNativeUTXOs := true |} |} in
  fst (SelectUTXOs E scenarios.addr 1000 5 (NewManager c)) = Err ErrNoSuitableUTXOs.
Proof.
  intros E c.
  destruct (SelectUTXOs_native_excluded E scenarios.addr 1000 5 (NewManager c)
              ltac:(apply reachable_new) ltac:(reflexivity)) as [H|[H|H]].
  - vm_compute in H. discriminate.
  - vm_compute in H. discriminate.
  - exact H.
Defined.

(** X15. When the supplied rate is not below the minimum and nothing overflows,
    the insufficient-funds error of [SelectUTXOs] reports the total of all
    candidates as available and the amount plus the fee of a transaction
    spending all of them as needed, and the available amount is below the
    needed one. *)
Theorem SelectUTXOs_insufficient_funds_shortfall
    E address amount feeRate w allUTXOs w1 need have :
  let txConfig := config.Transaction (cfg w) in
  let candidates := filterAvailable txConfig allUTXOs [] in
  GetUTXOs E address (atFetch address amount feeRate w) = (Ok allUTXOs, w1) ->
  config.MinFeeRate txConfig <= feeRate ->
  0 <= amount -> 0 <= feeRate ->
  Forall (fun u => 0 <= Value u) candidates ->
  sumValues candidates <= max_int64 ->
  amount + (10 + 148 * len candidates + 34 + 34) * feeRate <= max_int64 ->
  fst (SelectUTXOs E address amount feeRate w) = Err (ErrInsufficientFunds need have) ->
  have = sumValues candidates
  /\ need = amount + (10 + 148 * len candidates + 34 + 34) * feeRate
  /\ have < need.
Proof.
  intros txConfig candidates Hfetch Hmin Hamt Hrate Hvals Htot Hneed Hres.
  destruct (SelectUTXOs_insufficient_report E address amount feeRate w allUTXOs w1 need have
              Hfetch Hres) as (Hhave & Hneed' & Hfail).
  fold txConfig candidates in Hhave, Hneed', Hfail.
  assert (Hsum : wrap64 (sumValues candidates) = sumValues candidates).
  { apply wrap64_fits. pose proof (sumValues_nonneg _ Hvals).
    unfold fits64, max_int64 in *. lia. }
  assert (Hfee : add64 amount (feeFor (len candidates) feeRate)
                 = amount + (10 + 148 * len candidates + 34 + 34) * feeRate).
  { rewrite feeFor_wrap. unfold add64.
    pose proof (len_nonneg candidates).
    replace (10 + len candidates * 148 + 34 + 34)
      with (10 + 148 * len candidates + 34 + 34) by lia.
    assert (0 <= (10 + 148 * len candidates + 34 + 34) * feeRate).
    { apply Z.mul_nonneg_nonneg; lia. }
    rewrite (wrap64_fits ((10 + 148 * len candidates + 34 + 34) * feeRate))
      by (unfold fits64, max_int64 in *; lia).
    apply wrap64_fits. unfold fits64, max_int64 in *. lia. }
  rewrite Hsum in Hhave. rewrite Hfee in Hneed'.
  split; [exact Hhave|]. split; [exact Hneed'|].
  destruct (decide (candidates = [])) as [Hnil|Hne].
  - exfalso. rewrite SelectUTXOs_unfold, Hfetch in Hres. simpl in Hres.
    unfold selectFrom in Hres. fold txConfig candidates in Hres. rewrite Hnil in Hres.
    destruct (len allUTXOs =? 0); discriminate.
  - specialize (Hfail (length (sortUTXOsByValue candidates))).
    rewrite firstn_all in Hfail.
    rewrite (sumValues_perm _ _ (sortUTXOsByValue_perm candidates)), Hsum in Hfail.
    unfold effectiveFeeRate in Hfail.
    destruct (Z.ltb_spec feeRate (config.MinFeeRate txConfig)); [lia|].
    fold (len (sortUTXOsByValue candidates)) in Hfail.
    rewrite sortUTXOsByValue_len, Hfee in Hfail.
    rewrite Hhave, Hneed'. apply Hfail.
    rewrite (Permutation_length (sortUTXOsByValue_perm candidates)).
    destruct candidates; [contradiction | simpl; lia].
Qed.

Lemma SelectUTXOs_insufficient_funds_shortfall_witness :
  let E := scenarios.env [scenarios.response "a1" 100 6] 0 1 in
  2130 = sumValues (filterAvailable config.getDefaultTransactionConfig
                      [toUTXO (scenarios.response "a1" 100 6)] []) + 2030
  /\ 100 < 2130.
Proof.
  intros E.
  destruct (SelectUTXOs_insufficient_funds_shortfall E scenarios.addr 1000 5 scenarios.fresh
              [toUTXO (scenarios.response "a1" 100 6)]
              (snd (GetUTXOs E scenarios.addr (atFetch scenarios.addr 1000 5 scenarios.fresh)))
              2130 100)
    as (H1 & H2 & H3);
    try (vm_compute; first [reflexivity | discriminate]).
  - repeat constructor. vm_compute. discriminate.
  - split; [|exact H3]. vm_compute. reflexivity.
Defined.

(** *** Invalidation *)

(** X16. After [ClearCacheForAddress] the address has no entry, so the next
    lookup misses and the next [GetUTXOs] goes to the service, while the
    lookups of other addresses answer as before; after [ClearCache] every
    lookup misses. *)
Theorem clearing_forgets E address w :
  let w1 := snd (ClearCacheForAddress address w) in
  let w0 := snd (ClearCache w) in
  fst (getFromCache E address w1) = None
  /\ trace (snd (GetUTXOs E address w1)) = trace w ++ [EvRequest (unspentURL w address)]
  /\ (forall other, other <> address ->
        fst (getFromCache E other w1) = fst (getFromCache E other w))
  /\ (forall any, fst (getFromCache E any w0) = None).
Proof.
  intros w1 w0.
  assert (H1 : cache w1 !! address = None) by apply lookup_delete_eq.
  split; [rewrite (getFromCache_absent E address w1 H1); reflexivity|].
  split; [|split].
  - rewrite GetUTXOs_unfold, (getFromCache_absent E address w1 H1).
    change (unspentURL w1 address) with (unspentURL w address).
    destruct (unspent_api E (steps w1) _); [destruct (cachingEnabled w1)|]; reflexivity.
  - intros other Hne. rewrite !getFromCache_unfold.
    change (cachingEnabled w1) with (cachingEnabled w). change (ttl w1) with (ttl w).
    unfold w1. simpl. rewrite lookup_delete_ne by congruence.
    destruct (negb (cachingEnabled w)); [reflexivity|].
    destruct (cache w !! other); reflexivity.
  - intros any. rewrite getFromCache_absent; [reflexivity|]. apply lookup_empty.
Qed.

End SelectionProofs.

(** ** The transaction builder *)

Module TransactionProofs.

Import types utxo manager transaction.

(** A token transfer that passes [validateParams]. *)
Definition transferOk (t : TokenTransfer) : Prop :=
  tt_TokenID t <> "" /\ tt_To t <> "" /\ 0 < tt_Amount t.

Lemma validateTransfers_None i ts : validateTransfers i ts = None <-> Forall transferOk ts.
Proof.
  revert i. induction ts as [|t ts IH]; intros i; simpl.
  - split; [constructor | reflexivity].
  - rewrite Forall_cons. unfold transferOk at 1.
    destruct (String.eqb_spec (tt_TokenID t) "") as [Hid|Hid];
      [split; [discriminate | intros [(? & ? & ?) _]; congruence]|].
    destruct (String.eqb_spec (tt_To t) "") as [Hto|Hto];
      [split; [discriminate | intros [(? & ? & ?) _]; congruence]|].
    destruct (Z.leb_spec (tt_Amount t) 0) as [Ham|Ham];
      [split; [discriminate | intros [(? & ? & ?) _]; lia]|].
    rewrite IH. intuition.
Qed.

(** What the builder relies on once [validateParams] has returned [nil]. *)
Lemma validateParams_accepted txConfig params :
  fst (validateParams txConfig params) = None ->
  Forall transferOk (TokenTransfers params)
  /\ snd (validateParams txConfig params)
     = if FeeRate params <=? 0
       then withFeeRate params (config.DefaultFeeRate txConfig) else params.
Proof.
  unfold validateParams.
  destruct (String.eqb (From params) ""); [discriminate|].
  destruct (String.eqb (To params) ""); [discriminate|].
  destruct (Amount params <=? 0); [discriminate|].
  destruct (String.eqb (PrivateKey params) ""); [discriminate|].
  destruct (FeeRate params <=? 0).
  - cbn [fst snd TokenTransfers withFeeRate]. rewrite validateTransfers_None. auto.
  - destruct (FeeRate params <? config.MinFeeRate txConfig); [discriminate|].
    destruct (config.MaxFeeRate txConfig <? FeeRate params); [discriminate|].
    cbn [fst snd]. rewrite validateTransfers_None. auto.
Qed.

(** X17. [validateParams] accepts exactly the parameters with non-empty sender,
    recipient and credential, a positive amount, a fee rate that is either
    not positive or within the configured bounds, and well-formed token
    transfers.  A fee rate that is not positive (0 included) is not
    rejected: it is replaced by the configured default rate, which is not
    itself held against the bounds; nothing else of the parameters is
    changed, and a positive rate is never changed. *)
Theorem validateParams_accepts_iff txConfig params :
  let accepted :=
    From params <> "" /\ To params <> "" /\ 0 < Amount params /\ PrivateKey params <> ""
    /\ (FeeRate params <= 0
        \/ config.MinFeeRate txConfig <= FeeRate params <= config.MaxFeeRate txConfig)
    /\ Forall transferOk (TokenTransfers params) in
  (fst (validateParams txConfig params) = None <-> accepted)
  /\ (accepted ->
      snd (validateParams txConfig params)
      = if FeeRate params <=? 0
        then withFeeRate params (config.DefaultFeeRate txConfig) else params)
  /\ (0 < FeeRate params -> snd (validateParams txConfig params) = params).
Proof.
  intros accepted. unfold accepted, validateParams.
  destruct (String.eqb_spec (From params) ""); [simpl; intuition (try discriminate; try congruence; try lia)|].
  destruct (String.eqb_spec (To params) ""); [simpl; intuition (try discriminate; try congruence; try lia)|].
  destruct (Z.leb_spec (Amount params) 0); [simpl; intuition (try discriminate; try congruence; try lia)|].
  destruct (String.eqb_spec (PrivateKey params) ""); [simpl; intuition (try discriminate; try congruence; try lia)|].
  destruct (Z.leb_spec (FeeRate params) 0).
  - cbn [fst snd TokenTransfers withFeeRate]. rewrite validateTransfers_None.
    intuition (try discriminate; try congruence; try lia).
  - destruct (Z.ltb_spec (FeeRate params) (config.MinFeeRate txConfig));
      [simpl; intuition (try discriminate; try congruence; try lia)|].
    destruct (Z.ltb_spec (config.MaxFeeRate txConfig) (FeeRate params));
      [simpl; intuition (try discriminate; try congruence; try lia)|].
    cbn [fst snd]. rewrite validateTransfers_None. intuition (try discriminate; try congruence; try lia).
Qed.

(** The order of the checks of [validateParams]: each error is returned
    exactly when the checks before it pass. *)
Lemma validateParams_fee_rate_errors txConfig params :
  From params <> "" -> To params <> "" -> 0 < Amount params -> PrivateKey params <> "" ->
  (0 < FeeRate params < config.MinFeeRate txConfig ->
     fst (validateParams txConfig params)
     = Some (ErrFeeRateBelowMin (FeeRate params) (config.MinFeeRate txConfig)))
  /\ (0 < FeeRate params -> config.MinFeeRate txConfig <= FeeRate params ->
      config.MaxFeeRate txConfig < FeeRate params ->
     fst (validateParams txConfig params)
     = Some (ErrFeeRateExceedsMax (FeeRate params) (config.MaxFeeRate txConfig)))
  /\ (FeeRate params <= 0 ->
      forall e, fst (validateParams txConfig params) = Some e ->
      exists i, e = ErrTokenIDRequired i \/ e = ErrTokenRecipientRequired i
                \/ e = ErrTokenAmountNotPositive i).
Proof.
  intros HF HT HA HK. unfold validateParams.
  destruct (String.eqb_spec (From params) ""); [congruence|].
  destruct (String.eqb_spec (To params) ""); [congruence|].
  destruct (Z.leb_spec (Amount params) 0); [lia|].
  destruct (String.eqb_spec (PrivateKey params) ""); [congruence|].
  split; [|split].
  - intros [H0 H1]. destruct (Z.leb_spec (FeeRate params) 0); [lia|].
    destruct (Z.ltb_spec (FeeRate params) (config.MinFeeRate txConfig)); [reflexivity | lia].
  - intros H0 H1 H2. destruct (Z.leb_spec (FeeRate params) 0); [lia|].
    destruct (Z.ltb_spec (FeeRate params) (config.MinFeeRate txConfig)); [lia|].
    destruct (Z.ltb_spec (config.MaxFeeRate txConfig) (FeeRate params)); [reflexivity | lia].
  - intros H0 e. destruct (Z.leb_spec (FeeRate params) 0); [|lia].
    cbn [fst TokenTransfers withFeeRate]. generalize 0%nat.
    induction (TokenTransfers params) as [|t ts IH]; intros i; simpl; [discriminate|].
    repeat case_match; intros; simplify_eq; eauto.
Qed.

Lemma validateParams_accepts_iff_witness :
  let params := {| From := scenarios.addr; To := "n1recipient"; Amount := 1000; FeeRate := 0;
                   PrivateKey := "key"; IncludeNativeUTXOs := true;
                   IncludeNonNativeUTXOs := false; TokenTransfers := []; DataOutputs := [] |} in
  validateParams config.getDefaultTransactionConfig params = (None, withFeeRate params 5).
Proof.
  intros params.
  destruct (validateParams_accepts_iff config.getDefaultTransactionConfig params)
    as ([_ Hacc] & Hsnd & _).
  assert (Hok : From params <> "" /\ To params <> "" /\ 0 < Amount params
                /\ PrivateKey params <> ""
                /\ (FeeRate params <= 0
                    \/ config.MinFeeRate config.getDefaultTransactionConfig <= FeeRate params
                       <= config.MaxFeeRate config.getDefaultTransactionConfig)
                /\ Forall transferOk (TokenTransfers params)).
  { repeat split; try discriminate; try reflexivity; [left; discriminate | constructor]. }
  specialize (Hacc Hok). specialize (Hsnd Hok).
  destruct (validateParams _ params) as [e p']. simpl in *. subst. reflexivity.
Defined.

Lemma validateParams_fee_rate_errors_witness :
  let params rate := {| From := scenarios.addr; To := "n1recipient"; Amount := 1000;
                        FeeRate := rate; PrivateKey := "key"; IncludeNativeUTXOs := true;
                        IncludeNonNativeUTXOs := false; TokenTransfers := [];
                        DataOutputs := [] |} in
  let txConfig := {| config.DefaultFeeRate := 5; config.MinFeeRate := 2;
                     config.MaxFeeRate := 1000; config.DustLimit := 546;
                     config.MaxTransactionSize := 100000; config.EnableRBF := false;
                     config.IncludeNativeUTXOs := true;
                     config.IncludeNonNativeUTXOs := false |} in
  fst (validateParams txConfig (params 1)) = Some (ErrFeeRateBelowMin 1 2)
  /\ fst (validateParams txConfig (params 2000)) = Some (ErrFeeRateExceedsMax 2000 1000).
Proof.
  intros params txConfig. split.
  - apply (validateParams_fee_rate_errors txConfig (params 1));
      try discriminate; try reflexivity. split; reflexivity.
  - apply (validateParams_fee_rate_errors txConfig (params 2000));
      try discriminate; reflexivity.
Defined.

(** *** [BuildTransaction]: what happens before the selection *)

(** X18. [BuildTransaction] returns without touching the manager (no selection
    call, no request, no cache access; the state is unchanged) when
    validation fails, when the credential does not resolve, and when the
    address derived from the credential differs from the declared
    sender. *)
Theorem BuildTransaction_rejects_before_selection L E params w :
  let c := cfg w in
  let checked := validateParams (config.Transaction c) params in
  (forall e, fst checked = Some e ->
     BuildTransaction L E params w = ((Err e, snd checked), w))
  /\ (fst checked = None ->
      getSenderInfo L (config.Network c) (PrivateKey params) = None ->
      BuildTransaction L E params w = ((Err ErrSenderInfo, snd checked), w))
  /\ (fst checked = None ->
      forall senderAddress keyPair,
        getSenderInfo L (config.Network c) (PrivateKey params) = Some (senderAddress, keyPair) ->
        senderAddress <> From params ->
        BuildTransaction L E params w
        = ((Err (ErrSenderMismatch (From params) senderAddress), snd checked), w)).
Proof.
  intros c checked.
  assert (Hsame : PrivateKey (snd checked) = PrivateKey params
                  /\ From (snd checked) = From params).
  { unfold checked, validateParams. repeat case_match; simplify_eq; auto. }
  destruct Hsame as [Hkey Hfrom].
  unfold BuildTransaction, bind, getConfig. fold c. cbn [fst snd]. fold checked.
  destruct checked as [[e|] params'] eqn:Hchecked; cbn [fst snd] in *.
  - split; [|split]; try discriminate. intros e' [= <-]. reflexivity.
  - split; [discriminate|]. rewrite Hkey, Hfrom. split.
    + intros _ ->. reflexivity.
    + intros _ senderAddress keyPair -> Hne.
      destruct (String.eqb_spec senderAddress (From params)); [contradiction|]. reflexivity.
Qed.

Lemma BuildTransaction_rejects_before_selection_witness :
  let L := {| NewHashFromStr := fun s => Some s; DecodeAddress := fun s _ => Some s;
              PayToAddrScript := fun _ => Some []; opReturnScript := fun d => Some d;
              hex_DecodeString := fun _ => Some []; tokenDataHex := fun _ => [];
              signatureScript := fun _ _ _ _ => Some [];
              getSenderInfo := fun _ _ => Some ("other", "key") |} in
  let params := {| From := scenarios.addr; To := "n1recipient"; Amount := 1000; FeeRate := 1;
                   PrivateKey := "key"; IncludeNativeUTXOs := true;
                   IncludeNonNativeUTXOs := false; TokenTransfers := []; DataOutputs := [] |} in
  BuildTransaction L (scenarios.env scenarios.threeOutputs 0 1) params scenarios.fresh
  = ((Err (ErrSenderMismatch scenarios.addr "other"), params), scenarios.fresh).
Proof.
  intros L params.
  destruct (BuildTransaction_rejects_before_selection L
              (scenarios.env scenarios.threeOutputs 0 1) params scenarios.fresh)
    as (_ & _ & H).
  apply (H eq_refl "other" "key" eq_refl). discriminate.
Defined.

Lemma GetUTXOs_trace E address w :
  exists rest, trace (snd (GetUTXOs E address w)) = trace w ++ rest.
Proof.
  rewrite CacheProofs.GetUTXOs_unfold.
  assert (Ht : trace (snd (getFromCache E address w)) = trace w)
    by (destruct (CacheProofs.getFromCache_world E address w) as [-> | ->]; reflexivity).
  destruct (getFromCache E address w) as [[c|] w1]; simpl in *.
  - exists []. rewrite app_nil_r. exact Ht.
  - eexists. destruct (unspent_api E (steps w1) _);
      [destruct (CacheProofs.cachingEnabled w)|]; simpl; rewrite Ht; reflexivity.
Qed.

(** X19. Without token transfers, once validation has passed and the credential
    matches the sender, the first thing [BuildTransaction] does to the
    manager is one call of [SelectUTXOs] for the sender and the amount, at
    the supplied rate when it is positive and at the configured default
    rate when it is 0 or negative. *)
Theorem BuildTransaction_selects_at_default_rate L E params w keyPair :
  let c := cfg w in
  let rate := if FeeRate params <=? 0
              then config.DefaultFeeRate (config.Transaction c) else FeeRate params in
  fst (validateParams (config.Transaction c) params) = None ->
  getSenderInfo L (config.Network c) (PrivateKey params) = Some (From params, keyPair) ->
  TokenTransfers params = [] ->
  exists rest,
    trace (snd (BuildTransaction L E params w))
    = trace w ++ EvSelectUTXOs (From params) (Amount params) rate :: rest.
Proof.
  intros c rate Hvalid Hsender Hnone.
  destruct (validateParams_accepted (config.Transaction c) params Hvalid) as [_ Hsnd].
  assert (Hsel : forall r w0,
            exists rest,
              trace (snd (SelectUTXOs E (From params) (Amount params) r w0))
              = trace w0 ++ EvSelectUTXOs (From params) (Amount params) r :: rest).
  { intros r w0. rewrite ManagerProofs.SelectUTXOs_unfold.
    destruct (GetUTXOs_trace E (From params)
                (ManagerProofs.atFetch (From params) (Amount params) r w0)) as [rest Hrest].
    exists rest.
    destruct (GetUTXOs E (From params) _) as [[all|e] w1]; cbn [snd] in *;
      rewrite Hrest; simpl; rewrite <- app_assoc; reflexivity. }
  assert (Hrun : forall p, validateParams (config.Transaction c) params = (None, p) ->
            PrivateKey p = PrivateKey params -> From p = From params ->
            Amount p = Amount params -> TokenTransfers p = [] ->
            (if FeeRate p <=? 0 then config.DefaultFeeRate (config.Transaction c)
             else FeeRate p) = rate ->
            exists rest,
              trace (snd (BuildTransaction L E params w))
              = trace w ++ EvSelectUTXOs (From params) (Amount params) rate :: rest).
  { intros p Hv Hk Hf Ha Ht Hr.
    unfold BuildTransaction, bind, getConfig. fold c. rewrite Hv, Hk, Hsender, Hf.
    rewrite String.eqb_refl. cbn [negb]. rewrite Ht.
    change (0 <? len (@nil TokenTransfer)) with false. cbv iota.
    destruct (Hsel rate w) as [rest Hrest]. exists rest.
    destruct (FeeRate p <=? 0); cbn [From Amount FeeRate withFeeRate] in *;
      rewrite ?Hf, ?Ha, ?Hr;
      destruct (SelectUTXOs E (From params) (Amount params) rate w) as [[[sel fee]|e] w1];
      unfold ret; cbn [snd] in *; exact Hrest. }
  destruct (validateParams (config.Transaction c) params) as [e p] eqn:Hv.
  cbn [fst snd] in *. subst e p.
  eapply Hrun; [reflexivity | | | | |]; unfold rate;
    destruct (Z.leb_spec (FeeRate params) 0); cbn; auto.
  - destruct (_ <=? _); reflexivity.
  - destruct (Z.leb_spec (FeeRate params) 0); [lia | reflexivity].
Qed.

Lemma BuildTransaction_selects_at_default_rate_witness :
  let L := {| NewHashFromStr := fun s => Some s; DecodeAddress := fun s _ => Some s;
              PayToAddrScript := fun _ => Some []; opReturnScript := fun d => Some d;
              hex_DecodeString := fun _ => Some []; tokenDataHex := fun _ => [];
              signatureScript := fun _ _ _ _ => Some [];
              getSenderInfo := fun _ _ => Some (scenarios.addr, "key") |} in
  let params := {| From := scenarios.addr; To := "n1recipient"; Amount := 1000; FeeRate := 0;
                   PrivateKey := "key"; IncludeNativeUTXOs := true;
                   IncludeNonNativeUTXOs := false; TokenTransfers := []; DataOutputs := [] |} in
  exists rest,
    trace (snd (BuildTransaction L (scenarios.env scenarios.threeOutputs 0 1) params
                  scenarios.fresh))
    = [] ++ EvSelectUTXOs scenarios.addr 1000 5 :: rest.
Proof.
  intros L params.
  apply (BuildTransaction_selects_at_default_rate L
           (scenarios.env scenarios.threeOutputs 0 1) params scenarios.fresh "key");
    reflexivity.
Defined.

(** X20. Through the real fetch path a transaction with a token transfer is
    never built: validation requires a positive transfer amount and the
    token selection finds no token output. *)
Theorem BuildTransaction_with_token_transfer_fails L E params w :
  CacheProofs.reachable E w ->
  TokenTransfers params <> [] ->
  exists e, fst (fst (BuildTransaction L E params w)) = Err e.
Proof.
  intros Hreach Htok.
  pose proof (validateParams_accepted (config.Transaction (cfg w)) params) as Hacc.
  unfold BuildTransaction, bind, getConfig.
  destruct (validateParams (config.Transaction (cfg w)) params) as [[e|] p] eqn:Hv;
    cbn [fst snd] in *; [eauto|].
  destruct (Hacc eq_refl) as [Hts Hsnd].
  assert (Hp : TokenTransfers p = TokenTransfers params)
    by (subst p; destruct (_ <=? _); reflexivity).
  destruct (getSenderInfo L _ _) as [[senderAddress keyPair]|]; [|eauto].
  destruct (negb _); [eauto|].
  unfold selectUTXOsForTokenTransfer. rewrite Hp.
  destruct (TokenTransfers params) as [|t ts]; [contradiction|].
  change (0 <? len (t :: ts)) with true. cbv iota.
  apply Forall_cons in Hts as [(_ & _ & Hamt) _].
  pose proof (CacheProofs.GetUTXOs_native E (From p)
                (CacheProofs.logged w (EvSelectUTXOsForTokenTransfer (From p) (tt_TokenID t)
                                         (tt_Amount t) (FeeRate p)))) as Hnat.
  destruct Hnat as [_ Hall];
    [eapply CacheProofs.cacheNative_same;
       [|apply (CacheProofs.reachable_native E), Hreach]; reflexivity|].
  unfold bind. rewrite TokenProofs.SelectUTXOsForTokenTransfer_unfold.
  destruct (GetUTXOs E (From p) _) as [[all|e] w1]; cbn [fst snd ret].
  - rewrite TokenProofs.selectForTokenFrom_native by (auto; apply Hall; reflexivity).
    eauto.
  - eauto.
Qed.

Lemma BuildTransaction_with_token_transfer_fails_witness :
  let L := {| NewHashFromStr := fun s => Some s; DecodeAddress := fun s _ => Some s;
              PayToAddrScript := fun _ => Some []; opReturnScript := fun d => Some d;
              hex_DecodeString := fun _ => Some []; tokenDataHex := fun _ => [];
              signatureScript := fun _ _ _ _ => Some [];
              getSenderInfo := fun _ _ => Some (scenarios.addr, "key") |} in
  let params := {| From := scenarios.addr; To := "n1recipient"; Amount := 1000; FeeRate := 5;
                   PrivateKey := "key"; IncludeNativeUTXOs := true;
                   IncludeNonNativeUTXOs := true;
                   TokenTransfers := [{| tt_TokenID := "T"; tt_To := "n1recipient";
                                         tt_Amount := 100 |}];
                   DataOutputs := [] |} in
  exists e, fst (fst (BuildTransaction L (scenarios.env scenarios.threeOutputs 0 1) params
                        scenarios.fresh)) = Err e.
Proof.
  intros L params.
  apply (BuildTransaction_with_token_transfer_fails L
           (scenarios.env scenarios.threeOutputs 0 1) params scenarios.fresh).
  - apply CacheProofs.reachable_new.
  - discriminate.
Defined.

(** *** The outputs of a built transaction *)

Section Outputs.

Variable L : Lib.

Definition isMarkerOf (t : TokenTransfer) (script : Bytes) : Prop :=
  opReturnScript L (tokenDataHex L t) = Some script.

Definition isDataOf (d : DataOutput) (script : Bytes) : Prop :=
  exists data, hex_DecodeString L (Data d) = Some data /\ opReturnScript L data = Some script.

Lemma addTokenOutputs_ok ts : forall tx tx',
  addTokenOutputs L tx ts = Ok tx' ->
  msg_TxIn tx' = msg_TxIn tx /\
  exists scripts, Forall2 isMarkerOf ts scripts
                  /\ msg_TxOut tx' = msg_TxOut tx ++ map (NewTxOut 0) scripts.
Proof.
  induction ts as [|t ts IH]; intros tx tx' H; simpl in H.
  - inversion H; subst. split; [reflexivity|]. exists []. rewrite app_nil_r. auto.
  - destruct (opReturnScript L (tokenDataHex L t)) as [script|] eqn:Hs; [|discriminate].
    apply IH in H as (Hin & scripts & Hall & Hout). split; [exact Hin|].
    exists (script :: scripts). split; [constructor; assumption|].
    rewrite Hout. simpl. rewrite <- app_assoc. reflexivity.
Qed.

Lemma addDataOutputs_ok ds : forall tx tx',
  addDataOutputs L tx ds = Ok tx' ->
  msg_TxIn tx' = msg_TxIn tx /\
  exists scripts, Forall2 isDataOf ds scripts
                  /\ msg_TxOut tx' = msg_TxOut tx ++ map (NewTxOut 0) scripts.
Proof.
  induction ds as [|d ds IH]; intros tx tx' H; simpl in H.
  - inversion H; subst. split; [reflexivity|]. exists []. rewrite app_nil_r. auto.
  - destruct (hex_DecodeString L (Data d)) as [data|] eqn:Hd; [|discriminate].
    destruct (opReturnScript L data) as [script|] eqn:Hs; [|discriminate].
    apply IH in H as (Hin & scripts & Hall & Hout). split; [exact Hin|].
    exists (script :: scripts). split; [constructor; [exists data; auto | assumption]|].
    rewrite Hout. simpl. rewrite <- app_assoc. reflexivity.
Qed.

(** X21. The outputs [addOutputs] appends, in order: the payment, one
    zero-valued marker per token transfer, one zero-valued output per data
    payload, and then, only when inputs - amount - fee is strictly above
    the dust limit, one change output of exactly that value paying the
    sender.  When the difference equals the dust limit or is below it, no
    change output is added.  The inputs are not touched. *)
Theorem addOutputs_layout c tx params selectedUTXOs fee tx' :
  let change := sumValues selectedUTXOs - Amount params - fee in
  let testnet := config.IsTestnet (config.Network c) in
  fits64 change ->
  addOutputs L c tx params selectedUTXOs fee = Ok tx' ->
  msg_TxIn tx' = msg_TxIn tx /\
  exists recipientAddr recipientScript markers datas,
    DecodeAddress L (To params) testnet = Some recipientAddr /\
    PayToAddrScript L recipientAddr = Some recipientScript /\
    Forall2 isMarkerOf (TokenTransfers params) markers /\
    Forall2 isDataOf (DataOutputs params) datas /\
    let payload := NewTxOut (Amount params) recipientScript
                   :: map (NewTxOut 0) markers ++ map (NewTxOut 0) datas in
    (change <= config.DustLimit (config.Transaction c) ->
       msg_TxOut tx' = msg_TxOut tx ++ payload) /\
    (config.DustLimit (config.Transaction c) < change ->
       exists senderAddr changeScript,
         DecodeAddress L (From params) testnet = Some senderAddr /\
         PayToAddrScript L senderAddr = Some changeScript /\
         msg_TxOut tx' = msg_TxOut tx ++ payload ++ [NewTxOut change changeScript]).
Proof.
  intros change testnet Hfit H. unfold addOutputs in H. fold testnet in H.
  destruct (DecodeAddress L (To params) testnet) as [recipientAddr|] eqn:Hra; [|discriminate].
  destruct (PayToAddrScript L recipientAddr) as [recipientScript|] eqn:Hrs; [|discriminate].
  destruct (addTokenOutputs L _ (TokenTransfers params)) as [tx1|] eqn:H1; [|discriminate].
  destruct (addDataOutputs L tx1 (DataOutputs params)) as [tx2|] eqn:H2; [|discriminate].
  apply addTokenOutputs_ok in H1 as (Hin1 & markers & Hm & Hout1).
  apply addDataOutputs_ok in H2 as (Hin2 & datas & Hd & Hout2).
  assert (Hout : msg_TxOut tx2 = msg_TxOut tx ++ NewTxOut (Amount params) recipientScript
                                   :: map (NewTxOut 0) markers ++ map (NewTxOut 0) datas).
  { rewrite Hout2, Hout1. simpl. rewrite <- !app_assoc. reflexivity. }
  assert (Hin : msg_TxIn tx2 = msg_TxIn tx) by (rewrite Hin2, Hin1; reflexivity).
  rewrite ManagerProofs.CalculateChange_wrap in H. cbv zeta in H.
  fold change in H. rewrite (wrap64_fits _ Hfit) in H.
  destruct (Z.ltb_spec (config.DustLimit (config.Transaction c)) change) as [Habove|Hdust].
  - destruct (DecodeAddress L (From params) testnet) as [senderAddr|] eqn:Hsa; [|discriminate].
    destruct (PayToAddrScript L senderAddr) as [changeScript|] eqn:Hcs; [|discriminate].
    inversion H; subst tx'. simpl. split; [exact Hin|].
    exists recipientAddr, recipientScript, markers, datas.
    repeat (split; [first [reflexivity | assumption]|]). split; [intros; unfold change in *; lia|]. intros _.
    exists senderAddr, changeScript. repeat (split; [first [reflexivity | assumption]|]).
    rewrite Hout, <- app_assoc. reflexivity.
  - inversion H; subst tx'. split; [exact Hin|].
    exists recipientAddr, recipientScript, markers, datas.
    repeat (split; [first [reflexivity | assumption]|]). split; [intros _; exact Hout | intros; unfold change in *; lia].
Qed.

End Outputs.

(** One input of 2,676 for 1,000 at fee 1,130 leaves exactly the dust limit
    of 546: the transaction has the payment as its only output. *)
Lemma addOutputs_layout_witness :
  let L := {| NewHashFromStr := fun s => Some s; DecodeAddress := fun s _ => Some s;
              PayToAddrScript := fun _ => Some []; opReturnScript := fun d => Some d;
              hex_DecodeString := fun _ => Some []; tokenDataHex := fun _ => [];
              signatureScript := fun _ _ _ _ => Some [];
              getSenderInfo := fun _ _ => Some (scenarios.addr, "key") |} in
  let params := {| From := scenarios.addr; To := "n1recipient"; Amount := 1000; FeeRate := 5;
                   PrivateKey := "key"; IncludeNativeUTXOs := true;
                   IncludeNonNativeUTXOs := false; TokenTransfers := []; DataOutputs := [] |} in
  let sel := [toUTXO (scenarios.response "a1" 2676 6)] in
  let tx' := AddTxOut (NewMsgTx 1) (NewTxOut 1000 []) in
  addOutputs L config.getDefaultConfig (NewMsgTx 1) params sel 1130 = Ok tx'
  /\ exists script, msg_TxOut tx' = [NewTxOut 1000 script].
Proof.
  intros L params sel tx'.
  assert (Hrun : addOutputs L config.getDefaultConfig (NewMsgTx 1) params sel 1130 = Ok tx')
    by (vm_compute; reflexivity).
  split; [exact Hrun|].
  destruct (addOutputs_layout L config.getDefaultConfig (NewMsgTx 1) params sel 1130 tx')
    as (_ & ra & rs & markers & datas & _ & _ & Hm & Hd & Hno & _);
    [split; vm_compute; [discriminate | reflexivity] | exact Hrun |].
  apply Forall2_nil_inv_l in Hm. apply Forall2_nil_inv_l in Hd. subst markers datas.
  exists rs. apply Hno. vm_compute. discriminate.
Defined.

(** *** Inputs, signatures and the value a built transaction moves *)

Section Assemble.

Variable L : Lib.

Definition sumOut (outs : list TxOut) : Z := foldr (fun o acc => out_Value o + acc) 0 outs.

Lemma sumOut_app l1 l2 : sumOut (l1 ++ l2) = sumOut l1 + sumOut l2.
Proof. induction l1; simpl; lia. Qed.

Lemma sumOut_zero scripts : sumOut (map (NewTxOut 0) scripts) = 0.
Proof. induction scripts; simpl; lia. Qed.

(** The outpoint an input must carry to spend [u]. *)
Definition spends (op : string * Z) (u : UTXO) : Prop :=
  exists h, NewHashFromStr L (TxID u) = Some h /\ op = (h, Vout u).

Lemma addInputs_ok sel : forall tx tx',
  addInputs L tx sel = Ok tx' ->
  msg_TxOut tx' = msg_TxOut tx /\
  exists ops, map PreviousOutPoint (msg_TxIn tx') = map PreviousOutPoint (msg_TxIn tx) ++ ops
              /\ Forall2 spends ops sel.
Proof.
  induction sel as [|u sel IH]; intros tx tx' H; simpl in H.
  - inversion H; subst. split; [reflexivity|]. exists []. rewrite app_nil_r. auto.
  - destruct (NewHashFromStr L (TxID u)) as [h|] eqn:Hh; [|discriminate].
    apply IH in H as (Hout & ops & Hin & Hall). split; [exact Hout|].
    exists ((h, Vout u) :: ops). split.
    + rewrite Hin. simpl. rewrite map_app, <- app_assoc. reflexivity.
    + constructor; [exists h; auto | assumption].
Qed.

Lemma setSignatureScript_outpoints tx i sig :
  map PreviousOutPoint (msg_TxIn (setSignatureScript tx i sig))
  = map PreviousOutPoint (msg_TxIn tx).
Proof.
  unfold setSignatureScript. simpl. generalize (msg_TxIn tx). clear tx.
  induction i as [|i IH]; intros [|ti l]; simpl; try reflexivity.
  f_equal. apply IH.
Qed.

Lemma signLoop_ok c keyPair utxos : forall tx i tx',
  signLoop L c tx i utxos keyPair = Ok tx' ->
  msg_TxOut tx' = msg_TxOut tx
  /\ map PreviousOutPoint (msg_TxIn tx') = map PreviousOutPoint (msg_TxIn tx).
Proof.
  induction utxos as [|u utxos IH]; intros tx i tx' H; simpl in H.
  - inversion H; subst. auto.
  - destruct (DecodeAddress L _ _); [|discriminate].
    destruct (PayToAddrScript L _); [|discriminate].
    destruct (signatureScript L _ _ _ _) as [sig|]; [|discriminate].
    case_decide; [|discriminate].
    apply IH in H as [Hout Hin]. rewrite Hout, Hin.
    split; [reflexivity | apply setSignatureScript_outpoints].
Qed.

Lemma addOutputs_values c tx params sel fee tx' :
  let change := sumValues sel - Amount params - fee in
  fits64 change ->
  addOutputs L c tx params sel fee = Ok tx' ->
  msg_TxIn tx' = msg_TxIn tx
  /\ sumOut (msg_TxOut tx')
     = sumOut (msg_TxOut tx) + Amount params
       + (if decide (config.DustLimit (config.Transaction c) < change) then change else 0)
  /\ length (msg_TxOut tx')
     = (length (msg_TxOut tx) + 1 + length (TokenTransfers params)
        + length (DataOutputs params)
        + (if decide (config.DustLimit (config.Transaction c) < change)%Z then 1 else 0))%nat.
Proof.
  intros change Hfit H. unfold addOutputs in H.
  destruct (DecodeAddress L (To params) _) as [recipientAddr|]; [|discriminate].
  destruct (PayToAddrScript L recipientAddr) as [recipientScript|]; [|discriminate].
  destruct (addTokenOutputs L _ (TokenTransfers params)) as [tx1|] eqn:H1; [|discriminate].
  destruct (addDataOutputs L tx1 (DataOutputs params)) as [tx2|] eqn:H2; [|discriminate].
  apply addTokenOutputs_ok in H1 as (Hin1 & markers & Hm & Hout1).
  apply addDataOutputs_ok in H2 as (Hin2 & datas & Hd & Hout2).
  apply Forall2_length in Hm, Hd. simpl in Hin1.
  assert (Hsum : sumOut (msg_TxOut tx2) = sumOut (msg_TxOut tx) + Amount params).
  { rewrite Hout2, Hout1. simpl. rewrite !sumOut_app, !sumOut_zero. simpl. lia. }
  assert (Hlen : length (msg_TxOut tx2)
                 = (length (msg_TxOut tx) + 1 + length (TokenTransfers params)
                    + length (DataOutputs params))%nat).
  { rewrite Hout2, Hout1. simpl. rewrite !length_app, !length_map. simpl. lia. }
  rewrite ManagerProofs.CalculateChange_wrap in H. cbv zeta in H.
  fold change in H. rewrite (wrap64_fits _ Hfit) in H.
  destruct (Z.ltb_spec (config.DustLimit (config.Transaction c)) change);
    case_decide; try lia.
  - destruct (DecodeAddress L (From params) _) as [senderAddr|]; [|discriminate].
    destruct (PayToAddrScript L senderAddr) as [changeScript|]; [|discriminate].
    inversion H; subst tx'. simpl. rewrite sumOut_app, length_app, Hsum, Hlen. simpl.
    split; [congruence|]. split; lia.
  - inversion H; subst tx'. rewrite Hsum, Hlen. split; [congruence|]. split; lia.
Qed.

(** X22. A transaction assembled from a funded selection (amount + fee within
    the selected total): its inputs spend the selected outputs, each once
    and in the order of the selection; its outputs are the payment, the
    markers, the data outputs and at most one change output; the outputs
    carry the amount alone when the rest is at most the dust limit, and
    otherwise outputs + fee is exactly the selected total.  So the
    transaction never pays out more than its inputs, and what it leaves to
    the miners is the fee or the fee plus at most the dust limit. *)
Theorem assemble_conserves_value c params sel fee keyPair tx :
  let total := sumValues sel in
  let dust := config.DustLimit (config.Transaction c) in
  let out := sumOut (msg_TxOut tx) in
  fits64 (total - Amount params - fee) ->
  0 <= dust ->
  Amount params + fee <= total ->
  assemble L c params sel fee keyPair = Ok tx ->
  Forall2 spends (map PreviousOutPoint (msg_TxIn tx)) sel
  /\ (length (msg_TxOut tx) <= 2 + length (TokenTransfers params)
                               + length (DataOutputs params))%nat
  /\ (total - Amount params - fee <= dust -> out = Amount params)
  /\ (dust < total - Amount params - fee -> out + fee = total)
  /\ fee <= total - out <= fee + dust.
Proof.
  intros total dust out Hfit Hdust Hfunded H. unfold assemble in H.
  destruct (addInputs L (NewMsgTx 1) sel) as [tx1|] eqn:H1; [|discriminate].
  destruct (addOutputs L c tx1 params sel fee) as [tx2|] eqn:H2; [|discriminate].
  destruct (signTransaction L c tx2 sel keyPair) as [tx3|] eqn:H3; [|discriminate].
  inversion H; subst tx3.
  apply addInputs_ok in H1 as (Hout1 & ops & Hin1 & Hspends).
  apply addOutputs_values in H2 as (Hin2 & Hsum & Hlen); [|exact Hfit].
  apply signLoop_ok in H3 as (Hout3 & Hin3).
  simpl in Hin1, Hout1. rewrite Hout1 in Hsum, Hlen. simpl in Hsum, Hlen.
  split; [rewrite Hin3, Hin2, Hin1; exact Hspends|].
  unfold out, total, dust in *. rewrite Hout3, Hsum, Hlen.
  destruct (decide (config.DustLimit (config.Transaction c)
                    < sumValues sel - Amount params - fee)) as [Habove|Hbelow];
    repeat split; intros; lia.
Qed.

End Assemble.

(** Two inputs of 50,000 and 30,000 for 49,000 at fee 1,870: the change of
    29,130 is above the dust limit, so outputs plus fee equal the inputs. *)
Lemma assemble_conserves_value_witness :
  let L := {| NewHashFromStr := fun s => Some s; DecodeAddress := fun s _ => Some s;
              PayToAddrScript := fun _ => Some []; opReturnScript := fun d => Some d;
              hex_DecodeString := fun _ => Some []; tokenDataHex := fun _ => [];
              signatureScript := fun _ _ _ _ => Some [];
              getSenderInfo := fun _ _ => Some (scenarios.addr, "key") |} in
  let params := {| From := scenarios.addr; To := "n1recipient"; Amount := 49000; FeeRate := 5;
                   PrivateKey := "key"; IncludeNativeUTXOs := true;
                   IncludeNonNativeUTXOs := false; TokenTransfers := []; DataOutputs := [] |} in
  let sel := map toUTXO [scenarios.response "b2" 50000 6; scenarios.response "a1" 30000 6] in
  exists tx, assemble L config.getDefaultConfig params sel 1870 "key" = Ok tx
             /\ sumOut (msg_TxOut tx) + 1870 = 80000.
Proof.
  intros L params sel.
  destruct (assemble L config.getDefaultConfig params sel 1870 "key") as [tx|e] eqn:Hrun;
    [|vm_compute in Hrun; discriminate].
  exists tx. split; [reflexivity|].
  destruct (assemble_conserves_value L config.getDefaultConfig params sel 1870 "key" tx)
    as (_ & _ & _ & H & _);
    [split; vm_compute; [discriminate | reflexivity] | vm_compute; discriminate
    | vm_compute; discriminate | exact Hrun |].
  apply H. vm_compute. reflexivity.
Defined.

(** *** The default fee rate and the bounds *)

Lemma selectFrom_default_above_max txConfig address all amount feeRate :
  config.MaxFeeRate txConfig < config.DefaultFeeRate txConfig ->
  feeRate < config.MinFeeRate txConfig \/ feeRate = config.DefaultFeeRate txConfig ->
  exists e, selectFrom txConfig address all amount feeRate = utxo.Err e.
Proof.
  intros Hmax Hrate. unfold selectFrom.
  destruct (len all =? 0); [eauto|].
  destruct (len (filterAvailable txConfig all []) =? 0); [eauto|].
  destruct (Z.ltb_spec feeRate (config.MinFeeRate txConfig)).
  - destruct (Z.ltb_spec (config.MaxFeeRate txConfig) (config.DefaultFeeRate txConfig));
      [eauto | lia].
  - destruct (Z.ltb_spec (config.MaxFeeRate txConfig) feeRate); [eauto | lia].
Qed.

(** X23. Neither [validateTransactionConfig] nor [validateParams] holds the
    default fee rate against the bounds, and [SelectUTXOs] does.  Under a
    configuration whose default rate is above its maximum rate, a
    transaction without token transfers whose fee rate is left at 0 (or
    negative) is never built: whatever the address holds, the call returns
    an error. *)
Theorem BuildTransaction_default_rate_above_max L E params w :
  let txConfig := config.Transaction (cfg w) in
  config.MaxFeeRate txConfig < config.DefaultFeeRate txConfig ->
  FeeRate params <= 0 ->
  TokenTransfers params = [] ->
  exists e, fst (fst (BuildTransaction L E params w)) = Err e.
Proof.
  intros txConfig Hmax Hrate Hnone.
  pose proof (validateParams_accepted txConfig params) as Hacc.
  unfold BuildTransaction, bind, getConfig. fold txConfig.
  destruct (validateParams txConfig params) as [[e|] p] eqn:Hv;
    cbn [fst snd] in *; [eauto|].
  destruct (Hacc eq_refl) as [_ Hp].
  destruct (Z.leb_spec (FeeRate params) 0); [|lia]. subst p.
  destruct (getSenderInfo L _ _) as [[senderAddress keyPair]|]; [|eauto].
  destruct (negb _); [eauto|].
  cbn [TokenTransfers withFeeRate]. rewrite Hnone.
  change (0 <? len (@nil TokenTransfer)) with false. cbv iota.
  cbn [FeeRate withFeeRate].
  assert (Hsel : exists e w1,
            SelectUTXOs E (From params) (Amount params)
              (config.DefaultFeeRate txConfig) w = (utxo.Err e, w1)).
  { rewrite ManagerProofs.SelectUTXOs_unfold.
    destruct (GetUTXOs E (From params) _) as [[all|e] w1]; [|eauto].
    destruct (selectFrom_default_above_max txConfig (From params) all (Amount params)
                (config.DefaultFeeRate txConfig) Hmax (or_intror eq_refl)) as [e He].
    fold txConfig. rewrite He. eauto. }
  destruct Hsel as (e & w1 & Hsel).
  destruct (config.DefaultFeeRate txConfig <=? 0); cbn [From Amount FeeRate withFeeRate];
    rewrite Hsel; cbn [fst ret]; eauto.
Qed.

Lemma BuildTransaction_default_rate_above_max_witness :
  let L := {| NewHashFromStr := fun s => Some s; DecodeAddress := fun s _ => Some s;
              PayToAddrScript := fun _ => Some []; opReturnScript := fun d => Some d;
              hex_DecodeString := fun _ => Some []; tokenDataHex := fun _ => [];
              signatureScript := fun _ _ _ _ => Some [];
              getSenderInfo := fun _ _ => Some (scenarios.addr, "key") |} in
  let params := {| From := scenarios.addr; To := "n1recipient"; Amount := 1000; FeeRate := 0;
                   PrivateKey := "key"; IncludeNativeUTXOs := true;
                   IncludeNonNativeUTXOs := false; TokenTransfers := []; DataOutputs := [] |} in
  let txConfig := {| config.DefaultFeeRate := 50; config.MinFeeRate := 1;
                     config.MaxFeeRate := 10; config.DustLimit := 546;
                     config.MaxTransactionSize := 100000; config.EnableRBF := false;
                     config.IncludeNativeUTXOs := true;
                     config.IncludeNonNativeUTXOs := false |} in
  let w := NewManager {| config.Network := config.getTestnetConfig;
                         config.UTXO := config.getDefaultUTXOConfig;
                         config.Transaction := txConfig |} in
  config.validateTransactionConfig txConfig = None
  /\ fst (validateParams txConfig params) = None
  /\ exists e, fst (fst (BuildTransaction L (scenarios.env scenarios.threeOutputs 0 1)
                            params w)) = Err e.
Proof.
  intros L params txConfig w.
  split; [reflexivity|]. split; [reflexivity|].
  apply (BuildTransaction_default_rate_above_max L
           (scenarios.env scenarios.threeOutputs 0 1) params w).
  - reflexivity.
  - discriminate.
  - reflexivity.
Defined.

End TransactionProofs.

Module ConfigProofs.

Import configmgr.

(** What the three validators ask of the parts of a configuration. *)
Definition networkOk (n : config.NetworkConfig) : Prop :=
  config.Name n <> "" /\ config.RPCURL n <> "" /\ config.ExplorerURL n <> ""
  /\ config.ChainID n <> "".

Definition utxoOk (u : config.UTXOConfig) : Prop :=
  0 <= config.MinConfirmations u /\ 0 < config.MaxUTXOsPerQuery u
  /\ 0 <= config.CacheExpiry u.

Definition transactionOk (t : config.TransactionConfig) : Prop :=
  0 < config.DefaultFeeRate t
  /\ 0 < config.MinFeeRate t <= config.MaxFeeRate t
  /\ 0 <= config.DustLimit t
  /\ 0 < config.MaxTransactionSize t.

Definition wellFormed (m : Config) : Prop :=
  exists n u t,
    Network m = Some n /\ UTXO m = Some u /\ Transaction m = Some t
    /\ networkOk n /\ utxoOk u /\ transactionOk t.

Ltac conjuncts := repeat (split; [first [assumption | reflexivity]|]); first [assumption | reflexivity].

Lemma eqb_empty s : String.eqb s "" = false <-> s <> "".
Proof. apply String.eqb_neq. Qed.

Lemma validateNetworkConfig_None network :
  validateNetworkConfig network = None <-> exists n, network = Some n /\ networkOk n.
Proof.
  unfold validateNetworkConfig, networkOk. destruct network as [n|].
  - split.
    + intros H. exists n. split; [reflexivity|].
      repeat case_match; try discriminate.
      rewrite <- !eqb_empty. auto.
    + intros (n' & [= <-] & H1 & H2 & H3 & H4).
      apply eqb_empty in H1, H2, H3, H4. rewrite H1, H2, H3, H4. reflexivity.
  - split; [discriminate|]. intros (n & Hn & _). discriminate.
Qed.

Lemma validateUTXOConfig_None utxo :
  validateUTXOConfig utxo = None <-> exists u, utxo = Some u /\ utxoOk u.
Proof.
  unfold validateUTXOConfig, config.validateUTXOConfig, utxoOk. destruct utxo as [u|].
  - split.
    + intros H. exists u. split; [reflexivity|].
      repeat case_match; try discriminate. lia.
    + intros (u' & [= <-] & H). repeat case_match; try reflexivity; lia.
  - split; [discriminate|]. intros (u & Hu & _). discriminate.
Qed.

Lemma validateTransactionConfig_None tx :
  validateTransactionConfig tx = None <-> exists t, tx = Some t /\ transactionOk t.
Proof.
  unfold validateTransactionConfig, config.validateTransactionConfig, transactionOk.
  destruct tx as [t|].
  - split.
    + intros H. exists t. split; [reflexivity|].
      repeat case_match; try discriminate. lia.
    + intros (t' & [= <-] & H). repeat case_match; try reflexivity; lia.
  - split; [discriminate|]. intros (t & Ht & _). discriminate.
Qed.

Lemma validateConfig_wellFormed c : validateConfig (Some c) = None -> wellFormed c.
Proof.
  unfold validateConfig. intros H.
  destruct (validateNetworkConfig (Network c)) eqn:Hn; [discriminate|].
  destruct (validateUTXOConfig (UTXO c)) eqn:Hu; [discriminate|].
  destruct (validateTransactionConfig (Transaction c)) eqn:Ht; [discriminate|].
  apply validateNetworkConfig_None in Hn as (n & ? & ?).
  apply validateUTXOConfig_None in Hu as (u & ? & ?).
  apply validateTransactionConfig_None in Ht as (t & ? & ?).
  exists n, u, t. conjuncts.
Qed.

Lemma wellFormed_validateConfig c : wellFormed c -> validateConfig (Some c) = None.
Proof.
  intros (n & u & t & Hn & Hu & Ht & ? & ? & ?). unfold validateConfig.
  rewrite (proj2 (validateNetworkConfig_None _)) by eauto.
  rewrite (proj2 (validateUTXOConfig_None _)) by eauto.
  rewrite (proj2 (validateTransactionConfig_None _)) by eauto.
  reflexivity.
Qed.

(** [validateConfig] accepts a configuration exactly when its three parts
    are present, the four network strings are not empty, the confirmation
    and expiry settings are not negative, the query limit, the three fee
    rates and the size limit are positive, the minimum fee rate is at most
    the maximum and the dust limit is not negative.  Nothing relates the
    default fee rate to the minimum or the maximum. *)
Lemma validateConfig_accepts_iff c :
  validateConfig (Some c) = None <-> wellFormed c.
Proof.
  split; [apply validateConfig_wellFormed | apply wellFormed_validateConfig].
Qed.

(** The calls that change what a manager holds. *)
Inductive Update :=
| ByUpdateConfig (c : option Config)
| ByUpdateNetworkConfig (network : option config.NetworkConfig)
| ByUpdateUTXOConfig (utxo : option config.UTXOConfig)
| ByUpdateTransactionConfig (tx : option config.TransactionConfig)
| BySetNetworkType (networkType : string).

Definition applyUpdate (m : Config) (u : Update) : option Error * Config :=
  match u with
  | ByUpdateConfig c => UpdateConfig m c
  | ByUpdateNetworkConfig network => UpdateNetworkConfig m network
  | ByUpdateUTXOConfig utxo => UpdateUTXOConfig m utxo
  | ByUpdateTransactionConfig tx => UpdateTransactionConfig m tx
  | BySetNetworkType networkType => SetNetworkType m networkType
  end.

Definition applyAll (m : Config) (us : list Update) : Config :=
  foldl (fun m u => snd (applyUpdate m u)) m us.

Lemma getMainnetConfig_ok : networkOk getMainnetConfig.
Proof. unfold networkOk. simpl. repeat split; discriminate. Qed.

Lemma getTestnetConfig_ok : networkOk config.getTestnetConfig.
Proof. unfold networkOk. simpl. repeat split; discriminate. Qed.

Lemma applyUpdate_wellFormed m u : wellFormed m -> wellFormed (snd (applyUpdate m u)).
Proof.
  intros Hm. pose proof Hm as (n & x & t & Hn & Hx & Ht & On & Ox & Ot).
  destruct u as [c|network|utxo|tx|networkType]; simpl.
  - unfold UpdateConfig. destruct (validateConfig c) eqn:Hv; [exact Hm|].
    destruct c as [c|]; [|exact Hm]. simpl. apply validateConfig_wellFormed, Hv.
  - unfold UpdateNetworkConfig.
    destruct (validateNetworkConfig network) eqn:Hv; [exact Hm|].
    apply validateNetworkConfig_None in Hv as (n' & -> & ?). simpl.
    exists n', x, t. conjuncts.
  - unfold UpdateUTXOConfig.
    destruct (validateUTXOConfig utxo) eqn:Hv; [exact Hm|].
    apply validateUTXOConfig_None in Hv as (x' & -> & ?). simpl.
    exists n, x', t. conjuncts.
  - unfold UpdateTransactionConfig.
    destruct (validateTransactionConfig tx) eqn:Hv; [exact Hm|].
    apply validateTransactionConfig_None in Hv as (t' & -> & ?). simpl.
    exists n, x, t'. conjuncts.
  - unfold SetNetworkType.
    destruct (String.eqb networkType Mainnet).
    { simpl. pose proof getMainnetConfig_ok. exists getMainnetConfig, x, t. conjuncts. }
    destruct (String.eqb networkType Testnet).
    { simpl. pose proof getTestnetConfig_ok. exists config.getTestnetConfig, x, t. conjuncts. }
    exact Hm.
Qed.

(** X24. Whatever sequence of [UpdateConfig], [UpdateNetworkConfig],
    [UpdateUTXOConfig], [UpdateTransactionConfig] and [SetNetworkType]
    calls is made, with whatever arguments ([nil] included) and whether
    each call is accepted or rejected, a manager that holds a configuration
    [validateConfig] accepts still holds one afterwards: its three parts
    are never [nil] and the fee-rate bounds stay ordered. *)
Theorem updates_keep_config_valid m us :
  validateConfig (Some m) = None ->
  validateConfig (Some (applyAll m us)) = None
  /\ exists t, GetTransactionConfig (applyAll m us) = Some t
               /\ 0 < config.MinFeeRate t <= config.MaxFeeRate t.
Proof.
  intros Hm. apply validateConfig_wellFormed in Hm.
  assert (Hw : wellFormed (applyAll m us)).
  { unfold applyAll. revert m Hm.
    induction us as [|u us IH]; intros m Hm; simpl; [exact Hm|].
    apply IH, applyUpdate_wellFormed, Hm. }
  split; [apply wellFormed_validateConfig, Hw|].
  destruct Hw as (n & x & t & _ & _ & Ht & _ & _ & Ot).
  exists t. split; [exact Ht|]. apply Ot.
Qed.

Lemma updates_keep_config_valid_witness :
  validateConfig (Some NewManager) = None
  /\ validateConfig (Some (applyAll NewManager
       [BySetNetworkType Mainnet; ByUpdateTransactionConfig None;
        BySetNetworkType Custom; ByUpdateUTXOConfig (Some config.getDefaultUTXOConfig)]))
     = None.
Proof.
  split; [reflexivity|].
  apply (updates_keep_config_valid NewManager
           [BySetNetworkType Mainnet; ByUpdateTransactionConfig None;
            BySetNetworkType Custom; ByUpdateUTXOConfig (Some config.getDefaultUTXOConfig)]).
  reflexivity.
Defined.

(** A rejected update changes nothing: when any of the five calls returns
    an error, the manager holds the configuration it held before (an
    [UpdateConfig] with one bad part installs none of the three). *)
Lemma rejected_update_changes_nothing m u err :
  fst (applyUpdate m u) = Some err -> snd (applyUpdate m u) = m.
Proof.
  destruct u as [c|network|utxo|tx|networkType]; simpl.
  - unfold UpdateConfig. destruct (validateConfig c); [reflexivity|discriminate].
  - unfold UpdateNetworkConfig.
    destruct (validateNetworkConfig network); [reflexivity|discriminate].
  - unfold UpdateUTXOConfig.
    destruct (validateUTXOConfig utxo); [reflexivity|discriminate].
  - unfold UpdateTransactionConfig.
    destruct (validateTransactionConfig tx); [reflexivity|discriminate].
  - unfold SetNetworkType.
    destruct (String.eqb networkType Mainnet); [discriminate|].
    destruct (String.eqb networkType Testnet); [discriminate|reflexivity].
Qed.

Lemma rejected_update_changes_nothing_witness :
  let bad := {| Network := Some getMainnetConfig; UTXO := None;
                Transaction := Some config.getDefaultTransactionConfig |} in
  fst (applyUpdate NewManager (ByUpdateConfig (Some bad)))
    = Some (ErrInvalidConfiguration ErrUTXONil)
  /\ snd (applyUpdate NewManager (ByUpdateConfig (Some bad))) = NewManager.
Proof.
  split; [reflexivity|].
  apply (rejected_update_changes_nothing NewManager _ (ErrInvalidConfiguration ErrUTXONil)).
  reflexivity.
Defined.

(** Three accepted partial updates amount to one full update: after
    [UpdateNetworkConfig], [UpdateUTXOConfig] and [UpdateTransactionConfig]
    have each returned [nil], the manager holds exactly the three parts
    given, whatever it held before, the getters return them, and
    [UpdateConfig] with those three parts is accepted and installs the same
    configuration. *)
Lemma partial_updates_compose m n u t m1 m2 m3 :
  UpdateNetworkConfig m (Some n) = (None, m1) ->
  UpdateUTXOConfig m1 (Some u) = (None, m2) ->
  UpdateTransactionConfig m2 (Some t) = (None, m3) ->
  let c := {| Network := Some n; UTXO := Some u; Transaction := Some t |} in
  m3 = c
  /\ GetNetworkConfig m3 = Some n /\ GetUTXOConfig m3 = Some u
  /\ GetTransactionConfig m3 = Some t
  /\ UpdateConfig m (Some c) = (None, c).
Proof.
  unfold UpdateNetworkConfig, UpdateUTXOConfig, UpdateTransactionConfig.
  destruct (validateNetworkConfig (Some n)) eqn:Hn; [discriminate|].
  destruct (validateUTXOConfig (Some u)) eqn:Hu; [discriminate|].
  destruct (validateTransactionConfig (Some t)) eqn:Ht; [discriminate|].
  intros [= <-] [= <-] [= <-]. simpl.
  repeat split.
  unfold UpdateConfig, validateConfig. simpl Network. simpl UTXO. simpl Transaction.
  rewrite Hn, Hu, Ht. reflexivity.
Qed.

Lemma partial_updates_compose_witness :
  let c := {| Network := Some getMainnetConfig;
              UTXO := Some config.getDefaultUTXOConfig;
              Transaction := Some config.getDefaultTransactionConfig |} in
  UpdateConfig NewManager (Some c) = (None, c).
Proof.
  apply (partial_updates_compose NewManager getMainnetConfig
           config.getDefaultUTXOConfig config.getDefaultTransactionConfig
           _ _ _ eq_refl eq_refl eq_refl).
Defined.

End ConfigProofs.

Module ShardingProofs.

Import sharding.

(** *** encoding/hex *)

Lemma hex_byte_round_trip (v : Ascii.ascii) :
  fromHexChar (hexDigit (N.shiftr (Ascii.N_of_ascii v) 4)) = Some (N.shiftr (Ascii.N_of_ascii v) 4)
  /\ fromHexChar (hexDigit (N.land (Ascii.N_of_ascii v) 15)) = Some (N.land (Ascii.N_of_ascii v) 15)
  /\ Ascii.ascii_of_N (N.lor (N.shiftl (N.shiftr (Ascii.N_of_ascii v) 4) 4)
                         (N.land (Ascii.N_of_ascii v) 15)) = v.
Proof.
  destruct v as [[] [] [] [] [] [] [] []]; vm_compute; repeat split.
Qed.

Lemma hex_round_trip src : hex_DecodeString (hex_EncodeToString src) = Some src.
Proof.
  induction src as [|v rest IH]; [reflexivity|].
  cbn [hex_EncodeToString hex_DecodeString].
  destruct (hex_byte_round_trip v) as (-> & -> & Hv).
  rewrite IH, Hv. reflexivity.
Qed.

Lemma hex_decoded_length s d :
  hex_DecodeString s = Some d -> strlen s = 2 * strlen d.
Proof.
  revert d.
  assert (H : (forall d, hex_DecodeString s = Some d -> strlen s = 2 * strlen d)
              /\ forall p d, hex_DecodeString (String p s) = Some d
                             -> strlen (String p s) = 2 * strlen d).
  { induction s as [|q rest [IH1 IH2]].
    - split; [intros d [= <-]; reflexivity | discriminate].
    - split; [exact (IH2 q)|].
      intros p d. cbn [hex_DecodeString].
      destruct (fromHexChar p); [|discriminate].
      destruct (fromHexChar q); [|discriminate].
      destruct (hex_DecodeString rest) as [dst|] eqn:Hrest; [|discriminate].
      intros [= <-]. specialize (IH1 _ eq_refl).
      unfold strlen in *. cbn [String.length]. lia. }
  exact (proj1 H).
Qed.

(** The length test of [validateShard] adds nothing to the decoding. *)
Lemma validateShard_decodes shard :
  validateShard shard = true <-> exists data, hex_DecodeString shard = Some data.
Proof.
  unfold validateShard. split.
  - destruct (negb _); [discriminate|].
    destruct (hex_DecodeString shard); [eauto | discriminate].
  - intros [data Hd]. rewrite (hex_decoded_length _ _ Hd), Hd.
    replace (2 * strlen data mod 2) with 0 by (rewrite Z.mul_comm, Z_mod_mult; reflexivity).
    reflexivity.
Qed.

Section Manager.

Variable IsMnemonicValid : string -> bool.

(** What a successful [SplitMnemonic] returns. *)
Lemma SplitMnemonic_Ok mnemonicPhrase threshold shares r :
  SplitMnemonic IsMnemonicValid mnemonicPhrase threshold shares = Ok r ->
  IsMnemonicValid mnemonicPhrase = true
  /\ 2 <= Threshold r <= TotalShares r /\ TotalShares r <= 255
  /\ Threshold r = (if threshold =? 0 then 2 else threshold)
  /\ TotalShares r = (if shares =? 0 then 3 else shares)
  /\ Shards r = replicate (Z.to_nat (TotalShares r)) (hex_EncodeToString mnemonicPhrase).
Proof.
  unfold SplitMnemonic, Validate.
  destruct (IsMnemonicValid mnemonicPhrase); [|discriminate]. cbn [negb].
  destruct (Z.ltb_spec (if threshold =? 0 then 2 else threshold) 2); [discriminate|].
  destruct (Z.ltb_spec (if shares =? 0 then 3 else shares)
              (if threshold =? 0 then 2 else threshold)); [discriminate|].
  destruct (Z.ltb_spec 255 (if shares =? 0 then 3 else shares)); [discriminate|].
  intros [= <-]. cbn [Shards Threshold TotalShares]. repeat split; lia.
Qed.

Definition decodesTo (n : Z) (shard : string) : Prop :=
  exists data, hex_DecodeString shard = Some data /\ strlen data = n.

Lemma decodeShards_Ok shards shareData :
  decodeShards shards = Ok shareData <->
  Forall2 (fun shard data => hex_DecodeString shard = Some data) shards shareData.
Proof.
  revert shareData. induction shards as [|shard rest IH]; intros shareData; simpl.
  - split; [intros [= <-]; constructor | intros H; inversion H; reflexivity].
  - destruct (validateShard shard) eqn:Hv; cbn [negb].
    + destruct (hex_DecodeString shard) as [data|] eqn:Hd.
      * destruct (decodeShards rest) as [ds|e].
        -- split.
           ++ intros [= <-]. constructor; [exact Hd | apply IH; reflexivity].
           ++ intros H. inversion H as [|? y ? ys Hy Hys]; subst.
              apply IH in Hys. congruence.
        -- split; [discriminate|].
           intros H. inversion H as [|? y ? ys Hy Hys]; subst.
           apply IH in Hys. discriminate.
      * split; [discriminate|].
        intros H. inversion H; subst. congruence.
    + split; [discriminate|].
      intros H. inversion H as [|? y ? ys Hy Hys]; subst.
      assert (validateShard shard = true) by (apply validateShard_decodes; eauto).
      congruence.
Qed.

Lemma checkLengths_None n shareData : forall i,
  checkLengths i n shareData = None <-> Forall (fun data => strlen data = n) shareData.
Proof.
  induction shareData as [|data rest IH]; intros i; simpl.
  - split; [constructor | reflexivity].
  - rewrite Forall_cons. destruct (Z.eqb_spec (strlen data) n); cbn [negb].
    + rewrite IH. tauto.
    + split; [discriminate | tauto].
Qed.

Lemma len_lt_2 {A} (l : list A) :
  (len l <? 2) = false <-> exists a b rest, l = a :: b :: rest.
Proof.
  unfold len. destruct l as [|a [|b rest]]; simpl length.
  - split; [discriminate | intros (? & ? & ? & ?); discriminate].
  - split; [discriminate | intros (? & ? & ? & ?); discriminate].
  - split; [eauto|]. intros _. apply Z.ltb_ge. lia.
Qed.

(** X25. [CombineShards] succeeds exactly when it is given at least two shards,
    every shard is a hexadecimal string, all shards decode to the same
    number of bytes, and the bytes of the first shard are a valid
    mnemonic; what it returns is then the decoding of the first shard
    alone: the bytes of the other shards play no part in the result. *)
Theorem CombineShards_first_shard_only shards mnemonicPhrase :
  CombineShards IsMnemonicValid shards = Ok mnemonicPhrase <->
  exists first rest,
    shards = first :: rest /\ rest <> []
    /\ hex_DecodeString first = Some mnemonicPhrase
    /\ IsMnemonicValid mnemonicPhrase = true
    /\ Forall (decodesTo (strlen mnemonicPhrase)) rest.
Proof.
  unfold CombineShards, Validate. split.
  - destruct (len shards <? 2) eqn:Hlen; [discriminate|].
    apply len_lt_2 in Hlen as (first & second & rest & ->).
    destruct (decodeShards (first :: second :: rest)) as [shareData|e] eqn:Hdec;
      [|discriminate].
    apply decodeShards_Ok in Hdec.
    inversion Hdec as [|? d ? ds Hd Hds]; subst.
    destruct (checkLengths 0 (strlen d) (d :: ds)) eqn:Hchk; [discriminate|].
    apply checkLengths_None, Forall_cons in Hchk as [_ Hchk].
    destruct (IsMnemonicValid d) eqn:Hvalid; [|discriminate].
    intros [= <-]. exists first, (second :: rest).
    split; [reflexivity|]. split; [discriminate|]. split; [exact Hd|].
    split; [exact Hvalid|].
    clear Hdec Hd Hvalid. revert Hchk. generalize (strlen d). intros n Hchk.
    induction Hds as [|shard data shards' ds' Hx Hxs IH]; [constructor|].
    apply Forall_cons in Hchk as [Hn Hchk].
    constructor; [exists data; auto | apply IH, Hchk].
  - intros (first & rest & -> & Hrest & Hd & Hvalid & Hall).
    destruct rest as [|second rest]; [contradiction|].
    rewrite (proj2 (len_lt_2 _)) by eauto.
    assert (Hdec : exists ds, decodeShards (second :: rest) = Ok ds
                              /\ Forall (fun data => strlen data = strlen mnemonicPhrase) ds).
    { clear Hrest. induction Hall as [|shard shards' (data & Hx & Hn) Hxs (ds & IHd & IHl)].
      - exists []. split; [reflexivity | constructor].
      - exists (data :: ds). split; [|constructor; assumption].
        apply decodeShards_Ok. constructor; [exact Hx | apply decodeShards_Ok, IHd]. }
    destruct Hdec as (ds & Hdec & Hlen).
    assert (Hall' : decodeShards (first :: second :: rest) = Ok (mnemonicPhrase :: ds)).
    { apply decodeShards_Ok. constructor; [exact Hd | apply decodeShards_Ok, Hdec]. }
    rewrite Hall'.
    rewrite (proj2 (checkLengths_None _ _ _)) by (constructor; [reflexivity | exact Hlen]).
    rewrite Hvalid. reflexivity.
Qed.

(** X26. Round trip: whatever threshold was asked for, any two or more of the
    shards [SplitMnemonic] returned, in any order and with repetitions,
    are combined by [CombineShards] into the mnemonic that was split; the
    result holds as many shards as it reports, between the threshold and
    255. *)
Theorem SplitMnemonic_CombineShards_round_trip mnemonicPhrase threshold shares r chosen :
  SplitMnemonic IsMnemonicValid mnemonicPhrase threshold shares = Ok r ->
  (2 <= length chosen)%nat ->
  Forall (fun shard => shard ∈ Shards r) chosen ->
  len (Shards r) = TotalShares r
  /\ 2 <= Threshold r <= TotalShares r /\ TotalShares r <= 255
  /\ CombineShards IsMnemonicValid chosen = Ok mnemonicPhrase.
Proof.
  intros Hsplit Hlen Hin.
  apply SplitMnemonic_Ok in Hsplit as (Hvalid & Ht & Hs & _ & _ & Hshards).
  split; [|split; [lia|split; [lia|]]].
  { rewrite Hshards. unfold len. rewrite length_replicate. lia. }
  assert (Heq : Forall (fun shard => shard = hex_EncodeToString mnemonicPhrase) chosen).
  { eapply Forall_impl; [exact Hin|]. intros shard Hs'. rewrite Hshards in Hs'.
    apply elem_of_replicate in Hs' as [-> _]. reflexivity. }
  destruct chosen as [|first [|second rest]]; simpl in Hlen; try lia.
  apply Forall_cons in Heq as [-> Heq].
  unfold CombineShards, Validate.
  rewrite (proj2 (len_lt_2 _)) by eauto.
  assert (Hdec : exists ds, decodeShards (second :: rest) = Ok ds
                            /\ Forall (fun data => strlen data = strlen mnemonicPhrase) ds).
  { clear Hin Hlen. induction Heq as [|shard shards' -> Hxs (ds & IHd & IHl)].
    - exists []. split; [reflexivity | constructor].
    - exists (mnemonicPhrase :: ds). split; [|constructor; [reflexivity | assumption]].
      apply decodeShards_Ok. constructor; [apply hex_round_trip | apply decodeShards_Ok, IHd]. }
  destruct Hdec as (ds & Hdec & Hl).
  assert (Hall : decodeShards (hex_EncodeToString mnemonicPhrase :: second :: rest)
                 = Ok (mnemonicPhrase :: ds)).
  { apply decodeShards_Ok. constructor; [apply hex_round_trip | apply decodeShards_Ok, Hdec]. }
  rewrite Hall.
  rewrite (proj2 (checkLengths_None _ _ _)) by (constructor; [reflexivity | exact Hl]).
  rewrite Hvalid. reflexivity.
Qed.

(** X27. The shards keep nothing secret: every single shard [SplitMnemonic]
    returns is the hexadecimal encoding of the whole mnemonic, so one shard
    alone, decoded, is the mnemonic, and all shards are equal. *)
Theorem SplitMnemonic_single_shard_reveals mnemonicPhrase threshold shares r shard :
  SplitMnemonic IsMnemonicValid mnemonicPhrase threshold shares = Ok r ->
  shard ∈ Shards r ->
  hex_DecodeString shard = Some mnemonicPhrase
  /\ forall other, other ∈ Shards r -> other = shard.
Proof.
  intros Hsplit Hin.
  apply SplitMnemonic_Ok in Hsplit as (_ & _ & _ & _ & _ & Hshards).
  rewrite Hshards in *.
  apply elem_of_replicate in Hin as [-> _].
  split; [apply hex_round_trip|].
  intros other Ho. apply elem_of_replicate in Ho as [-> _]. reflexivity.
Qed.

End Manager.

(** A mnemonic and a validator that accepts it alone. *)
Definition phrase : string :=
  "legal winner thank year wave sausage worth useful legal winner thank yellow".

Lemma SplitMnemonic_CombineShards_round_trip_witness :
  let valid := String.eqb phrase in
  let r := {| Shards := replicate 5 (hex_EncodeToString phrase);
              Threshold := 3; TotalShares := 5 |} in
  let chosen := [hex_EncodeToString phrase; hex_EncodeToString phrase] in
  SplitMnemonic valid phrase 3 5 = Ok r
  /\ len (Shards r) = TotalShares r
  /\ 2 <= Threshold r <= TotalShares r /\ TotalShares r <= 255
  /\ CombineShards valid chosen = Ok phrase.
Proof.
  intros valid r chosen.
  split; [reflexivity|].
  apply (SplitMnemonic_CombineShards_round_trip valid phrase 3 5 r chosen).
  - reflexivity.
  - simpl. lia.
  - repeat constructor.
Defined.

Lemma SplitMnemonic_single_shard_reveals_witness :
  let valid := String.eqb phrase in
  let r := {| Shards := replicate 3 (hex_EncodeToString phrase);
              Threshold := 2; TotalShares := 3 |} in
  SplitMnemonic valid phrase 0 0 = Ok r
  /\ hex_DecodeString (hex_EncodeToString phrase) = Some phrase.
Proof.
  intros valid r.
  split; [reflexivity|].
  apply (SplitMnemonic_single_shard_reveals valid phrase 0 0 r (hex_EncodeToString phrase)).
  - reflexivity.
  - constructor.
Defined.

End ShardingProofs.

(** ** Sending *)

Module SendingProofs.

Import types utxo manager transaction sending.

(** The 64-bit subtractions of [calculateTransactionResult]. *)
Lemma reported_sub sel amount :
  sub64 (totalInputLoop sel 0) amount = wrap64 (sumValues sel - amount).
Proof.
  unfold sub64. rewrite <- wrap64_sub_l, ManagerProofs.totalInputLoop_wrap, wrap64_sub_l.
  f_equal.
Qed.

Lemma reported_sub2 sel amount change :
  sub64 (sub64 (totalInputLoop sel 0) amount) change
  = wrap64 (sumValues sel - amount - change).
Proof.
  rewrite reported_sub. unfold sub64. rewrite wrap64_sub_l. reflexivity.
Qed.

(** The value [calculateTransactionResult] reads as the change. *)
Definition secondValue (tx : MsgTx) : Z :=
  match msg_TxOut tx with
  | _ :: second :: _ => out_Value second
  | _ => 0
  end.

Section Sender.

Variable L : Lib.
Variable E : Env.
Variable W : Wire.

(** The first two outputs of a transaction [addOutputs] has filled. *)
Lemma addOutputs_first_two c tx params sel fee tx' :
  let change := sumValues sel - Amount params - fee in
  let dust := config.DustLimit (config.Transaction c) in
  fits64 change -> msg_TxOut tx = [] ->
  addOutputs L c tx params sel fee = transaction.Ok tx' ->
  (TokenTransfers params = [] -> DataOutputs params = [] ->
     (dust < change -> secondValue tx' = change)
     /\ (change <= dust -> secondValue tx' = 0))
  /\ (TokenTransfers params <> [] \/ DataOutputs params <> [] -> secondValue tx' = 0).
Proof.
  intros change dust Hfit Hnil H. unfold addOutputs in H.
  destruct (DecodeAddress L (To params) _) as [recipientAddr|]; [|discriminate].
  destruct (PayToAddrScript L recipientAddr) as [recipientScript|]; [|discriminate].
  destruct (addTokenOutputs L _ (TokenTransfers params)) as [tx1|] eqn:H1; [|discriminate].
  destruct (addDataOutputs L tx1 (DataOutputs params)) as [tx2|] eqn:H2; [|discriminate].
  apply TransactionProofs.addTokenOutputs_ok in H1 as (_ & markers & Hm & Hout1).
  apply TransactionProofs.addDataOutputs_ok in H2 as (_ & datas & Hd & Hout2).
  assert (Hout : msg_TxOut tx2 = NewTxOut (Amount params) recipientScript
                                   :: map (NewTxOut 0) markers ++ map (NewTxOut 0) datas).
  { rewrite Hout2, Hout1. simpl. rewrite Hnil. reflexivity. }
  rewrite ManagerProofs.CalculateChange_wrap in H. cbv zeta in H.
  fold change in H. rewrite (wrap64_fits _ Hfit) in H. fold dust in H.
  assert (Htail : forall last,
            (TokenTransfers params <> [] \/ DataOutputs params <> []) ->
            match NewTxOut (Amount params) recipientScript
                  :: (map (NewTxOut 0) markers ++ map (NewTxOut 0) datas) ++ last with
            | _ :: second :: _ => out_Value second
            | _ => 0
            end = 0).
  { intros last [Ht|Hdt].
    - destruct Hm; [contradiction|]. reflexivity.
    - destruct Hm; [|reflexivity]. destruct Hd; [contradiction|]. reflexivity. }
  destruct (Z.ltb_spec dust change) as [Habove|Hdust].
  - destruct (DecodeAddress L (From params) _) as [senderAddr|]; [|discriminate].
    destruct (PayToAddrScript L senderAddr) as [changeScript|]; [|discriminate].
    inversion H; subst tx'. unfold secondValue. simpl msg_TxOut. rewrite Hout.
    split.
    + intros Ht Hdt. rewrite Ht in Hm. rewrite Hdt in Hd.
      inversion Hm; subst. inversion Hd; subst. simpl. split; [reflexivity | lia].
    + intros Hsome. apply (Htail [NewTxOut change changeScript] Hsome).
  - inversion H; subst tx'. unfold secondValue. rewrite Hout.
    split.
    + intros Ht Hdt. rewrite Ht in Hm. rewrite Hdt in Hd.
      inversion Hm; subst. inversion Hd; subst. simpl. split; [lia | reflexivity].
    + intros Hsome. pose proof (Htail [] Hsome) as Hz. rewrite app_nil_r in Hz. exact Hz.
Qed.

Lemma assemble_second c params sel fee keyPair tx :
  let change := sumValues sel - Amount params - fee in
  let dust := config.DustLimit (config.Transaction c) in
  fits64 change ->
  assemble L c params sel fee keyPair = transaction.Ok tx ->
  (TokenTransfers params = [] -> DataOutputs params = [] ->
     (dust < change -> secondValue tx = change)
     /\ (change <= dust -> secondValue tx = 0))
  /\ (TokenTransfers params <> [] \/ DataOutputs params <> [] -> secondValue tx = 0).
Proof.
  intros change dust Hfit H. unfold assemble in H.
  destruct (addInputs L (NewMsgTx 1) sel) as [tx1|] eqn:H1; [|discriminate].
  destruct (addOutputs L c tx1 params sel fee) as [tx2|] eqn:H2; [|discriminate].
  destruct (signTransaction L c tx2 sel keyPair) as [tx3|] eqn:H3; [|discriminate].
  inversion H; subst tx3.
  apply TransactionProofs.addInputs_ok in H1 as [Hout1 _]. simpl in Hout1.
  apply TransactionProofs.signLoop_ok in H3 as [Hout3 _].
  pose proof (addOutputs_first_two c tx1 params sel fee tx2 Hfit Hout1 H2) as Hsecond.
  unfold secondValue in *. rewrite Hout3. exact Hsecond.
Qed.

Lemma calculateTransactionResult_unfold tx params txID txBytes w :
  let run := SelectUTXOs E (From params) (Amount params) (FeeRate params) w in
  let sel := match fst run with utxo.Ok (sel, _) => sel | utxo.Err _ => [] end in
  let res := fst (calculateTransactionResult E W tx params txID txBytes w) in
  snd (calculateTransactionResult E W tx params txID txBytes w) = snd run
  /\ Change res = secondValue tx
  /\ Fee res = match msg_TxOut tx with
               | _ :: _ :: _ => wrap64 (sumValues sel - Amount params - secondValue tx)
               | _ => wrap64 (sumValues sel - Amount params)
               end
  /\ InputsUsed res = match fst run with
                      | utxo.Ok _ => pointersTo W sel
                      | utxo.Err _ => []
                      end
  /\ map to_Amount (OutputsCreated res) = map out_Value (msg_TxOut tx)
  /\ Forall (fun o => to_IsData o = false) (OutputsCreated res)
  /\ SignedTx res = hexOfBytes txBytes /\ res_TxID res = txID
  /\ res_ExplorerURL res = config.ExplorerURL (config.Network (cfg w)) +:+ "/tx/" +:+ txID.
Proof.
  intros run sel res. unfold res, sel, run, calculateTransactionResult, bind,
    GetNetworkConfig, ret, secondValue.
  destruct (SelectUTXOs E (From params) (Amount params) (FeeRate params) w)
    as [[[selected fee']|e] w1]; cbn [fst snd];
    destruct (msg_TxOut tx) as [|p [|q rest]] eqn:Hout; cbn [fst snd Change Fee InputsUsed
      OutputsCreated SignedTx res_TxID res_ExplorerURL];
    rewrite ?reported_sub2, ?reported_sub, ?map_map; cbn [to_Amount];
    repeat split; try reflexivity;
    apply Forall_map, Forall_forall; intros; reflexivity.
Qed.

(** X28. The fee and the change [calculateTransactionResult] reports for a
    transaction assembled from a funded selection, when its own selection
    returns the same outputs.  The change is read from the second output.
    Without token transfers and data outputs that is the change output,
    if there is one, and the reported fee is what the transaction leaves
    to the miners.  With a token transfer or a data output the second
    output is a zero-valued one: the reported change is 0 and the
    reported fee is inputs minus amount, which includes the change the
    transaction pays back to the sender.  No output is reported as a data
    output. *)
Theorem reported_fee_and_change c params sel fee fee' keyPair tx txID txBytes w :
  let total := sumValues sel in
  let dust := config.DustLimit (config.Transaction c) in
  let change := total - Amount params - fee in
  let res := fst (calculateTransactionResult E W tx params txID txBytes w) in
  0 <= Amount params -> 0 <= fee -> Amount params + fee <= total -> total <= max_int64 ->
  assemble L c params sel fee keyPair = transaction.Ok tx ->
  fst (SelectUTXOs E (From params) (Amount params) (FeeRate params) w) = utxo.Ok (sel, fee') ->
  (TokenTransfers params = [] -> DataOutputs params = [] ->
     (dust < change -> Change res = change /\ Fee res = fee)
     /\ (change <= dust -> Change res = 0 /\ Fee res = fee + change))
  /\ (TokenTransfers params <> [] \/ DataOutputs params <> [] ->
      Change res = 0 /\ Fee res = fee + change)
  /\ map to_Amount (OutputsCreated res) = map out_Value (msg_TxOut tx)
  /\ Forall (fun o => to_IsData o = false) (OutputsCreated res).
Proof.
  intros total dust change res Ha Hf Hfund Hmax Hbuild Hsel.
  assert (Hfit : fits64 change) by (unfold fits64, change, max_int64 in *; lia).
  destruct (assemble_second c params sel fee keyPair tx Hfit Hbuild) as [Hplain Hdata].
  destruct (calculateTransactionResult_unfold tx params txID txBytes w)
    as (_ & Hchange & Hfee & _ & Hamounts & Hnodata & _).
  rewrite Hsel in Hfee. fold res in Hchange, Hfee, Hamounts, Hnodata. fold total in Hfee.
  assert (Hreport : forall v, secondValue tx = v -> 0 <= v <= change ->
            Change res = v /\ Fee res = total - Amount params - v).
  { intros v Hv Hrange. split; [congruence|]. rewrite Hfee.
    clear Hplain Hdata Hchange. unfold secondValue in *.
    destruct (msg_TxOut tx) as [|p [|q rest]]; subst v;
      rewrite wrap64_fits; unfold fits64, change, total, max_int64 in *; lia. }
  split; [|split; [|split; assumption]].
  - intros Ht Hd. destruct (Hplain Ht Hd) as [Habove Hbelow]. split.
    + intros Hlt. destruct (Hreport change (Habove Hlt)) as [-> ->];
        unfold change in *; lia.
    + intros Hle. destruct (Hreport 0 (Hbelow Hle)) as [-> ->];
        unfold change in *; lia.
  - intros Hsome. destruct (Hreport 0 (Hdata Hsome)) as [-> ->];
      unfold change in *; lia.
Qed.

(** X29. [calculateTransactionResult] returns a result even when its own
    selection fails (the outputs may have been spent by the broadcast, or
    the request may fail): it then reports no input and, for a positive
    amount, a negative fee, minus the amount and the value it reads as the
    change. *)
Theorem failed_selection_reports_negative_fee tx params txID txBytes w e :
  let res := fst (calculateTransactionResult E W tx params txID txBytes w) in
  fst (SelectUTXOs E (From params) (Amount params) (FeeRate params) w) = utxo.Err e ->
  0 < Amount params -> 0 <= secondValue tx ->
  Amount params + secondValue tx <= max_int64 ->
  InputsUsed res = []
  /\ Change res = secondValue tx
  /\ Fee res = - Amount params - secondValue tx
  /\ Fee res < 0.
Proof.
  intros res Hsel Ha Hs Hmax.
  destruct (calculateTransactionResult_unfold tx params txID txBytes w)
    as (_ & Hchange & Hfee & Hin & _).
  rewrite Hsel in Hfee, Hin. fold res in Hchange, Hfee, Hin. simpl sumValues in Hfee.
  assert (Fee res = - Amount params - secondValue tx) as Hneg.
  { rewrite Hfee. unfold secondValue in *.
    destruct (msg_TxOut tx) as [|p [|q rest]];
      rewrite wrap64_fits; unfold fits64, max_int64 in *; lia. }
  repeat split; [exact Hin | exact Hchange | exact Hneg | lia].
Qed.

Lemma SelectUTXOs_trace address amount feeRate w :
  exists rest, trace (snd (SelectUTXOs E address amount feeRate w))
               = trace w ++ EvSelectUTXOs address amount feeRate :: rest.
Proof.
  rewrite ManagerProofs.SelectUTXOs_unfold.
  destruct (TransactionProofs.GetUTXOs_trace E address
              (ManagerProofs.atFetch address amount feeRate w)) as [rest Hrest].
  exists rest.
  destruct (GetUTXOs E address _) as [[all|e] w1]; cbn [snd] in *;
    rewrite Hrest; simpl; rewrite <- app_assoc; reflexivity.
Qed.

(** X30. [SignAndSendTransaction] returns a result only for a transaction that
    [BuildTransaction] built, that serialised, and whose broadcast the
    service accepted; the result carries that transaction's id and bytes.
    The broadcast is the first interaction after the build, and it is
    followed by a second [SelectUTXOs], made with the parameters as the
    build left them (the default fee rate in place of a rate that was not
    positive).  When the build fails nothing is sent: the state is the one
    the build left. *)
Theorem SignAndSendTransaction_sends_what_it_built params w :
  let url wb := config.RPCURL (config.Network (cfg wb)) +:+ "/tx/raw" in
  (forall res, fst (SignAndSendTransaction L E W params w) = Ok res ->
     exists tx params' txBytes wb rest,
       BuildTransaction L E params w = ((transaction.Ok tx, params'), wb)
       /\ Serialize W tx = Some txBytes
       /\ broadcast_api W (steps wb) (url wb) txBytes = true
       /\ res_TxID res = TxHashString W tx /\ SignedTx res = hexOfBytes txBytes
       /\ trace (snd (SignAndSendTransaction L E W params w))
          = trace wb ++ EvRequest (url wb)
              :: EvSelectUTXOs (From params') (Amount params') (FeeRate params') :: rest)
  /\ (forall err, fst (fst (BuildTransaction L E params w)) = transaction.Err err ->
        SignAndSendTransaction L E W params w
        = (Err (ErrBuild err), snd (BuildTransaction L E params w))).
Proof.
  intros url. unfold SignAndSendTransaction, bind.
  destruct (BuildTransaction L E params w) as [[[tx|err0] params'] wb]; cbn [fst snd].
  - split; [|discriminate]. intros res.
    destruct (Serialize W tx) as [txBytes|] eqn:Hser; [|discriminate].
    unfold broadcastTransaction, bind, GetNetworkConfig, logEvent. cbn [fst snd steps cfg].
    fold (url wb).
    destruct (broadcast_api W (steps wb) (url wb) txBytes) eqn:Hsent;
      [|cbn [negb]; unfold ret; cbn [fst]; discriminate].
    cbn [negb].
    set (w2 := tick _).
    destruct (calculateTransactionResult_unfold tx params' (TxHashString W tx) txBytes w2)
      as (Hw & _ & _ & _ & _ & _ & Hsigned & Hid & _).
    destruct (SelectUTXOs_trace (From params') (Amount params') (FeeRate params') w2)
      as [rest Hrest].
    destruct (calculateTransactionResult E W tx params' (TxHashString W tx) txBytes w2)
      as [r w3]; cbn [fst snd ret] in *.
    intros [= <-]. exists tx, params', txBytes, wb, rest.
    repeat (split; [first [reflexivity | assumption]|]).
    rewrite Hw, Hrest. unfold w2. simpl. rewrite <- app_assoc. reflexivity.
  - split; [discriminate|]. intros err [= <-]. reflexivity.
Qed.

End Sender.

(** A library whose calls all succeed, a service that accepts every
    broadcast, and a payment of 49,000 with one data output. *)
Definition lib : Lib :=
  {| NewHashFromStr := fun s => Some s; DecodeAddress := fun s _ => Some s;
     PayToAddrScript := fun _ => Some []; opReturnScript := fun d => Some d;
     hex_DecodeString := fun _ => Some []; tokenDataHex := fun _ => [];
     signatureScript := fun _ _ _ _ => Some [];
     getSenderInfo := fun _ _ => Some (scenarios.addr, "key") |}.

Definition wire : Wire :=
  {| Serialize := fun _ => Some []; TxHashString := fun _ => "txid";
     broadcast_api := fun _ _ _ => true; loopVarPerIteration := true |}.

Definition payment (dataOutputs : list DataOutput) : TransactionParams :=
  {| From := scenarios.addr; To := "n1recipient"; Amount := 49000; FeeRate := 5;
     PrivateKey := "key"; IncludeNativeUTXOs := true; IncludeNonNativeUTXOs := false;
     TokenTransfers := []; DataOutputs := dataOutputs |}.

(** Inputs of 50,000 and 30,000 for 49,000 at fee 1,870: the transaction
    pays 29,130 back to the sender, and with a data output the report
    shows a change of 0 and a fee of 31,000. *)
Lemma reported_fee_and_change_witness :
  let E := scenarios.env scenarios.threeOutputs 0 1 in
  let params := payment [{| Data := "00" |}] in
  let sel := map toUTXO [scenarios.response "b2" 50000 6; scenarios.response "a1" 30000 6] in
  exists tx,
    assemble lib config.getDefaultConfig params sel 1870 "key" = transaction.Ok tx
    /\ map out_Value (msg_TxOut tx) = [49000; 0; 29130]
    /\ let res := fst (calculateTransactionResult E wire tx params "txid" [] scenarios.fresh) in
       Change res = 0 /\ Fee res = 31000.
Proof.
  intros E params sel.
  destruct (assemble lib config.getDefaultConfig params sel 1870 "key") as [tx|e] eqn:Hrun;
    [|vm_compute in Hrun; discriminate].
  exists tx. split; [reflexivity|].
  split; [vm_compute in Hrun; inversion Hrun; reflexivity|].
  destruct (reported_fee_and_change lib E wire config.getDefaultConfig params sel 1870 1870
              "key" tx "txid" [] scenarios.fresh) as (_ & H & _);
    [vm_compute; discriminate | vm_compute; discriminate | vm_compute; discriminate
    | vm_compute; discriminate | exact Hrun | vm_compute; reflexivity |].
  destruct H as [Hc Hf]; [right; discriminate|].
  cbv zeta. split; [exact Hc|]. rewrite Hf. vm_compute. reflexivity.
Defined.

Lemma failed_selection_reports_negative_fee_witness :
  let E := {| clock := fun n => Z.of_nat n; unspent_api := fun _ _ => None;
              balance_api := fun _ _ => None |} in
  let tx := AddTxOut (AddTxOut (NewMsgTx 1) (NewTxOut 49000 [])) (NewTxOut 29130 []) in
  let res := fst (calculateTransactionResult E wire tx (payment []) "txid" []
                    scenarios.fresh) in
  InputsUsed res = [] /\ Change res = 29130 /\ Fee res = - 49000 - 29130 /\ Fee res < 0.
Proof.
  intros E tx res.
  apply (failed_selection_reports_negative_fee E wire tx (payment []) "txid" []
           scenarios.fresh ErrGetUTXOs).
  - vm_compute. reflexivity.
  - reflexivity.
  - vm_compute. discriminate.
  - vm_compute. discriminate.
Defined.

Lemma SignAndSendTransaction_sends_what_it_built_witness :
  let E := scenarios.env scenarios.threeOutputs 0 1 in
  exists res,
    fst (SignAndSendTransaction lib E wire (payment []) scenarios.fresh) = Ok res
    /\ res_TxID res = "txid".
Proof.
  intros E.
  destruct (fst (SignAndSendTransaction lib E wire (payment []) scenarios.fresh))
    as [res|e] eqn:Hrun; [|vm_compute in Hrun; discriminate].
  exists res. split; [reflexivity|].
  destruct (SignAndSendTransaction_sends_what_it_built lib E wire (payment [])
              scenarios.fresh) as [Hok _].
  destruct (Hok res Hrun) as (tx & params' & txBytes & wb & rest & _ & _ & _ & Hid & _).
  rewrite Hid. reflexivity.
Defined.

End SendingProofs.

(** ** The cache boundary, the fetch filter, the change rule and the fee-rate policy *)

Module PolicyProofs.

Import types transaction utxo manager ManagerProofs CacheProofs.

(** *** Expiry of a cache entry *)

(** C6, as stated, fails: an entry whose age equals the time-to-live
    (300 seconds under the default configuration) is still returned. *)
Lemma getFromCache_serves_at_age_equal_ttl :
  ~ (forall E address w entry,
       config.EnableCaching (config.UTXO (cfg w)) = true ->
       cache w !! address = Some entry ->
       (fst (getFromCache E address w) = Some entry <->
        clock E (steps w) - Timestamp entry
          < config.CacheExpiry (config.UTXO (cfg w)) * 1000000000)).
Proof.
  intros H.
  pose (entry := {| UTXOs := []; Balance := None; Timestamp := - 300000000000 |}).
  pose (w := {| cfg := config.getDefaultConfig; cache := {[ scenarios.addr := entry ]};
                steps := 0; trace := [] |}).
  destruct (H (scenarios.env [] 0 1) scenarios.addr w entry) as [Hlt _];
    [reflexivity | reflexivity |].
  specialize (Hlt ltac:(vm_compute; reflexivity)). vm_compute in Hlt. discriminate.
Qed.

(** C6, amended.  With caching enabled and an expiry setting between 0
    and 9,000,000,000 seconds (so that the time-to-live in nanoseconds
    fits 64 bits), a lookup returns the entry of the
    address exactly while its age (clock reading minus timestamp) is at
    most the time-to-live: at an age equal to the time-to-live the entry
    is still returned, and [GetUTXOs] then answers from it without a
    request.  An entry whose age is strictly above the time-to-live is
    treated as absent, though it stays in the cache (the lookup removes
    nothing), and [GetUTXOs] then makes a fresh request and returns what
    the service answers, not the stale outputs. *)
Theorem getFromCache_lazy_expiry E address w entry :
  let utxoConfig := config.UTXO (cfg w) in
  let age := clock E (steps w) - Timestamp entry in
  let ttl := config.CacheExpiry utxoConfig * 1000000000 in
  config.EnableCaching utxoConfig = true ->
  0 <= config.CacheExpiry utxoConfig <= 9000000000 ->
  cache w !! address = Some entry ->
  (fst (getFromCache E address w) = Some entry <-> age <= ttl)
  /\ (fst (getFromCache E address w) = None <-> ttl < age)
  /\ cache (snd (getFromCache E address w)) !! address = Some entry
  /\ (age <= ttl -> GetUTXOs E address w = (Ok (UTXOs entry), tick w))
  /\ (ttl < age ->
      trace (snd (GetUTXOs E address w)) = trace w ++ [EvRequest (unspentURL w address)]
      /\ forall rs,
           unspent_api E (S (steps w)) (unspentURL w address) = Some rs ->
           fst (GetUTXOs E address w)
           = Ok (map toUTXO (take (Z.to_nat (config.MaxUTXOsPerQuery utxoConfig))
                                  (List.filter (confirmed utxoConfig) rs)))).
Proof.
  intros utxoConfig age ttl Hon Hexp Hentry.
  pose proof (getFromCache_entry E address w entry Hon Hexp Hentry) as Hget.
  fold utxoConfig age ttl in Hget. cbv zeta in Hget.
  rewrite GetUTXOs_unfold, Hget.
  destruct (decide (age <= ttl)) as [Hle|Hgt]; cbn [fst snd tick cache].
  - split; [tauto|]. split; [split; [discriminate | lia]|].
    split; [exact Hentry|]. split; [reflexivity | lia].
  - split; [split; [discriminate | lia]|]. split; [split; [lia | reflexivity]|].
    split; [exact Hentry|]. split; [lia|]. intros _. cbn [steps tick].
    split.
    + destruct (unspent_api E (S (steps w)) _);
        [destruct (cachingEnabled w)|]; reflexivity.
    + intros rs ->. cbn [fst]. rewrite convertResponses_filter.
      change (len (@nil UTXO)) with 0. rewrite Z.sub_0_r. reflexivity.
Qed.

(** An entry stamped 300 seconds before the reading is served; stamped
    one nanosecond earlier it is not, and the outputs come from the
    service. *)
Lemma getFromCache_lazy_expiry_witness :
  let E := scenarios.env scenarios.threeOutputs 0 1 in
  let entry stamp := {| UTXOs := []; Balance := None; Timestamp := stamp |} in
  let w stamp := {| cfg := config.getDefaultConfig;
                    cache := {[ scenarios.addr := entry stamp ]};
                    steps := 0; trace := [] |} in
  GetUTXOs E scenarios.addr (w (- 300000000000)) = (Ok [], tick (w (- 300000000000)))
  /\ fst (GetUTXOs E scenarios.addr (w (- 300000000001)))
     = Ok (map toUTXO scenarios.threeOutputs).
Proof.
  intros E entry w. split.
  - destruct (getFromCache_lazy_expiry E scenarios.addr (w (- 300000000000))
                (entry (- 300000000000))) as (_ & _ & _ & Hhit & _);
      [reflexivity | vm_compute; split; discriminate | reflexivity |].
    apply Hhit. vm_compute. discriminate.
  - destruct (getFromCache_lazy_expiry E scenarios.addr (w (- 300000000001))
                (entry (- 300000000001))) as (_ & _ & _ & _ & Hmiss);
      [reflexivity | vm_compute; split; discriminate | reflexivity |].
    destruct Hmiss as [_ Hfresh]; [vm_compute; reflexivity|].
    rewrite (Hfresh scenarios.threeOutputs eq_refl). vm_compute. reflexivity.
Defined.

(** *** What the fetch returns *)



(** *** The token selector and the fee rate *)

Lemma filter_keeps_all {A} (f : A -> bool) (l : list A) :
  Forall (fun x => f x = true) l -> List.filter f l = l.
Proof. induction 1 as [|x l Hx _ IH]; simpl; [reflexivity|]. rewrite Hx, IH. reflexivity. Qed.

Lemma filter_keeps_none {A} (f : A -> bool) (l : list A) :
  Forall (fun x => f x = false) l -> List.filter f l = [].
Proof. induction 1 as [|x l Hx _ IH]; simpl; [reflexivity|]. rewrite Hx. exact IH. Qed.

(** C9. [SelectUTXOsForTokenTransfer] applies no fee-rate bound: for every
    fee rate (zero, negative and above the configured maximum included)
    it never fails with the out-of-range error, and its result is the
    same under every transaction configuration, so the default rate is
    never substituted.  The fee it returns is [(10 + 148 k + 34 + 34) *
    feeRate] in 64-bit arithmetic, at the rate as supplied, [k] being the
    number of token (non-native) outputs it selected: exactly that product
    when it fits 64 bits, and 0 at rate 0. *)
Theorem SelectUTXOsForTokenTransfer_no_rate_bounds E address tokenID amount feeRate w :
  (forall rate maxRate,
     fst (SelectUTXOsForTokenTransfer E address tokenID amount feeRate w)
       <> Err (ErrFeeRateExceedsMax rate maxRate))
  /\ (forall t,
        fst (SelectUTXOsForTokenTransfer E address tokenID amount feeRate
               (TokenProofs.withTransactionConfig w t))
        = fst (SelectUTXOsForTokenTransfer E address tokenID amount feeRate w))
  /\ (forall sel fee,
        fst (SelectUTXOsForTokenTransfer E address tokenID amount feeRate w) = Ok (sel, fee) ->
        let k := len (List.filter (fun u => negb (IsNative u)) sel) in
        fee = wrap64 ((10 + 148 * k + 34 + 34) * feeRate)
        /\ (fits64 ((10 + 148 * k + 34 + 34) * feeRate) ->
            fee = (10 + 148 * k + 34 + 34) * feeRate)
        /\ (feeRate = 0 -> fee = 0)).
Proof.
  split; [|split].
  - intros rate maxRate. rewrite TokenProofs.SelectUTXOsForTokenTransfer_unfold.
    set (w0 := logged w _).
    pose proof (TokenProofs.GetUTXOs_Err E address w0) as Herr.
    destruct (GetUTXOs E address w0) as [[all|e] w1]; simpl in *.
    + unfold selectForTokenFrom.
      destruct (splitByToken _ _ _ _) as [tok nat].
      destruct (_ <? _); [discriminate|].
      destruct (takeUntil TokenAmount _ _ _ _) as [selT amtT].
      destruct (takeUntil Value _ _ _ _) as [selN totN].
      destruct (_ <? _); discriminate.
    + rewrite (Herr e eq_refl). discriminate.
  - intros t. rewrite !TokenProofs.SelectUTXOsForTokenTransfer_unfold.
    change (logged (TokenProofs.withTransactionConfig w t)
              (EvSelectUTXOsForTokenTransfer address tokenID amount feeRate))
      with (TokenProofs.withTransactionConfig
              (logged w (EvSelectUTXOsForTokenTransfer address tokenID amount feeRate)) t).
    rewrite TokenProofs.GetUTXOs_withTransactionConfig.
    destruct (GetUTXOs E address _) as [[all|e] w1]; reflexivity.
  - intros sel fee Hsel k. rewrite TokenProofs.SelectUTXOsForTokenTransfer_unfold in Hsel.
    destruct (GetUTXOs E address _) as [[all|e] w1]; simpl in Hsel; [|discriminate].
    apply TokenProofs.selectForTokenFrom_Ok in Hsel as (kt & kn & Hs & Hfee & _ & _).
    cbv zeta in Hs, Hfee.
    set (tokens := take kt _) in *. set (natives := take kn _) in *.
    assert (Htok : Forall (fun u => negb (IsNative u) = true) tokens).
    { apply Forall_take.
      rewrite (sortUTXOsByTokenAmount_perm (List.filter (TokenProofs.isToken tokenID) all)).
      eapply Forall_impl; [apply TokenProofs.filter_isToken_Forall|].
      intros u [Hu _]. simpl in Hu. rewrite Hu. reflexivity. }
    assert (Hnat : Forall (fun u => negb (IsNative u) = false) natives).
    { apply Forall_take.
      rewrite (sortUTXOsByValue_perm (List.filter IsNative all)).
      eapply Forall_impl; [apply TokenProofs.filter_IsNative_Forall|].
      intros u Hu. simpl in Hu. rewrite Hu. reflexivity. }
    assert (Hk : k = len tokens).
    { unfold k. rewrite Hs, List.filter_app, (filter_keeps_all _ _ Htok),
        (filter_keeps_none _ _ Hnat), app_nil_r. reflexivity. }
    rewrite Hk.
    assert (Hw : fee = wrap64 ((10 + 148 * len tokens + 34 + 34) * feeRate)).
    { rewrite Hfee, feeFor_wrap. f_equal. lia. }
    split; [exact Hw|]. split.
    + intros Hfit. rewrite Hw. apply wrap64_fits, Hfit.
    + intros ->. rewrite Hw, Z.mul_0_r. apply TokenProofs.wrap64_0.
Qed.

(** A cache entry made by hand with two outputs of token ["T"] (60 and 50
    units) around a native output of 5,000,000: 100 units take both token
    outputs; at rate 0 the fee is 0, and at rate 2,000, above the maximum
    of 1,000, the fee is 374 * 2,000. *)
Lemma SelectUTXOsForTokenTransfer_no_rate_bounds_witness :
  let token amount := {| TxID := "t"; Vout := 0; Value := 1; ScriptPubKey := "";
                         Address := scenarios.addr; Confirmations := 6; Height := 1;
                         IsNative := false; TokenID := "T"; TokenAmount := amount |} in
  let native := toUTXO (scenarios.response "n" 5000000 6) in
  let w := {| cfg := config.getDefaultConfig;
              cache := {[ scenarios.addr := {| UTXOs := [token 50; native; token 60];
                                               Balance := None; Timestamp := 0 |} ]};
              steps := 0; trace := [] |} in
  let E := scenarios.env [] 0 1 in
  fst (SelectUTXOsForTokenTransfer E scenarios.addr "T" 100 2000 w)
    = Ok ([token 60; token 50; native], 748000)
  /\ 748000 = (10 + 148 * 2 + 34 + 34) * 2000.
Proof.
  intros token native w E.
  assert (Hrun : fst (SelectUTXOsForTokenTransfer E scenarios.addr "T" 100 2000 w)
                 = Ok ([token 60; token 50; native], 748000)) by (vm_compute; reflexivity).
  split; [exact Hrun|].
  destruct (SelectUTXOsForTokenTransfer_no_rate_bounds E scenarios.addr "T" 100 2000 w)
    as (_ & _ & Hfee).
  destruct (Hfee _ _ Hrun) as (_ & Hexact & _).
  apply Hexact. vm_compute. split; [discriminate | reflexivity].
Defined.

(** *** The fee rate in parameter validation *)

(** C3, as stated, fails: under the default configuration a request with
    fee rate 0 and otherwise valid parameters passes validation. *)
Lemma validateParams_accepts_fee_rate_zero :
  ~ (forall txConfig params,
       FeeRate params = 0 -> exists e, fst (validateParams txConfig params) = Some e).
Proof.
  intros H.
  destruct (H config.getDefaultTransactionConfig
              {| From := scenarios.addr; To := "n1recipient"; Amount := 1000; FeeRate := 0;
                 PrivateKey := "key"; IncludeNativeUTXOs := true;
                 IncludeNonNativeUTXOs := false; TokenTransfers := []; DataOutputs := [] |}
              eq_refl) as [e He].
  vm_compute in He. discriminate.
Qed.

(** The parameters apart from the fee rate are valid. *)
Definition otherwiseValid (params : TransactionParams) : Prop :=
  From params <> "" /\ To params <> "" /\ 0 < Amount params /\ PrivateKey params <> ""
  /\ Forall TransactionProofs.transferOk (TokenTransfers params).

Lemma validateParams_otherwiseValid txConfig params :
  otherwiseValid params ->
  validateParams txConfig params =
    if FeeRate params <=? 0
    then (None, withFeeRate params (config.DefaultFeeRate txConfig))
    else if FeeRate params <? config.MinFeeRate txConfig
    then (Some (ErrFeeRateBelowMin (FeeRate params) (config.MinFeeRate txConfig)), params)
    else if config.MaxFeeRate txConfig <? FeeRate params
    then (Some (transaction.ErrFeeRateExceedsMax (FeeRate params) (config.MaxFeeRate txConfig)), params)
    else (None, params).
Proof.
  intros (HF & HT & HA & HK & Hts). unfold validateParams.
  destruct (String.eqb_spec (From params) ""); [contradiction|].
  destruct (String.eqb_spec (To params) ""); [contradiction|].
  destruct (Z.leb_spec (Amount params) 0); [lia|].
  destruct (String.eqb_spec (PrivateKey params) ""); [contradiction|].
  apply TransactionProofs.validateTransfers_None with (i := 0%nat) in Hts.
  destruct (FeeRate params <=? 0).
  - cbn [TokenTransfers withFeeRate]. rewrite Hts. reflexivity.
  - destruct (FeeRate params <? config.MinFeeRate txConfig); [reflexivity|].
    destruct (config.MaxFeeRate txConfig <? FeeRate params); [reflexivity|].
    rewrite Hts. reflexivity.
Qed.

(** C3, amended.  For parameters that are valid apart from the fee rate:
    a fee rate of 0, or a negative one, is not rejected; validation
    replaces it by the configured default rate and changes nothing else,
    and [BuildTransaction] (credential matching the sender, no token
    transfer) goes on to call [SelectUTXOs] at that default rate.  A
    positive fee rate below the configured minimum, or not below the
    minimum and above the configured maximum, makes [BuildTransaction]
    return the validation error before any selection call: the manager is
    left untouched. *)
Theorem BuildTransaction_fee_rate_validation L E params w :
  let txConfig := config.Transaction (cfg w) in
  let minRate := config.MinFeeRate txConfig in
  let maxRate := config.MaxFeeRate txConfig in
  let defaultRate := config.DefaultFeeRate txConfig in
  otherwiseValid params ->
  (FeeRate params <= 0 ->
     validateParams txConfig params = (None, withFeeRate params defaultRate)
     /\ forall keyPair,
          getSenderInfo L (config.Network (cfg w)) (PrivateKey params)
            = Some (From params, keyPair) ->
          TokenTransfers params = [] ->
          exists rest,
            trace (snd (BuildTransaction L E params w))
            = trace w ++ EvSelectUTXOs (From params) (Amount params) defaultRate :: rest)
  /\ (0 < FeeRate params < minRate ->
      BuildTransaction L E params w
      = ((transaction.Err (ErrFeeRateBelowMin (FeeRate params) minRate), params), w))
  /\ (0 < FeeRate params -> minRate <= FeeRate params -> maxRate < FeeRate params ->
      BuildTransaction L E params w
      = ((transaction.Err (transaction.ErrFeeRateExceedsMax (FeeRate params) maxRate), params), w)).
Proof.
  intros txConfig minRate maxRate defaultRate Hwf.
  pose proof (validateParams_otherwiseValid txConfig params Hwf) as Hv.
  fold minRate maxRate defaultRate in Hv.
  split; [|split].
  - intros Hzero. destruct (Z.leb_spec (FeeRate params) 0); [|lia].
    split; [exact Hv|]. intros keyPair Hsender Hnone.
    unfold BuildTransaction, bind, getConfig. fold txConfig. rewrite Hv.
    cbn [PrivateKey From TokenTransfers withFeeRate]. rewrite Hsender, Hnone.
    rewrite String.eqb_refl. cbn [negb].
    change (0 <? len (@nil TokenTransfer)) with false. cbv iota.
    cbn [FeeRate withFeeRate]. fold defaultRate.
    destruct (SendingProofs.SelectUTXOs_trace E (From params) (Amount params) defaultRate w)
      as [rest Hrest].
    exists rest.
    destruct (defaultRate <=? 0); cbn [From Amount FeeRate withFeeRate]; fold defaultRate;
      destruct (SelectUTXOs E (From params) (Amount params) defaultRate w)
        as [[[sel fee]|e] w1]; unfold ret; cbn [snd] in *; exact Hrest.
  - intros [Hpos Hbelow].
    destruct (Z.leb_spec (FeeRate params) 0); [lia|].
    destruct (Z.ltb_spec (FeeRate params) minRate); [|lia].
    unfold BuildTransaction, bind, getConfig. fold txConfig. rewrite Hv. reflexivity.
  - intros Hpos Hmin Habove.
    destruct (Z.leb_spec (FeeRate params) 0); [lia|].
    destruct (Z.ltb_spec (FeeRate params) minRate); [lia|].
    destruct (Z.ltb_spec maxRate (FeeRate params)); [|lia].
    unfold BuildTransaction, bind, getConfig. fold txConfig. rewrite Hv. reflexivity.
Qed.

(** Under the default configuration (minimum 1, default 5, maximum
    1,000): a request at rate 0 is selected for at rate 5; a request at
    rate 2,000 is rejected and the manager is as it was. *)
Lemma BuildTransaction_fee_rate_validation_witness :
  let E := scenarios.env scenarios.threeOutputs 0 1 in
  let params rate := {| From := scenarios.addr; To := "n1recipient"; Amount := 1000;
                        FeeRate := rate; PrivateKey := "key"; IncludeNativeUTXOs := true;
                        IncludeNonNativeUTXOs := false; TokenTransfers := [];
                        DataOutputs := [] |} in
  (exists rest,
     trace (snd (BuildTransaction SendingProofs.lib E (params 0) scenarios.fresh))
     = [] ++ EvSelectUTXOs scenarios.addr 1000 5 :: rest)
  /\ BuildTransaction SendingProofs.lib E (params 2000) scenarios.fresh
     = ((transaction.Err (transaction.ErrFeeRateExceedsMax 2000 1000), params 2000), scenarios.fresh).
Proof.
  intros E params.
  assert (Hwf : forall rate, otherwiseValid (params rate)).
  { intros rate. repeat split; try discriminate; try reflexivity. constructor. }
  split.
  - destruct (BuildTransaction_fee_rate_validation SendingProofs.lib E (params 0)
                scenarios.fresh (Hwf 0)) as ([_ Htrace] & _); [discriminate|].
    apply (Htrace "key"); reflexivity.
  - destruct (BuildTransaction_fee_rate_validation SendingProofs.lib E (params 2000)
                scenarios.fresh (Hwf 2000)) as (_ & _ & Habove).
    apply Habove; [reflexivity | discriminate | reflexivity].
Defined.

(** *** Change or absorb *)

(** C2, as stated, fails at the boundary: one input of 2,676 for 1,000 at
    fee 1,130 leaves exactly the dust limit of 546, which is not below
    it, and the built transaction has no change output. *)
Lemma no_change_output_at_dust_limit :
  ~ (forall L c params sel fee keyPair tx,
       assemble L c params sel fee keyPair = transaction.Ok tx ->
       ~ sumValues sel - Amount params - fee < config.DustLimit (config.Transaction c) ->
       exists script,
         last (msg_TxOut tx) = Some (NewTxOut (sumValues sel - Amount params - fee) script)).
Proof.
  intros H.
  pose (params := {| From := scenarios.addr; To := "n1recipient"; Amount := 1000;
                     FeeRate := 5; PrivateKey := "key"; IncludeNativeUTXOs := true;
                     IncludeNonNativeUTXOs := false; TokenTransfers := [];
                     DataOutputs := [] |}).
  pose (sel := [toUTXO (scenarios.response "a1" 2676 6)]).
  destruct (assemble SendingProofs.lib config.getDefaultConfig params sel 1130 "key")
    as [tx|e] eqn:Hrun; [|vm_compute in Hrun; discriminate].
  destruct (H SendingProofs.lib config.getDefaultConfig params sel 1130 "key" tx Hrun)
    as [script Hlast]; [vm_compute; intros Hlt; discriminate|].
  vm_compute in Hrun. inversion Hrun; subst tx. vm_compute in Hlast. discriminate.
Qed.

Section Change.

Variable L : Lib.

(** The outputs of an assembled transaction. *)
Lemma assemble_outputs c params sel fee keyPair tx :
  let change := sumValues sel - Amount params - fee in
  let dust := config.DustLimit (config.Transaction c) in
  let testnet := config.IsTestnet (config.Network c) in
  fits64 change ->
  assemble L c params sel fee keyPair = transaction.Ok tx ->
  exists recipientScript zeros,
    (length zeros = length (TokenTransfers params) + length (DataOutputs params))%nat
    /\ let body := NewTxOut (Amount params) recipientScript :: map (NewTxOut 0) zeros in
       (change <= dust -> msg_TxOut tx = body)
       /\ (dust < change ->
           exists senderAddr changeScript,
             DecodeAddress L (From params) testnet = Some senderAddr
             /\ PayToAddrScript L senderAddr = Some changeScript
             /\ msg_TxOut tx = body ++ [NewTxOut change changeScript]).
Proof.
  intros change dust testnet Hfit H. unfold assemble in H.
  destruct (addInputs L (NewMsgTx 1) sel) as [tx1|] eqn:H1; [|discriminate].
  destruct (addOutputs L c tx1 params sel fee) as [tx2|] eqn:H2; [|discriminate].
  destruct (signTransaction L c tx2 sel keyPair) as [tx3|] eqn:H3; [|discriminate].
  inversion H; subst tx3; clear H.
  apply TransactionProofs.addInputs_ok in H1 as [Hout1 _]. simpl in Hout1.
  apply TransactionProofs.signLoop_ok in H3 as [Hout3 _]. rewrite Hout3. clear Hout3.
  unfold addOutputs in H2. fold testnet in H2.
  destruct (DecodeAddress L (To params) testnet) as [recipientAddr|]; [|discriminate].
  destruct (PayToAddrScript L recipientAddr) as [recipientScript|]; [|discriminate].
  destruct (addTokenOutputs L _ (TokenTransfers params)) as [ta|] eqn:Ha; [|discriminate].
  destruct (addDataOutputs L ta (DataOutputs params)) as [tb|] eqn:Hb; [|discriminate].
  apply TransactionProofs.addTokenOutputs_ok in Ha as (_ & markers & Hm & Houta).
  apply TransactionProofs.addDataOutputs_ok in Hb as (_ & datas & Hd & Houtb).
  apply Forall2_length in Hm, Hd.
  assert (Hout : msg_TxOut tb = NewTxOut (Amount params) recipientScript
                                  :: map (NewTxOut 0) (markers ++ datas)).
  { rewrite Houtb, Houta. simpl. rewrite Hout1, map_app. reflexivity. }
  rewrite ManagerProofs.CalculateChange_wrap in H2. cbv zeta in H2.
  fold change in H2. rewrite (wrap64_fits _ Hfit) in H2. fold dust in H2.
  exists recipientScript, (markers ++ datas).
  split; [rewrite length_app; lia|]. cbv zeta.
  destruct (Z.ltb_spec dust change) as [Habove|Hbelow].
  - destruct (DecodeAddress L (From params) testnet) as [senderAddr|] eqn:Hsa; [|discriminate].
    destruct (PayToAddrScript L senderAddr) as [changeScript|] eqn:Hcs; [|discriminate].
    inversion H2; subst tx2. split; [lia|]. intros _.
    exists senderAddr, changeScript. simpl msg_TxOut. rewrite Hout.
    split; [reflexivity|]. split; [exact Hcs | reflexivity].
  - inversion H2; subst tx2. split; [intros _; exact Hout | lia].
Qed.

(** C2, amended.  For every built transaction with selected inputs summing
    to [V], amount [A] and fee [F], [V - A - F] within 64 bits: if [V - A
    - F] is at most the dust limit (below it or equal to it), the
    transaction has no change output, its outputs being the payment and
    the zero-valued token and data outputs, and what the inputs leave
    over the outputs is [F] plus that excess; if [V - A - F] is strictly
    above the dust limit, exactly one change output of value [V - A - F],
    paying the sender's address, is appended as the last output, and the
    inputs leave exactly [F] over the outputs. *)
Theorem BuildTransaction_change_or_absorb c params sel fee keyPair tx :
  let V := sumValues sel in
  let change := V - Amount params - fee in
  let dust := config.DustLimit (config.Transaction c) in
  let testnet := config.IsTestnet (config.Network c) in
  let payload := (1 + length (TokenTransfers params) + length (DataOutputs params))%nat in
  fits64 change ->
  assemble L c params sel fee keyPair = transaction.Ok tx ->
  (change <= dust ->
     length (msg_TxOut tx) = payload
     /\ (exists script, head (msg_TxOut tx) = Some (NewTxOut (Amount params) script))
     /\ Forall (fun o => out_Value o = 0) (tail (msg_TxOut tx))
     /\ V - TransactionProofs.sumOut (msg_TxOut tx) = fee + change)
  /\ (dust < change ->
      exists senderAddr changeScript body,
        DecodeAddress L (From params) testnet = Some senderAddr
        /\ PayToAddrScript L senderAddr = Some changeScript
        /\ msg_TxOut tx = body ++ [NewTxOut change changeScript]
        /\ length body = payload
        /\ (exists script, head body = Some (NewTxOut (Amount params) script))
        /\ Forall (fun o => out_Value o = 0) (tail body)
        /\ V - TransactionProofs.sumOut (msg_TxOut tx) = fee).
Proof.
  intros V change dust testnet payload Hfit Hbuild.
  destruct (assemble_outputs c params sel fee keyPair tx Hfit Hbuild)
    as (recipientScript & zeros & Hlen & Hno & Hyes).
  fold V change dust testnet in Hno, Hyes.
  assert (Hzero : Forall (fun o => out_Value o = 0) (map (NewTxOut 0) zeros)).
  { apply Forall_map, Forall_forall. intros; reflexivity. }
  assert (Hsum : TransactionProofs.sumOut
                   (NewTxOut (Amount params) recipientScript :: map (NewTxOut 0) zeros)
                 = Amount params).
  { simpl. rewrite TransactionProofs.sumOut_zero. lia. }
  split.
  - intros Hle. rewrite (Hno Hle). simpl.
    split; [rewrite length_map; unfold payload; lia|].
    split; [eexists; reflexivity|]. split; [exact Hzero|]. rewrite TransactionProofs.sumOut_zero.
    unfold change. lia.
  - intros Hgt. destruct (Hyes Hgt) as (senderAddr & changeScript & Hsa & Hcs & Hout).
    exists senderAddr, changeScript,
      (NewTxOut (Amount params) recipientScript :: map (NewTxOut 0) zeros).
    split; [exact Hsa|]. split; [exact Hcs|]. split; [exact Hout|].
    split; [simpl; rewrite length_map; unfold payload; lia|].
    split; [simpl; eexists; reflexivity|]. split; [exact Hzero|].
    rewrite Hout, TransactionProofs.sumOut_app, Hsum. simpl. unfold change. lia.
Qed.

End Change.

(** One input of 2,676 for 1,000 at fee 1,130 leaves exactly the dust
    limit of 546 and the payment is the only output; one input of 2,677
    leaves 547, paid back as the last output. *)
Lemma BuildTransaction_change_or_absorb_witness :
  let params := {| From := scenarios.addr; To := "n1recipient"; Amount := 1000; FeeRate := 5;
                   PrivateKey := "key"; IncludeNativeUTXOs := true;
                   IncludeNonNativeUTXOs := false; TokenTransfers := []; DataOutputs := [] |} in
  let sel value := [toUTXO (scenarios.response "a1" value 6)] in
  (exists tx,
     assemble SendingProofs.lib config.getDefaultConfig params (sel 2676) 1130 "key"
       = transaction.Ok tx
     /\ length (msg_TxOut tx) = 1%nat)
  /\ (exists tx body script,
        assemble SendingProofs.lib config.getDefaultConfig params (sel 2677) 1130 "key"
          = transaction.Ok tx
        /\ msg_TxOut tx = body ++ [NewTxOut 547 script]).
Proof.
  intros params sel. split.
  - destruct (assemble SendingProofs.lib config.getDefaultConfig params (sel 2676) 1130 "key")
      as [tx|e] eqn:Hrun; [|vm_compute in Hrun; discriminate].
    exists tx. split; [reflexivity|].
    destruct (BuildTransaction_change_or_absorb SendingProofs.lib config.getDefaultConfig
                params (sel 2676) 1130 "key" tx) as [Hno _];
      [split; vm_compute; [discriminate | reflexivity] | exact Hrun |].
    destruct Hno as [Hlen _]; [vm_compute; discriminate|]. exact Hlen.
  - destruct (assemble SendingProofs.lib config.getDefaultConfig params (sel 2677) 1130 "key")
      as [tx|e] eqn:Hrun; [|vm_compute in Hrun; discriminate].
    destruct (BuildTransaction_change_or_absorb SendingProofs.lib config.getDefaultConfig
                params (sel 2677) 1130 "key" tx) as [_ Hyes];
      [split; vm_compute; [discriminate | reflexivity] | exact Hrun |].
    destruct Hyes as (senderAddr & changeScript & body & _ & _ & Hout & _);
      [vm_compute; reflexivity|].
    exists tx, body, changeScript. split; [reflexivity | exact Hout].
Defined.

(** *** How cache entries change *)


Section Entries.

Variable E : Env.








End Entries.


End PolicyProofs.
